(** * Help-centre backend: refund reconciliation, request store, chat access

    A shallow embedding of the parts of the backend that carry its
    business rules:

    - [services/shopify.ts]: order-number normalisation, partial-refund
      line-item validation and the refund reconciliation of
      [executeRefund];
    - [repositories/helpRequests.ts] and [database/schema.sql]: the
      request table with its partial unique index;
    - [repositories/chat.ts]: the unread counter;
    - [routes/chat.ts] and [routes/helpRequests.ts]: the access rules of
      the chat endpoints and the refund endpoint.

    Conventions of the embedding.

    - A JavaScript [number] that holds a currency amount is the rational
      ([Q]) it denotes, and an amount string such as ["12.34"] is the
      decimal value it denotes.  In [Shopify] the arithmetic on amounts
      is exact; it serves the properties that do not depend on how a
      product or a sum is rounded (which branch runs, what is sent, signs).
      The sums of the reconciliation do depend on it: for them the block
      is embedded a second time, in [Refund64], with every operation
      rounded to binary64 as [Binary64] defines it.
    - Quantities and identifiers are integers ([Z]).
    - Strings are [string] from the standard library, i.e. sequences of
      8-bit characters; case folding and trimming act on the ASCII range.
    - The order provider and the token verifier are outside the program;
      they appear as records of functions (an oracle per HTTP call).
    - Timestamps are integers (microseconds). *)

From Stdlib Require Import ZArith QArith Qround Qabs Qreduction Qpower List Lia Lqa
  String Ascii Bool.
From stdpp Require Import base option list gmap strings sorting pretty.
Import ListNotations.

(** ** JavaScript primitives used by the services *)

Module JS.

Local Open Scope Q_scope.

(** [a > b] on numbers. *)
Definition gt (a b : Q) : bool := negb (Qle_bool a b).

(** [Math.round]: nearest integer, ties towards plus infinity. *)
Definition Math_round (x : Q) : Z := Qfloor (x + (1 # 2)).

(** [Math.abs]. *)
Definition Math_abs (x : Q) : Q := Qabs x.

(** [Math.max(a, b)]. *)
Definition Math_max (a b : Q) : Q := if Qle_bool a b then b else a.

(** [x.toFixed(2)], as the value of the string produced: the integer
    [n] with [n / 100] closest to [|x|], the larger one on a tie, with
    the sign of [x]. *)
Definition toFixed2 (x : Q) : Q :=
  if gt 0 x
  then - (inject_Z (Qfloor ((- x) * 100 + (1 # 2))) / 100)
  else inject_Z (Qfloor (x * 100 + (1 # 2))) / 100.

(** [s.replace(/^#/, '')]. *)
Definition replace_leading_hash (s : string) : string :=
  match s with
  | String "#"%char rest => rest
  | _ => s
  end.

(** White space removed by [trim], in the ASCII range: tab, line feed,
    vertical tab, form feed, carriage return and space. *)
Definition is_white (c : ascii) : bool :=
  let n := nat_of_ascii c in
  ((9 <=? n) && (n <=? 13))%nat || (n =? 32)%nat.

Fixpoint trimStart (s : string) : string :=
  match s with
  | String c rest => if is_white c then trimStart rest else s
  | EmptyString => EmptyString
  end.

(** [trimEnd], written by recursion on the string: a white character
    is dropped when everything after it is dropped too. *)
Fixpoint trimEnd (s : string) : string :=
  match s with
  | EmptyString => EmptyString
  | String c rest =>
      match trimEnd rest with
      | EmptyString => if is_white c then EmptyString else String c EmptyString
      | r => String c r
      end
  end.

(** [s.trim()]. *)
Definition trim (s : string) : string := trimEnd (trimStart s).

(** [c.toLowerCase()] on one ASCII character. *)
Definition lower_ascii (c : ascii) : ascii :=
  let n := nat_of_ascii c in
  if ((65 <=? n) && (n <=? 90))%nat then ascii_of_nat (n + 32) else c.

(** [s.toLowerCase()]. *)
Fixpoint toLowerCase (s : string) : string :=
  match s with
  | EmptyString => EmptyString
  | String c rest => String (lower_ascii c) (toLowerCase rest)
  end.

(** Truthiness of a string: the empty string is falsy. *)
Definition truthy (s : string) : bool :=
  match s with EmptyString => false | _ => true end.

(** Truthiness of [string | undefined]. *)
Definition truthy_opt (s : option string) : bool :=
  match s with Some s => truthy s | None => false end.

(** [a || b] on strings. *)
Definition or_else (a b : string) : string := if truthy a then a else b.

End JS.

(** ** [types/helpRequests.ts] *)

Module Types.

(** The three types of the interface and ['exchange'], which the table
    allows as well. *)
Inductive HelpRequestType := cancel | return_ | refund | exchange.

Inductive HelpRequestStatus := pending | in_progress | approved | rejected | completed.

(** A row of [help_requests].  [shopify_order_id] is stored as the
    decimal text of the provider's order id; the model keeps the integer.
    Timestamps are integers. *)
Record HelpRequestRow := {
  id : string;
  type : HelpRequestType;
  status : HelpRequestStatus;
  customer_email : string;
  customer_phone : option string;
  customer_name : string;
  order_number : string;
  reason : option string;
  shopify_order_id : option Z;
  shopify_shop : option string;
  processed_at : option Z;
  processed_by : option string;
  admin_notes : option string;
  created_at : Z;
  updated_at : Z
}.

Record HelpRequestCreateBody := {
  body_type : HelpRequestType;
  body_customer_email : string;
  body_customer_phone : option string;
  body_customer_name : string;
  body_order_number : string;
  body_reason : option string
}.

Record HelpRequestUpdateBody := {
  upd_status : option HelpRequestStatus;
  upd_admin_notes : option string;
  upd_shopify_order_id : option Z;
  upd_shopify_shop : option string
}.

#[export] Instance HelpRequestStatus_eq_dec : EqDecision HelpRequestStatus.
Proof. solve_decision. Defined.

#[export] Instance HelpRequestType_eq_dec : EqDecision HelpRequestType.
Proof. solve_decision. Defined.

End Types.

(** ** [services/shopify.ts] *)

Module Shopify.

Local Open Scope Q_scope.

Record ShopifyLineItem := {
  li_id : Z;
  li_quantity : Z;
  li_price : string;
  li_title : string
}.

Record ShopifyOrder := {
  order_id : Z;
  order_name : string;
  currency : string;
  line_items : list ShopifyLineItem
}.

(** [RefundLineItemInput]: what is sent to the provider. *)
Record RefundLineItemInput := {
  line_item_id : Z;
  quantity : Z;
  restock_type : option string
}.

(** An element of the [refundLineItems] argument of [refundPartialOrder]. *)
Record RefundRequestItem := {
  lineItemId : Z;
  requested : Z
}.

(** A transaction of the provider's [calculate] answer: every field may
    be missing. *)
Record CalcTransaction := {
  calc_parent_id : option Z;
  calc_amount : option Q;
  calc_gateway : option string;
  calc_kind : option string
}.

(** A transaction as kept and sent back; [kind] is always ['refund']. *)
Record Transaction := {
  parent_id : Z;
  amount : Q;
  gateway : string
}.

(** The [refund] object of the [calculate] answer.  [transactions] is
    [None] when the field is not an array; the remaining fields are kept
    as key / serialised value pairs. *)
Record RefundPayload := {
  payload_transactions : option (list CalcTransaction);
  payload_note : option string;
  payload_rest : list (string * string)
}.

Record CalcRequest := {
  calc_currency : string;
  calc_refund_line_items : list RefundLineItemInput;
  calc_note : string
}.

(** The body of the refund-creation call: [transactions] is [None] when
    the field is [undefined]. *)
Record CreateRefund := {
  create_note : string;
  create_transactions : option (list Transaction);
  create_rest : list (string * string)
}.

(** What a [fetch] gives: a body when [res.ok], else status and text.  A
    [fetch] that rejects and a body that is not JSON are not modelled. *)
Inductive response (A : Type) :=
| ResOk (body : A)
| ResFail (status : Z) (text : string).
Arguments ResOk {A} body.
Arguments ResFail {A} status text.

(** The order provider, one function per HTTP call of the service. *)
Record Provider := {
  orders_by_name : string -> response (option (list ShopifyOrder));
  orders_get : Z -> response ShopifyOrder;
  orders_cancel : Z -> string -> response unit;
  refunds_calculate : Z -> CalcRequest -> response (option RefundPayload);
  refunds_create : Z -> CreateRefund -> response unit
}.

(** Errors thrown by the service.  [status] is the [err.status] field,
    present only on errors built by [parseShopifyError] and [cancelOrder];
    [text] is the response text, from which [parseShopifyError] takes the
    message of the error (the message is not modelled). *)
Inductive error :=
| LookupFailed (status : Z) (text : string)
| GetOrderFailed (status : Z) (text : string)
| NoLineItems
| LineItemNotFound (lineItemId : Z)
| NoRefundPayload
| ProviderError (status : Z) (text : string).

Definition error_status (e : error) : option Z :=
  match e with
  | ProviderError status _ => Some status
  | _ => None
  end.

(** A promise that resolves with a value or rejects with an error. *)
Inductive result (A : Type) :=
| Ok (a : A)
| Throw (e : error).
Arguments Ok {A} a.
Arguments Throw {A} e.

(** The normalisation [orderNumber.replace(/^#/, '').trim()]. *)
Definition normalize (orderNumber : string) : string :=
  JS.trim (JS.replace_leading_hash orderNumber).

(** The [name] query parameter built by [findOrderByName]. *)
Definition findOrderByName_name (orderNumber : string) : string :=
  String "#"%char (normalize orderNumber).

Definition findOrderByName (p : Provider) (orderNumber : string)
  : result (option ShopifyOrder) :=
  match orders_by_name p (findOrderByName_name orderNumber) with
  | ResFail status text => Throw (LookupFailed status text)
  | ResOk data => Ok (match data with Some (order :: _) => Some order | _ => None end)
  end.

Definition getOrder (p : Provider) (orderId : Z) : result ShopifyOrder :=
  match orders_get p orderId with
  | ResFail status text => Throw (GetOrderFailed status text)
  | ResOk order => Ok order
  end.

(** [cancelOrder]: the reason defaults to ['customer']; a failure carries
    the HTTP status. *)
Definition cancelOrder (p : Provider) (orderId : Z) (reason : option string)
  : result unit :=
  match orders_cancel p orderId (default "customer"%string reason) with
  | ResFail status text => Throw (ProviderError status text)
  | ResOk _ => Ok ()
  end.

(** The [filter] and [map] over the calculated transactions. *)
Definition keep (ts : option (list CalcTransaction)) : list Transaction :=
  match ts with
  | Some ts =>
      omap (fun t =>
              match calc_parent_id t, calc_amount t, calc_gateway t with
              | Some p, Some a, Some g =>
                  Some {| parent_id := p; amount := a; gateway := g |}
              | _, _, _ => None
              end) ts
  | None => []
  end.

Definition with_amount (t : Transaction) (a : Q) : Transaction :=
  {| parent_id := parent_id t; amount := a; gateway := gateway t |}.

(** [ts.reduce((sum, t) => sum + parseFloat(t.amount), 0)]. *)
Definition total (ts : list Transaction) : Q :=
  fold_left (fun sum t => sum + amount t) ts 0.

(** The [scaled] array: each amount times [scale], rounded to cents and
    printed with two decimals. *)
Definition scaled (manualRefundAmount : Q) (transactions : list Transaction)
  : list Transaction :=
  let suggestedTotal := total transactions in
  let scale := manualRefundAmount / suggestedTotal in
  map (fun t =>
         let amt := amount t * scale in
         let rounded := inject_Z (JS.Math_round (amt * 100)) / 100 in
         with_amount t (JS.toFixed2 rounded))
      transactions.

(** The residual [diff] between the manual amount and the scaled total. *)
Definition diff (manualRefundAmount : Q) (transactions : list Transaction) : Q :=
  let newTotal := total (scaled manualRefundAmount transactions) in
  inject_Z (JS.Math_round ((manualRefundAmount - newTotal) * 100)) / 100.

(** The reconciliation block of [executeRefund]: the transactions that
    are sent, from the kept ones and the optional manual amount. *)
Definition reconcile (manualRefundAmount : option Q) (transactions : list Transaction)
  : list Transaction :=
  match manualRefundAmount with
  | Some m =>
      if JS.gt m 0 && (0 <? length transactions)%nat then
        let suggestedTotal := total transactions in
        if JS.gt suggestedTotal 0 && JS.gt (JS.Math_abs (m - suggestedTotal)) (1 # 1000) then
          let d := diff m transactions in
          match scaled m transactions with
          | s0 :: rest =>
              if negb (Qeq_bool d 0)
              then with_amount s0 (JS.toFixed2 (JS.Math_max 0 (amount s0 + d))) :: rest
              else s0 :: rest
          | [] => []
          end
        else transactions
      else transactions
  | None => transactions
  end.

Definition default_note : string := "Refund initiated from Tilting Heads Help Centre".

Definition removed_key (k : string) : bool :=
  (k =? "id")%string || (k =? "order_id")%string
  || (k =? "created_at")%string || (k =? "processed_at")%string
  || (k =? "note")%string || (k =? "transactions")%string.

Definition executeRefund (p : Provider) (orderId : Z) (order : ShopifyOrder)
    (refundLineItems : list RefundLineItemInput) (note : option string)
    (manualRefundAmount : option Q) : result CreateRefund :=
  let calc := {| calc_currency := currency order;
                 calc_refund_line_items := refundLineItems;
                 calc_note := default default_note note |} in
  match refunds_calculate p orderId calc with
  | ResFail status text => Throw (ProviderError status text)
  | ResOk None => Throw NoRefundPayload
  | ResOk (Some refundPayload) =>
      let transactions := keep (payload_transactions refundPayload) in
      let transactions := reconcile manualRefundAmount transactions in
      let createRefund :=
        {| create_note :=
             match note with
             | Some n => n
             | None => default default_note (payload_note refundPayload)
             end;
           create_transactions :=
             if (0 <? length transactions)%nat then Some transactions else None;
           create_rest :=
             filter (fun kv => negb (removed_key (fst kv))) (payload_rest refundPayload) |} in
      match refunds_create p orderId createRefund with
      | ResFail status text => Throw (ProviderError status text)
      | ResOk _ => Ok createRefund
      end
  end.

(** Full refund: every line item at its full quantity, no restock. *)
Definition refundFullOrder (p : Provider) (orderId : Z) (note : option string)
    (manualRefundAmount : option Q) : result CreateRefund :=
  match getOrder p orderId with
  | Throw e => Throw e
  | Ok order =>
      let refundLineItems :=
        map (fun li => {| line_item_id := li_id li;
                          quantity := li_quantity li;
                          restock_type := Some "no_restock"%string |})
            (line_items order) in
      executeRefund p orderId order refundLineItems note manualRefundAmount
  end.

(** [new Map(order.line_items.map((li) => [li.id, li]))]: a later entry
    with the same id replaces an earlier one. *)
Definition byId (lis : list ShopifyLineItem) : gmap Z ShopifyLineItem :=
  fold_left (fun m li => <[li_id li := li]> m) lis ∅.

(** The [for ... of] loop of [refundPartialOrder], [items] being the
    array filled so far. *)
Fixpoint collect (ids : gmap Z ShopifyLineItem) (restockType : string)
    (refundLineItems : list RefundRequestItem) (items : list RefundLineItemInput)
  : result (list RefundLineItemInput) :=
  match refundLineItems with
  | [] => Ok items
  | r :: rest =>
      if (requested r <=? 0)%Z then collect ids restockType rest items
      else
        match ids !! lineItemId r with
        | None => Throw (LineItemNotFound (lineItemId r))
        | Some li =>
            let qty := Z.min (requested r) (li_quantity li) in
            if (0 <? qty)%Z
            then collect ids restockType rest
                   (items ++ [ {| line_item_id := lineItemId r;
                                  quantity := qty;
                                  restock_type := Some restockType |} ])
            else collect ids restockType rest items
        end
  end.

Record PartialOptions := {
  restockType : option string;
  note : option string;
  manualRefundAmount : option Q
}.

(** The line items [refundPartialOrder] passes to [executeRefund], or
    the error it throws before that. *)
Definition partialItems (order : ShopifyOrder) (refundLineItems : list RefundRequestItem)
    (options : option PartialOptions) : result (list RefundLineItemInput) :=
  let restock := default "no_restock"%string (options ≫= restockType) in
  match collect (byId (line_items order)) restock refundLineItems [] with
  | Throw e => Throw e
  | Ok items =>
      if (length items =? 0)%nat then Throw NoLineItems else Ok items
  end.

Definition refundPartialOrder (p : Provider) (orderId : Z)
    (refundLineItems : list RefundRequestItem) (options : option PartialOptions)
  : result CreateRefund :=
  if (length refundLineItems =? 0)%nat then Throw NoLineItems
  else
    match getOrder p orderId with
    | Throw e => Throw e
    | Ok order =>
        match partialItems order refundLineItems options with
        | Throw e => Throw e
        | Ok items =>
            executeRefund p orderId order items (options ≫= note)
              (options ≫= manualRefundAmount)
        end
    end.

End Shopify.

(** ** [database/schema.sql]: the tables and their constraints *)

Module Database.

Import Types.

Inductive Sender := customer | admin.

#[export] Instance Sender_eq_dec : EqDecision Sender.
Proof. solve_decision. Defined.

(** A row of [chat_messages]. *)
Record ChatMessageRow := {
  msg_id : string;
  request_id : string;
  sender : Sender;
  sender_id : option string;
  body : option string;
  attachment_blob_url : option string;
  attachment_blob_path : option string;
  attachment_file_name : option string;
  attachment_content_type : option string;
  msg_created_at : Z
}.

(** The store: the value of [now()], [help_requests] keyed by its
    primary key, and [chat_messages] in insertion order.

    Of the constraints of [schema.sql] the store checks the primary keys,
    the partial unique index of [help_requests] and the foreign key of
    [chat_messages.request_id].  The lengths of the [VARCHAR] columns, the
    [UUID] syntax of identifiers and the foreign keys to [admin_users] are
    not part of it: the real store refuses every statement refused here,
    and some more.  A property below that needs a statement to have been
    accepted therefore takes the acceptance as a hypothesis, or allows for
    the refusal. *)
Record state := {
  clock : Z;
  help_requests : gmap string HelpRequestRow;
  chat_messages : list ChatMessageRow
}.

Definition empty : state :=
  {| clock := 0; help_requests := ∅; chat_messages := [] |}.

(** The predicate of [idx_help_requests_one_open_per_order]:
    [WHERE status NOT IN ('completed', 'rejected')]. *)
Definition in_open_index (r : HelpRequestRow) : bool :=
  negb (bool_decide (status r ∈ [completed; rejected])).

(** Two rows collide in the unique index when both satisfy its predicate
    and carry the same [order_number]. *)
Definition collides (r r' : HelpRequestRow) : bool :=
  in_open_index r && in_open_index r'
  && bool_decide (order_number r' = order_number r).

(** The uniqueness check made when row [r] is written under key [self]:
    no row under another key collides with it. *)
Definition index_accepts (rows : gmap string HelpRequestRow) (self : string)
    (r : HelpRequestRow) : bool :=
  bool_decide (map_Forall (λ k r', k = self ∨ collides r r' = false) rows).

(** [INSERT INTO help_requests]: fails on a duplicate primary key or on a
    collision in the unique index. *)
Definition insert_help_request (r : HelpRequestRow) (s : state) : option state :=
  match help_requests s !! id r with
  | Some _ => None
  | None =>
      if index_accepts (help_requests s) (id r) r
      then Some {| clock := clock s;
                   help_requests := <[id r := r]> (help_requests s);
                   chat_messages := chat_messages s |}
      else None
  end.

(** The trigger [help_requests_updated_at]. *)
Definition with_updated_at (r : HelpRequestRow) (t : Z) : HelpRequestRow :=
  {| id := id r; type := type r; status := status r;
     customer_email := customer_email r; customer_phone := customer_phone r;
     customer_name := customer_name r; order_number := order_number r;
     reason := reason r; shopify_order_id := shopify_order_id r;
     shopify_shop := shopify_shop r; processed_at := processed_at r;
     processed_by := processed_by r; admin_notes := admin_notes r;
     created_at := created_at r; updated_at := t |}.

(** [UPDATE help_requests SET ... WHERE id = k RETURNING *]: [set] gives
    the new row and the trigger stamps [updated_at]; the unique index is
    checked for the new row.  No row under [k] is not an error. *)
Definition update_help_request (k : string) (set : HelpRequestRow → HelpRequestRow)
    (s : state) : option (option HelpRequestRow * state) :=
  match help_requests s !! k with
  | None => Some (None, s)
  | Some r =>
      let r' := with_updated_at (set r) (clock s) in
      if index_accepts (help_requests s) k r'
      then Some (Some r',
                 {| clock := clock s;
                    help_requests := <[k := r']> (help_requests s);
                    chat_messages := chat_messages s |})
      else None
  end.

(** [INSERT INTO chat_messages]: the primary key must be new and the
    foreign key [request_id] must name a request. *)
Definition insert_chat_message (m : ChatMessageRow) (s : state) : option state :=
  if existsb (λ m', bool_decide (msg_id m' = msg_id m)) (chat_messages s) then None
  else
    match help_requests s !! request_id m with
    | None => None
    | Some _ =>
        Some {| clock := clock s;
                help_requests := help_requests s;
                chat_messages := chat_messages s ++ [m] |}
    end.

(** Time passes. *)
Definition advance (t : Z) (s : state) : state :=
  {| clock := t; help_requests := help_requests s; chat_messages := chat_messages s |}.

End Database.

(** ** [repositories/helpRequests.ts] *)

Module HelpRequestsRepo.

Import Types Database.

Definition OPEN_STATUSES : list HelpRequestStatus := [pending; in_progress; approved].

(** The two order numbers [hasOpenRequestForOrder] queries for. *)
Definition open_request_keys (orderNumber : string) : string * string :=
  let normalized := Shopify.normalize orderNumber in
  (normalized, String "#"%char normalized).

Definition hasOpenRequestForOrder (orderNumber : string) (s : state) : bool :=
  let '(k1, k2) := open_request_keys orderNumber in
  bool_decide
    (map_Exists
       (λ _ r, (order_number r = k1 ∨ order_number r = k2)
               ∧ status r ∈ OPEN_STATUSES)
       (help_requests s)).

Definition trim_opt (o : option string) : option string :=
  match o with
  | Some x => if JS.truthy (JS.trim x) then Some (JS.trim x) else None
  | None => None
  end.

(** The order number [create] stores. *)
Definition create_orderNumber (order_number : string) : string :=
  JS.or_else (Shopify.normalize order_number) order_number.

(** [create]: [new_id] is the value drawn by [gen_random_uuid()].
    [None] is a rejected insert. *)
Definition create (body : HelpRequestCreateBody) (new_id : string) (s : state)
  : option (HelpRequestRow * state) :=
  let row :=
    {| id := new_id;
       type := body_type body;
       status := pending;
       customer_email := JS.trim (body_customer_email body);
       customer_phone := trim_opt (body_customer_phone body);
       customer_name := JS.trim (body_customer_name body);
       order_number := create_orderNumber (body_order_number body);
       reason := trim_opt (body_reason body);
       shopify_order_id := None;
       shopify_shop := None;
       processed_at := None;
       processed_by := None;
       admin_notes := None;
       created_at := clock s;
       updated_at := clock s |} in
  match insert_help_request row s with
  | Some s' => Some (row, s')
  | None => None
  end.

Definition getById (k : string) (s : state) : option HelpRequestRow :=
  help_requests s !! k.

(** The [SET] list built by [update]. *)
Definition apply_update (body : HelpRequestUpdateBody) (processedBy : option string)
    (t : Z) (r : HelpRequestRow) : HelpRequestRow :=
  let stamps :=
    bool_decide (upd_status body = Some completed ∨ upd_status body = Some rejected) in
  {| id := id r; type := type r;
     status := default (status r) (upd_status body);
     customer_email := customer_email r; customer_phone := customer_phone r;
     customer_name := customer_name r; order_number := order_number r;
     reason := reason r;
     shopify_order_id :=
       match upd_shopify_order_id body with Some x => Some x | None => shopify_order_id r end;
     shopify_shop :=
       match upd_shopify_shop body with Some x => Some x | None => shopify_shop r end;
     processed_at := if stamps then Some t else processed_at r;
     processed_by :=
       if stamps && JS.truthy_opt processedBy then processedBy else processed_by r;
     admin_notes :=
       match upd_admin_notes body with Some x => Some x | None => admin_notes r end;
     created_at := created_at r; updated_at := updated_at r |}.

Definition no_updates (body : HelpRequestUpdateBody) : bool :=
  bool_decide (upd_status body = None) && bool_decide (upd_admin_notes body = None)
  && bool_decide (upd_shopify_order_id body = None)
  && bool_decide (upd_shopify_shop body = None).

(** [update]: [None] is a rejected statement; [Some (None, _)] is the
    [null] returned for an unknown id. *)
Definition update (k : string) (body : HelpRequestUpdateBody) (processedBy : option string)
    (s : state) : option (option HelpRequestRow * state) :=
  if no_updates body then Some (getById k s, s)
  else update_help_request k (apply_update body processedBy (clock s)) s.

End HelpRequestsRepo.

(** ** [repositories/chat.ts] *)

Module ChatRepo.

Import Types Database.

Record ChatMessageCreate := {
  new_request_id : string;
  new_sender : Sender;
  new_sender_id : option string;
  new_body : option string;
  new_attachment_blob_url : option string;
  new_attachment_blob_path : option string;
  new_attachment_file_name : option string;
  new_attachment_content_type : option string
}.

Definition or_null (o : option string) : option string :=
  match o with
  | Some x => if JS.truthy x then Some x else None
  | None => None
  end.

(** The order of [ORDER BY created_at ASC]. *)
Definition created_before (a b : ChatMessageRow) : Prop :=
  (msg_created_at a ≤ msg_created_at b)%Z.

#[export] Instance created_before_dec a b : Decision (created_before a b).
Proof. unfold created_before. apply _. Defined.

(** [getMessagesByRequestId]. *)
Definition getMessagesByRequestId (requestId : string) (s : state) : list ChatMessageRow :=
  merge_sort created_before
    (filter (λ m, request_id m = requestId) (chat_messages s)).

(** [createMessage]: [new_id] is the value drawn by [gen_random_uuid()];
    [created_at] defaults to [now()]. *)
Definition createMessage (data : ChatMessageCreate) (new_id : string) (s : state)
  : option (ChatMessageRow * state) :=
  let row :=
    {| msg_id := new_id;
       request_id := new_request_id data;
       sender := new_sender data;
       sender_id := or_null (new_sender_id data);
       body := HelpRequestsRepo.trim_opt (new_body data);
       attachment_blob_url := or_null (new_attachment_blob_url data);
       attachment_blob_path := or_null (new_attachment_blob_path data);
       attachment_file_name := or_null (new_attachment_file_name data);
       attachment_content_type := or_null (new_attachment_content_type data);
       msg_created_at := clock s |} in
  match insert_chat_message row s with
  | Some s' => Some (row, s')
  | None => None
  end.

(** [SELECT MAX(created_at) ... WHERE request_id = $1 AND sender = 'admin']:
    [None] is SQL [NULL], the maximum of no rows. *)
Definition last_admin_time (requestId : string) (s : state) : option Z :=
  foldr (λ m acc,
           if bool_decide (request_id m = requestId ∧ sender m = admin)
           then Some (match acc with
                      | Some t => Z.max (msg_created_at m) t
                      | None => msg_created_at m
                      end)
           else acc)
        None (chat_messages s).

(** [SELECT created_at ... FROM help_requests WHERE id = $1]. *)
Definition request_time (requestId : string) (s : state) : option Z :=
  created_at <$> (help_requests s !! requestId).

(** [COALESCE(a, b)]. *)
Definition COALESCE {A} (a b : option A) : option A :=
  match a with Some _ => a | None => b end.

(** [x > y] in SQL's three-valued logic, as used by [WHERE]: a [NULL]
    operand does not select the row. *)
Definition sql_gt (x : Z) (y : option Z) : bool :=
  match y with Some y => (y <? x)%Z | None => false end.

Definition getUnreadCountForAdmin (requestId : string) (s : state) : nat :=
  let threshold := COALESCE (last_admin_time requestId s) (request_time requestId s) in
  length
    (filter (λ m, request_id m = requestId ∧ sender m = customer
                  ∧ sql_gt (msg_created_at m) threshold = true)
            (chat_messages s)).

End ChatRepo.

(** ** [middleware/auth.ts] *)

Module Auth.

Record AuthPayload := {
  userId : string;
  email : string
}.

(** What [jwt.verify] decodes. *)
Record Decoded := {
  decoded_userId : string;
  decoded_email : string;
  decoded_type : option string
}.

(** [jwt.verify(token, secret)]; [None] when it throws. *)
Definition Verifier := string → option Decoded.

(** [header?.startsWith('Bearer ') ? header.slice(7) : null]. *)
Definition bearer (header : option string) : option string :=
  match header with
  | Some h =>
      if String.prefix "Bearer " h
      then Some (String.substring 7 (String.length h - 7) h)
      else None
  | None => None
  end.

Definition access (d : Decoded) : option AuthPayload :=
  if bool_decide (decoded_type d = Some "access"%string)
  then Some {| userId := decoded_userId d; email := decoded_email d |}
  else None.

(** [requireAuth]: the payload put in [req.auth], or [None] for the 401
    answers. *)
Definition requireAuth (verify : Verifier) (authorization : option string)
  : option AuthPayload :=
  match bearer authorization with
  | Some token => if JS.truthy token then verify token ≫= access else None
  | None => None
  end.

End Auth.

(** ** [routes/chat.ts] *)

Module ChatRoutes.

Import Types Database ChatRepo Auth.

Inductive Method := GET | POST.

#[export] Instance Method_eq_dec : EqDecision Method.
Proof. solve_decision. Defined.

(** The JSON body of a post. *)
Record PostBody := {
  post_body : option string;
  post_attachment_blob_url : option string;
  post_attachment_blob_path : option string;
  post_attachment_file_name : option string;
  post_attachment_content_type : option string
}.

Record Request := {
  method : Method;
  authorization : option string;
  query_token : option string;
  query_email : option string;
  requestId : string;
  json : PostBody
}.

Inductive reply :=
| Ok200 (messages : list ChatMessageRow)
| Created201 (message : ChatMessageRow)
| BadRequest400
| Unauthorized401
| Forbidden403
| NotFound404
| ServerError500.

(** The router-level middleware: [req.auth] after it ran.  A token in
    the query string is read for [GET] only. *)
Definition optional_auth (verify : Verifier) (req : Request) : option AuthPayload :=
  let token := bearer (authorization req) in
  let token :=
    if negb (JS.truthy_opt token) && bool_decide (method req = GET)
    then match query_token req with Some q => Some q | None => token end
    else token in
  match token with
  | Some t => if JS.truthy t then verify t ≫= access else None
  | None => None
  end.

(** [customerEmail.toLowerCase() === request.customer_email.toLowerCase()]. *)
Definition same_email (customerEmail : string) (request : HelpRequestRow) : bool :=
  bool_decide (JS.toLowerCase customerEmail = JS.toLowerCase (customer_email request)).

(** [GET /chat/:requestId/messages]. *)
Definition getMessages (verify : Verifier) (req : Request) (s : state) : reply :=
  match HelpRequestsRepo.getById (requestId req) s with
  | None => NotFound404
  | Some request =>
      let customerEmail := query_email req in
      let user := optional_auth verify req in
      if negb (JS.truthy_opt customerEmail) && negb (bool_decide (is_Some user))
      then Unauthorized401
      else
        match customerEmail with
        | Some e =>
            if JS.truthy e && negb (same_email e request)
            then Forbidden403
            else Ok200 (getMessagesByRequestId (requestId req) s)
        | None => Ok200 (getMessagesByRequestId (requestId req) s)
        end
  end.

(** The sender of a post and its [senderId], or [None] for the 401
    answer. *)
Definition determineSender (user : option AuthPayload) (customerEmail : option string)
    (request : HelpRequestRow) : option (Sender * option string) :=
  match user with
  | Some u => Some (admin, Some (userId u))
  | None =>
      match customerEmail with
      | Some e =>
          if JS.truthy e && same_email e request then Some (customer, None) else None
      | None => None
      end
  end.



End ChatRoutes.

(** ** [routes/helpRequests.ts]: creation and the refund endpoint *)

Module HelpRequestsRoutes.

Import Types Database Auth Shopify.

Local Open Scope Q_scope.

Inductive create_reply :=
| Created (row : HelpRequestRow)
| BadRequest
| OpenRequestExists
| CreateFailed.

Definition allowedTypes : list HelpRequestType := [cancel; return_; refund].

(** [POST /help-requests]: 400 on a missing field or a type that is not
    allowed, 409 when the pre-check finds an open request, 500 when the
    store rejects the insert, 201 otherwise.  The two e-mail
    notifications are fire-and-forget.  The pre-check and the insert act
    on one state here: a request handled alone, with no statement of
    another request between the two. *)
Definition createRequest (body : HelpRequestCreateBody) (new_id : string) (s : state)
  : create_reply * state :=
  if negb (JS.truthy (JS.trim (body_customer_email body)))
     || negb (JS.truthy (JS.trim (body_customer_name body)))
     || negb (JS.truthy (JS.trim (body_order_number body)))
  then (BadRequest, s)
  else if negb (bool_decide (body_type body ∈ allowedTypes)) then (BadRequest, s)
  else if HelpRequestsRepo.hasOpenRequestForOrder (body_order_number body) s
  then (OpenRequestExists, s)
  else
    match HelpRequestsRepo.create body new_id s with
    | Some (row, s') => (Created row, s')
    | None => (CreateFailed, s)
    end.

(** The [refundAmount] member of the JSON body. *)
Inductive RefundAmount :=
| AmountAbsent
| AmountNull
| AmountNumber (q : Q)
| AmountOther.

(** The JSON body; [refundLineItems] is [None] unless it is an array. *)
Record RefundBody := {
  refundLineItems : option (list RefundRequestItem);
  body_restockType : option string;
  body_note : option string;
  refundAmount : RefundAmount
}.

(** The answer of the endpoint, with the refund the provider accepted
    while the request was handled, if any. *)
Record reply := {
  code : Z;
  refund_created : option CreateRefund
}.

(** The [manualAmount] the route passes on: a positive number, or
    [undefined]. *)
Definition manualAmount (body : RefundBody) : option Q :=
  match refundAmount body with
  | AmountNumber q => if JS.gt q 0 then Some q else None
  | _ => None
  end.

(** The status sent for a thrown error: 422 and 400 are passed through. *)
Definition error_code (e : error) : Z :=
  match error_status e with
  | Some st => if (st =? 422)%Z || (st =? 400)%Z then st else 500%Z
  | None => 500%Z
  end.

(** The provider order id of a request: the stored one, else looked up
    by order number. *)
Definition resolveOrderId (p : Provider) (request : HelpRequestRow)
  : result (option Z) :=
  match shopify_order_id request with
  | Some orderId => Ok (Some orderId)
  | None =>
      match findOrderByName p (order_number request) with
      | Throw e => Throw e
      | Ok None => Ok None
      | Ok (Some order) => Ok (Some (order_id order))
      end
  end.

(** The call into the service: partial when [refundLineItems] is a
    non-empty array, full otherwise. *)
Definition dispatch (p : Provider) (requestId : string) (orderId : Z) (body : RefundBody)
  : result CreateRefund :=
  let defaultNote := ("Refund for help request " ++ requestId)%string in
  let note := match body_note body with Some n => n | None => defaultNote end in
  match refundLineItems body with
  | Some (item :: items) =>
      refundPartialOrder p orderId (item :: items)
        (Some {| restockType := Some (default "no_restock"%string (body_restockType body));
                 note := Some note;
                 manualRefundAmount := manualAmount body |})
  | _ => refundFullOrder p orderId (Some note) (manualAmount body)
  end.

(** [POST /help-requests/:id/shopify/refund]. *)
Definition refund (verify : Verifier) (p : Provider) (shopDomain : string)
    (authorization : option string) (requestId : string) (body : RefundBody)
    (s : state) : reply * state :=
  match requireAuth verify authorization with
  | None => ({| code := 401; refund_created := None |}, s)
  | Some auth =>
      match HelpRequestsRepo.getById requestId s with
      | None => ({| code := 404; refund_created := None |}, s)
      | Some request =>
          match resolveOrderId p request with
          | Throw e => ({| code := error_code e; refund_created := None |}, s)
          | Ok None => ({| code := 404; refund_created := None |}, s)
          | Ok (Some orderId) =>
              match dispatch p requestId orderId body with
              | Throw e => ({| code := error_code e; refund_created := None |}, s)
              | Ok created =>
                  let fields :=
                    {| upd_status := Some completed;
                       upd_admin_notes := None;
                       upd_shopify_order_id := Some orderId;
                       upd_shopify_shop := Some shopDomain |} in
                  match HelpRequestsRepo.update requestId fields (Some (userId auth)) s with
                  | Some (_, s') => ({| code := 200; refund_created := Some created |}, s')
                  | None => ({| code := 500; refund_created := Some created |}, s)
                  end
              end
          end
      end
  end.

End HelpRequestsRoutes.

(** ** The store as a transition system *)

Module Store.

Import Types Database.

(** One statement of a repository function that the store accepted, or
    the passing of time.  The functions are taken as they are exported:
    [create] is not preceded by [hasOpenRequestForOrder] here, so every
    interleaving of concurrent requests is a path of [step]. *)
Inductive step : state → state → Prop :=
| step_advance s t :
    (clock s ≤ t)%Z → step s (advance t s)
| step_create s body new_id row s' :
    HelpRequestsRepo.create body new_id s = Some (row, s') → step s s'
| step_update s k body processedBy r s' :
    HelpRequestsRepo.update k body processedBy s = Some (r, s') → step s s'
| step_createMessage s data new_id m s' :
    ChatRepo.createMessage data new_id s = Some (m, s') → step s s'.

Definition reachable (s : state) : Prop := rtc step Database.empty s.

(** At most one request per order number has an open status. *)
Definition one_open_per_order (s : state) : Prop :=
  ∀ k1 k2 r1 r2,
    help_requests s !! k1 = Some r1 →
    help_requests s !! k2 = Some r2 →
    status r1 ∈ HelpRequestsRepo.OPEN_STATUSES →
    status r2 ∈ HelpRequestsRepo.OPEN_STATUSES →
    order_number r1 = order_number r2 →
    k1 = k2.

(** Nothing is stamped later than [now()], and a message is never older
    than the request it belongs to. *)
Definition timestamps_ordered (s : state) : Prop :=
  (∀ k r, help_requests s !! k = Some r → (created_at r ≤ clock s)%Z)
  ∧ Forall (λ m, (msg_created_at m ≤ clock s)%Z
                 ∧ ∃ r, help_requests s !! request_id m = Some r
                        ∧ (created_at r ≤ msg_created_at m)%Z)
           (chat_messages s).

End Store.

(** ** The properties, in the words of the specification *)

Module Spec.

Import Types Database Shopify.

Local Open Scope Q_scope.

(** An amount to two decimal places. *)
Definition round2 (x : Q) : Q := inject_Z (JS.Math_round (x * 100)) / 100.

(** An amount with at most two decimals. *)
Definition cents (q : Q) : Prop := ∃ k : Z, q == inject_Z k / 100.

(** A line-item id is on the order. *)
Definition on_order (order : ShopifyOrder) (k : Z) : Prop :=
  ∃ li, li ∈ line_items order ∧ li_id li = k.

(** One requested entry clamped to what the order holds: the smaller of
    the requested quantity and the quantity on the order, when the id is
    on the order and that quantity is positive. *)
Definition clamp (ids : gmap Z ShopifyLineItem) (restock : string)
    (r : RefundRequestItem) : option RefundLineItemInput :=
  match ids !! lineItemId r with
  | Some li =>
      let q := Z.min (requested r) (li_quantity li) in
      if (0 <? q)%Z
      then Some {| line_item_id := lineItemId r; quantity := q;
                   restock_type := Some restock |}
      else None
  | None => None
  end.

(** The requested entries after clamping. *)
Definition clamped (order : ShopifyOrder) (restock : string)
    (refundLineItems : list RefundRequestItem) : list RefundLineItemInput :=
  omap (clamp (byId (line_items order)) restock) refundLineItems.

(** The restock instruction [refundPartialOrder] uses. *)
Definition restock_of (options : option PartialOptions) : string :=
  default "no_restock"%string (options ≫= restockType).

(** The most recent of a list of times, if there is one. *)
Fixpoint most_recent (times : list Z) : option Z :=
  match times with
  | [] => None
  | t :: rest =>
      match most_recent rest with
      | Some u => Some (Z.max t u)
      | None => Some t
      end
  end.

(** The creation times of the admin messages of a request. *)
Definition admin_times (requestId : string) (s : state) : list Z :=
  msg_created_at <$>
    filter (λ m, request_id m = requestId ∧ sender m = admin) (chat_messages s).

(** The later of the request's creation time and the most recent admin
    message's creation time. *)
Definition later_of (request_time : Z) (admin_time : option Z) : Z :=
  match admin_time with
  | Some t => Z.max request_time t
  | None => request_time
  end.

(** The customer messages of a request created strictly after [t]. *)
Definition customer_messages_after (requestId : string) (t : Z) (s : state)
  : list ChatMessageRow :=
  filter (λ m, request_id m = requestId ∧ sender m = customer
               ∧ (t < msg_created_at m)%Z)
         (chat_messages s).

(** The caller supplied an email, and it is the request's customer
    email up to case.  An empty [email] parameter counts as not supplied,
    as it does in the routes. *)
Definition email_matches (customerEmail : option string) (request : HelpRequestRow)
  : Prop :=
  ∃ e, customerEmail = Some e ∧ e ≠ EmptyString
       ∧ JS.toLowerCase e = JS.toLowerCase (customer_email request).


(** A creation body for a given order number. *)
Definition createBody (body : HelpRequestCreateBody) (orderNumber : string)
  : HelpRequestCreateBody :=
  {| body_type := body_type body;
     body_customer_email := body_customer_email body;
     body_customer_phone := body_customer_phone body;
     body_customer_name := body_customer_name body;
     body_order_number := orderNumber;
     body_reason := body_reason body |}.

(** A refund body with a given [refundAmount]. *)
Definition with_refundAmount (body : HelpRequestsRoutes.RefundBody)
    (a : HelpRequestsRoutes.RefundAmount) : HelpRequestsRoutes.RefundBody :=
  {| HelpRequestsRoutes.refundLineItems := HelpRequestsRoutes.refundLineItems body;
     HelpRequestsRoutes.body_restockType := HelpRequestsRoutes.body_restockType body;
     HelpRequestsRoutes.body_note := HelpRequestsRoutes.body_note body;
     HelpRequestsRoutes.refundAmount := a |}.

End Spec.

(** ** Concrete inputs *)

Module Fixtures.

Import Types Database Auth Shopify.

Local Open Scope Q_scope.
Local Open Scope string_scope.

Definition tx (a : Q) : Transaction :=
  {| parent_id := 7; amount := a; gateway := "bogus" |}.

(** Five suggested transactions of one cent each. *)
Definition five_cents : list Transaction :=
  [tx (1 # 100); tx (1 # 100); tx (1 # 100); tx (1 # 100); tx (1 # 100)].

(** Three suggested transactions, 100.00 in total. *)
Definition thirds : list Transaction :=
  [tx (3333 # 100); tx (3333 # 100); tx (3334 # 100)].

Definition collar : ShopifyLineItem :=
  {| li_id := 1; li_quantity := 2; li_price := "10.00"; li_title := "Collar" |}.

Definition order1001 : ShopifyOrder :=
  {| order_id := 5001; order_name := "#1001"; currency := "INR";
     line_items := [collar] |}.

Definition suggested : RefundPayload :=
  {| payload_transactions :=
       Some [ {| calc_parent_id := Some 7%Z; calc_amount := Some (20 # 1);
                 calc_gateway := Some "bogus";
                 calc_kind := Some "suggested_refund" |} ];
     payload_note := None;
     payload_rest := [("currency", "INR")] |}.

(** A provider that knows one order and accepts every call. *)
Definition shop : Provider :=
  {| orders_by_name := λ _, ResOk (Some [order1001]);
     orders_get := λ _, ResOk order1001;
     orders_cancel := λ _ _, ResOk ();
     refunds_calculate := λ _ _, ResOk (Some suggested);
     refunds_create := λ _ _, ResOk () |}.

(** A verifier that accepts the single token ["t0k"]. *)
Definition verify : Verifier :=
  λ token,
    if bool_decide (token = "t0k")
    then Some {| decoded_userId := "admin-1"; decoded_email := "ops@example.com";
                 decoded_type := Some "access" |}
    else None.

Definition request (t0 : Z) : HelpRequestRow :=
  {| id := "r1"; type := refund; status := pending;
     customer_email := "Ann@Example.com"; customer_phone := None;
     customer_name := "Ann"; order_number := "1001"; reason := None;
     shopify_order_id := None; shopify_shop := None; processed_at := None;
     processed_by := None; admin_notes := None;
     created_at := t0; updated_at := t0 |}.

Definition message (k : string) (who : Sender) (t : Z) : ChatMessageRow :=
  {| msg_id := k; request_id := "r1"; sender := who; sender_id := None;
     body := Some "hello"; attachment_blob_url := None;
     attachment_blob_path := None; attachment_file_name := None;
     attachment_content_type := None; msg_created_at := t |}.

(** A request created at [t0] with an admin message at [t1] and customer
    messages at [t2] and [t3]. *)
Definition thread (t0 t1 t2 t3 : Z) : state :=
  {| clock := Z.max (Z.max t0 t1) (Z.max t2 t3);
     help_requests := {[ "r1" := request t0 ]};
     chat_messages := [message "m2" customer t2; message "m1" admin t1;
                       message "m3" customer t3] |}.

Definition createBody (orderNumber : string) : HelpRequestCreateBody :=
  {| body_type := refund; body_customer_email := "ann@example.com";
     body_customer_phone := None; body_customer_name := "Ann";
     body_order_number := orderNumber; body_reason := None |}.

(** The row stored for a request for order ["#1001"] made at time 0. *)
Definition stored : HelpRequestRow :=
  {| id := "r1"; type := refund; status := pending;
     customer_email := "ann@example.com"; customer_phone := None;
     customer_name := "Ann"; order_number := "1001"; reason := None;
     shopify_order_id := None; shopify_shop := None; processed_at := None;
     processed_by := None; admin_notes := None;
     created_at := 0; updated_at := 0 |}.

(** The store after one request for order ["#1001"] was created. *)
Definition opened : state :=
  match HelpRequestsRepo.create (createBody "#1001") "r1" Database.empty with
  | Some (_, s) => s
  | None => Database.empty
  end.

Definition post (who : Sender) (k : string) (s : state) : state :=
  let data :=
    {| ChatRepo.new_request_id := "r1"; ChatRepo.new_sender := who;
       ChatRepo.new_sender_id := None; ChatRepo.new_body := Some "hello";
       ChatRepo.new_attachment_blob_url := None;
       ChatRepo.new_attachment_blob_path := None;
       ChatRepo.new_attachment_file_name := None;
       ChatRepo.new_attachment_content_type := None |} in
  match ChatRepo.createMessage data k s with
  | Some (_, s') => s'
  | None => s
  end.

(** The customer writes at 10, the admin answers at 20, the customer
    writes again at 30. *)
Definition conversation : state :=
  post customer "m3" (advance 30
    (post admin "m1" (advance 20
      (post customer "m2" (advance 10 opened))))).

(** A call of a chat endpoint on request ["r1"] with the text
    ["hello"]. *)
Definition chatRequest (m : ChatRoutes.Method) (authorization email : option string)
  : ChatRoutes.Request :=
  {| ChatRoutes.method := m;
     ChatRoutes.authorization := authorization;
     ChatRoutes.query_token := None;
     ChatRoutes.query_email := email;
     ChatRoutes.requestId := "r1";
     ChatRoutes.json :=
       {| ChatRoutes.post_body := Some "hello";
          ChatRoutes.post_attachment_blob_url := None;
          ChatRoutes.post_attachment_blob_path := None;
          ChatRoutes.post_attachment_file_name := None;
          ChatRoutes.post_attachment_content_type := None |} |}.

(** A full-refund body with a given [refundAmount]. *)
Definition refundBody (a : HelpRequestsRoutes.RefundAmount) : HelpRequestsRoutes.RefundBody :=
  {| HelpRequestsRoutes.refundLineItems := None;
     HelpRequestsRoutes.body_restockType := None;
     HelpRequestsRoutes.body_note := None;
     HelpRequestsRoutes.refundAmount := a |}.

End Fixtures.

(** ** Further notions and inputs *)

Module Lifecycle.

Import Types Database.

(** An update that completes or rejects. *)
Definition closing (body : HelpRequestUpdateBody) : Prop :=
  upd_status body = Some completed ∨ upd_status body = Some rejected.

(** An update of the status only. *)
Definition set_status (st : HelpRequestStatus) : HelpRequestUpdateBody :=
  {| upd_status := Some st; upd_admin_notes := None;
     upd_shopify_order_id := None; upd_shopify_shop := None |}.

(** The state after a repository call, the state before when the call
    was refused. *)
Definition after {A} (call : state → option (A * state)) (s : state) : state :=
  match call s with
  | Some (_, s') => s'
  | None => s
  end.

(** The request for order 1001 was completed and a second one, ["r2"],
    was made for the same order. *)
Definition second_request : state :=
  after (HelpRequestsRepo.create (Fixtures.createBody "1001") "r2")
    (after (HelpRequestsRepo.update "r1" (set_status completed) (Some "admin-1"%string))
       Fixtures.opened).

End Lifecycle.

(** ** [routes/helpRequests.ts]: the other admin endpoints *)

Module AdminRoutes.

Import Types Database Auth Shopify.

(** An answer: the status code and the [request] member of the body. *)
Record reply := {
  code : Z;
  request : option HelpRequestRow
}.

Definition failed (c : Z) : reply := {| code := c; request := None |}.

(** [updated ?? request]. *)
Definition answered (updated : option HelpRequestRow) (request : HelpRequestRow)
  : reply :=
  {| code := 200;
     request := Some (match updated with Some u => u | None => request end) |}.


(** [POST /help-requests/:id/shopify/lookup]: every failure is a 500. *)
Definition lookup (verify : Verifier) (p : Provider) (shopDomain : string)
    (authorization : option string) (requestId : string) (s : state) : reply * state :=
  match requireAuth verify authorization with
  | None => (failed 401, s)
  | Some auth =>
      match HelpRequestsRepo.getById requestId s with
      | None => (failed 404, s)
      | Some request =>
          match findOrderByName p (order_number request) with
          | Throw _ => (failed 500, s)
          | Ok None => (failed 404, s)
          | Ok (Some order) =>
              let fields :=
                {| upd_status := None; upd_admin_notes := None;
                   upd_shopify_order_id := Some (order_id order);
                   upd_shopify_shop := Some shopDomain |} in
              match HelpRequestsRepo.update requestId fields (Some (userId auth)) s with
              | Some (updated, s') => (answered updated request, s')
              | None => (failed 500, s)
              end
          end
      end
  end.

(** The status sent for an error of the cancel endpoint: only 422 is
    passed through. *)
Definition cancel_code (e : error) : Z :=
  match error_status e with
  | Some st => if (st =? 422)%Z then 422%Z else 500%Z
  | None => 500%Z
  end.

(** [POST /help-requests/:id/shopify/cancel]. *)
Definition cancel (verify : Verifier) (p : Provider) (shopDomain : string)
    (authorization : option string) (requestId : string) (s : state) : reply * state :=
  match requireAuth verify authorization with
  | None => (failed 401, s)
  | Some auth =>
      match HelpRequestsRepo.getById requestId s with
      | None => (failed 404, s)
      | Some request =>
          match HelpRequestsRoutes.resolveOrderId p request with
          | Throw e => (failed (cancel_code e), s)
          | Ok None => (failed 404, s)
          | Ok (Some orderId) =>
              match cancelOrder p orderId None with
              | Throw e => (failed (cancel_code e), s)
              | Ok _ =>
                  let fields :=
                    {| upd_status := Some completed; upd_admin_notes := None;
                       upd_shopify_order_id := Some orderId;
                       upd_shopify_shop := Some shopDomain |} in
                  match HelpRequestsRepo.update requestId fields (Some (userId auth)) s with
                  | Some (updated, s') => (answered updated request, s')
                  | None => (failed 500, s)
                  end
              end
          end
      end
  end.

End AdminRoutes.

(** ** [routes/chat.ts]: the live feed *)

Module ChatStream.

Import Types Database ChatRepo Auth ChatRoutes.

(** What [GET /chat/:requestId/stream] does before it streams. *)
Inductive opening :=
| Opened
| Refused (code : Z).

Definition openStream (verify : Verifier) (req : Request) (s : state) : opening :=
  match HelpRequestsRepo.getById (requestId req) s with
  | None => Refused 404
  | Some request =>
      let user := optional_auth verify req in
      let no_email :=
        match query_email req with
        | Some e => negb (JS.truthy e) || negb (same_email e request)
        | None => true
        end in
      if negb (bool_decide (is_Some user)) && no_email then Refused 401 else Opened
  end.

(** [a > b] on strings: code units compared in order. *)
Definition string_gt (a b : string) : bool :=
  match String.compare a b with
  | Gt => true
  | _ => false
  end.

(** [messages.slice(-1)]. *)
Definition slice_last {A} (l : list A) : list A :=
  match last l with
  | Some x => [x]
  | None => []
  end.

(** The messages one poll writes: the last one while nothing was written
    yet, afterwards those other than the last written one whose creation
    time is after the time of the poll. *)
Definition newMessages (lastMessageId : option string) (now : Z)
    (messages : list ChatMessageRow) : list ChatMessageRow :=
  match lastMessageId with
  | Some l =>
      if JS.truthy l
      then filter (λ m, msg_id m ≠ l ∧ (now < msg_created_at m)%Z) messages
      else slice_last messages
  | None => slice_last messages
  end.

(** The update of [lastMessageId] after one message was written. *)
Definition remember (lastMessageId : option string) (msg : ChatMessageRow)
  : option string :=
  match lastMessageId with
  | Some l =>
      if negb (JS.truthy l) || string_gt (msg_id msg) l
      then Some (msg_id msg)
      else Some l
  | None => Some (msg_id msg)
  end.

(** One run of the interval callback at time [now] on the messages
    fetched: what is written and the new [lastMessageId]. *)
Definition poll (lastMessageId : option string) (now : Z)
    (messages : list ChatMessageRow) : list ChatMessageRow * option string :=
  let new := newMessages lastMessageId now messages in
  (new, foldl remember lastMessageId new).

(** Everything a stream writes when its polls find the store in the
    states [ss], one after the other; the time of a poll is the time of
    the store. *)
Fixpoint run (requestId : string) (lastMessageId : option string) (ss : list state)
  : list ChatMessageRow :=
  match ss with
  | [] => []
  | s :: rest =>
      let '(new, last') :=
        poll lastMessageId (clock s) (getMessagesByRequestId requestId s) in
      new ++ run requestId last' rest
  end.

End ChatStream.

(** ** [services/azureBlob.ts]: paths and URLs *)

Module AzureBlob.

Local Open Scope string_scope.

(** The characters [a-zA-Z0-9._-]. *)
Definition allowed (c : ascii) : bool :=
  let n := nat_of_ascii c in
  ((97 <=? n) && (n <=? 122))%nat || ((65 <=? n) && (n <=? 90))%nat
  || ((48 <=? n) && (n <=? 57))%nat
  || (n =? 46)%nat || (n =? 95)%nat || (n =? 45)%nat.

(** [fileName.replace(/[^a-zA-Z0-9._-]/g, '_')]. *)
Fixpoint sanitize (fileName : string) : string :=
  match fileName with
  | EmptyString => EmptyString
  | String c rest => String (if allowed c then c else "_"%char) (sanitize rest)
  end.

(** [buildBlobPath]; [now] is [Date.now()]. *)
Definition buildBlobPath (now : N) (prefix requestId fileName : string) : string :=
  let sanitized := sanitize fileName in
  let unique := pretty now ++ "-" ++ sanitized in
  prefix ++ "/" ++ requestId ++ "/" ++ unique.

(** [getBlobUrl] for a storage account and a container. *)
Definition getBlobUrl (storageAccountName containerName blobPath : string) : string :=
  let base := "https://" ++ storageAccountName ++ ".blob.core.windows.net/"
              ++ containerName in
  let path :=
    match blobPath with
    | String "/"%char rest => rest
    | _ => blobPath
    end in
  base ++ "/" ++ path.

End AzureBlob.

(** ** [routes/auth.ts] and [repositories/auth.ts] *)

Module AuthRoutes.

Import Auth.

Local Open Scope N_scope.

Definition is_digit (c : ascii) : bool :=
  let n := nat_of_ascii c in ((48 <=? n) && (n <=? 57))%nat.

Definition digit (c : ascii) : N := N.of_nat (nat_of_ascii c - 48).

(** The match of [/^(\d+)(d|h|m)$/] on what is left of the string, [num]
    being the value of the digits read so far, if any: the number and
    the unit letter. *)
Fixpoint number_and_unit (s : string) (num : option N) : option (N * ascii) :=
  match s with
  | EmptyString => None
  | String c EmptyString =>
      match num with
      | Some n =>
          if bool_decide (c = "d"%char ∨ c = "h"%char ∨ c = "m"%char)
          then Some (n, c) else None
      | None => None
      end
  | String c rest =>
      if is_digit c
      then number_and_unit rest (Some (10 * default 0 num + digit c))
      else None
  end.

Definition thirty_days : N := 30 * 24 * 60 * 60 * 1000.

(** [parseExpiresIn]: milliseconds.  [parseInt] and the products are
    exact integers here; the doubles of the code are the same numbers as
    long as the result is at most [2^53]. *)
Definition parseExpiresIn (s : string) : N :=
  match number_and_unit s None with
  | None => thirty_days
  | Some (num, unit) =>
      if bool_decide (unit = "d"%char) then num * 24 * 60 * 60 * 1000
      else if bool_decide (unit = "h"%char) then num * 60 * 60 * 1000
      else if bool_decide (unit = "m"%char) then num * 60 * 1000
      else num * 24 * 60 * 60 * 1000
  end.

Local Open Scope Z_scope.

(** Rows of [admin_users] and [refresh_tokens]. *)
Record AdminUserRow := {
  admin_id : string;
  admin_email : string;
  password_hash : string;
  admin_name : option string;
  is_active : bool
}.

Record RefreshTokenRow := {
  token_id : string;
  user_id : string;
  token_hash : string;
  expires_at : Z;
  revoked_at : option Z
}.

Record state := {
  clock : Z;
  admin_users : list AdminUserRow;
  refresh_tokens : list RefreshTokenRow
}.

(** The functions of [bcrypt], [crypto] and [jsonwebtoken] the routes
    call; a token is signed at a time. *)
Record Crypto := {
  compare : string → string → bool;
  sha256 : string → string;
  sign : Z → AuthPayload → string
}.

Definition findAdminByEmail (email : string) (s : state) : option AdminUserRow :=
  head (filter (λ u, admin_email u = JS.toLowerCase (JS.trim email)
                     ∧ is_active u = true)
               (admin_users s)).

(** [INSERT INTO refresh_tokens]: the primary key is new, the user
    exists, and [idx_refresh_tokens_token_hash] holds no other hash equal
    to this one among the tokens that are not revoked. *)
Definition createRefreshToken (userId tokenHash : string) (expiresAt : Z)
    (new_id : string) (s : state) : option state :=
  if bool_decide (Exists (λ t, token_id t = new_id) (refresh_tokens s)) then None
  else if negb (bool_decide (Exists (λ u, admin_id u = userId) (admin_users s)))
  then None
  else if bool_decide (Exists (λ t, token_hash t = tokenHash ∧ revoked_at t = None)
                              (refresh_tokens s))
  then None
  else
    Some {| clock := clock s;
            admin_users := admin_users s;
            refresh_tokens :=
              refresh_tokens s
              ++ [ {| token_id := new_id; user_id := userId; token_hash := tokenHash;
                      expires_at := expiresAt; revoked_at := None |} ] |}.

(** [findRefreshToken]: the first row of the join of the live tokens of
    that hash with their users. *)
Definition findRefreshToken (tokenHash : string) (s : state)
  : option (string * string) :=
  head (t ← filter (λ t, token_hash t = tokenHash ∧ revoked_at t = None
                         ∧ clock s < expires_at t)
                   (refresh_tokens s);
        u ← filter (λ u, admin_id u = user_id t) (admin_users s);
        [(user_id t, admin_email u)]).

(** [revokeRefreshToken]: every token of that hash is stamped. *)
Definition revokeRefreshToken (tokenHash : string) (s : state) : state :=
  {| clock := clock s;
     admin_users := admin_users s;
     refresh_tokens :=
       map (λ t, if bool_decide (token_hash t = tokenHash)
                 then {| token_id := token_id t; user_id := user_id t;
                         token_hash := token_hash t; expires_at := expires_at t;
                         revoked_at := Some (clock s) |}
                 else t)
           (refresh_tokens s) |}.

Inductive reply :=
| LoggedIn (access_token refresh_token : string) (user : AdminUserRow)
| Refreshed (access_token : string)
| LoggedOut
| BadRequest
| Unauthorized
| Failed.

(** [POST /auth/login]; [random] is the hexadecimal text of
    [crypto.randomBytes(32)], [new_id] the identifier of the token row,
    [refreshExpiresMs] the parsed [JWT_REFRESH_EXPIRES_IN]. *)
Definition login (c : Crypto) (refreshExpiresMs : Z) (email password : option string)
    (random new_id : string) (s : state) : reply * state :=
  match email, password with
  | Some email, Some password =>
      if negb (JS.truthy (JS.trim email)) || negb (JS.truthy password)
      then (BadRequest, s)
      else
        match findAdminByEmail email s with
        | None => (Unauthorized, s)
        | Some user =>
            if negb (compare c password (password_hash user)) then (Unauthorized, s)
            else
              let accessToken :=
                sign c (clock s) {| userId := admin_id user; email := admin_email user |} in
              match createRefreshToken (admin_id user) (sha256 c random)
                      (clock s + refreshExpiresMs) new_id s with
              | Some s' => (LoggedIn accessToken random user, s')
              | None => (Failed, s)
              end
        end
  | _, _ => (BadRequest, s)
  end.

(** [POST /auth/refresh]. *)
Definition refresh (c : Crypto) (refresh_token : option string) (s : state) : reply :=
  match refresh_token with
  | Some token =>
      if negb (JS.truthy token) then BadRequest
      else
        match findRefreshToken (sha256 c token) s with
        | None => Unauthorized
        | Some (uid, mail) =>
            Refreshed (sign c (clock s) {| userId := uid; email := mail |})
        end
  | None => BadRequest
  end.

(** [POST /auth/logout]. *)
Definition logout (c : Crypto) (refresh_token : option string) (s : state)
  : reply * state :=
  match refresh_token with
  | Some token =>
      if JS.truthy token then (LoggedOut, revokeRefreshToken (sha256 c token) s)
      else (LoggedOut, s)
  | None => (LoggedOut, s)
  end.

(** Time passes. *)
Definition advance (t : Z) (s : state) : state :=
  {| clock := t; admin_users := admin_users s; refresh_tokens := refresh_tokens s |}.

(** Two admins never share an identifier, and two live tokens never
    share a hash: the primary key of [admin_users] and the unique index
    of [refresh_tokens]. *)
Definition keys_unique (s : state) : Prop :=
  NoDup (admin_id <$> admin_users s)
  ∧ NoDup (token_hash <$> filter (λ t, revoked_at t = None) (refresh_tokens s)).

(** A crypto that hashes by prefixing, for examples. *)
Definition toy : Crypto :=
  {| compare := λ plain hash, bool_decide (hash = ("h:" ++ plain)%string);
     sha256 := λ token, ("s:" ++ token)%string;
     sign := λ t payload, ("jwt:" ++ userId payload)%string |}.

Definition ops : AdminUserRow :=
  {| admin_id := "admin-1"; admin_email := "ops@example.com";
     password_hash := "h:secret"; admin_name := None; is_active := true |}.

Definition one_admin : state :=
  {| clock := 0; admin_users := [ops]; refresh_tokens := [] |}.

End AuthRoutes.

(** ** Notions for paths and durations *)

Module Text.

Local Open Scope string_scope.

(** Every character of a string satisfies a test. *)
Fixpoint all (test : ascii → bool) (s : string) : bool :=
  match s with
  | EmptyString => true
  | String c rest => test c && all test rest
  end.

(** The decimal value of a string of digits read after [num]. *)
Fixpoint decimal (num : N) (digits : string) : N :=
  match digits with
  | EmptyString => num
  | String c rest => decimal (10 * num + AuthRoutes.digit c) rest
  end.

(** The unit letters of a duration. *)
Definition is_unit (c : ascii) : bool :=
  bool_decide (c = "d"%char ∨ c = "h"%char ∨ c = "m"%char).

(** The milliseconds of a unit. *)
Definition unit_ms (c : ascii) : N :=
  if bool_decide (c = "h"%char) then 3600000
  else if bool_decide (c = "m"%char) then 60000
  else 86400000.

(** A duration string: one digit or more, then a unit letter. *)
Definition duration (s : string) : Prop :=
  ∃ digits unit, s = digits ++ String unit "" ∧ digits ≠ ""
                 ∧ all AuthRoutes.is_digit digits = true ∧ is_unit unit = true.

End Text.

(** ** Binary64 arithmetic *)

(** The arithmetic of JavaScript numbers.  A finite number is the
    rational it denotes, and [x + y], [x - y], [x * y] and [x / y] are
    the exact result rounded to the nearest binary64 value, a tie going
    to the even significand (IEEE 754, round to nearest even; 53 bits of
    significand, least exponent -1074).  What is not modelled: results
    beyond the largest finite double, which are [Infinity] in the code
    and an ordinary rounded rational here, and [NaN]. *)

Module Binary64.

Local Open Scope Q_scope.

Definition pow2 (e : Z) : Q := 2 ^ e.

(** The integer part of the binary logarithm of a positive rational: the
    difference of the bit lengths of numerator and denominator, less one
    when that overshoots. *)
Definition ilog2 (a : Q) : Z :=
  let l := (Z.log2 (Qnum a) - Z.log2 (Zpos (Qden a)))%Z in
  if Qle_bool (pow2 l) a then l else (l - 1)%Z.

(** The nearest integer, the even one on a tie. *)
Definition nearest_even (r : Q) : Z :=
  let f := Qfloor r in
  match Qcompare (r - inject_Z f) (1 # 2) with
  | Lt => f
  | Gt => (f + 1)%Z
  | Eq => if Z.even f then f else (f + 1)%Z
  end.

(** The exponent of the last of the 53 bits of the significand of a
    positive number; -1074 throughout the subnormal range. *)
Definition ulp_exponent (a : Q) : Z := Z.max (ilog2 a - 52) (-1074).

(** A positive number rounded to a multiple of its last place. *)
Definition round_pos (a : Q) : Q :=
  let e := ulp_exponent a in
  inject_Z (nearest_even (a / pow2 e)) * pow2 e.

(** Rounding to binary64; the sign is rounded apart, so that the result
    depends on the value of [x] only. *)
Definition round (x : Q) : Q :=
  let x := Qred x in
  match Qnum x with
  | Z0 => 0
  | Zpos _ => round_pos x
  | Zneg _ => - round_pos (- x)
  end.

(** The relative error of one rounding, [2^-53], and a bound on its
    absolute error in the subnormal range ([2^-1075] is smaller). *)
Definition unit_roundoff : Q := 1 # 9007199254740992.
Definition tiny : Q := 1 # 10000000000000000000000000000000000000000.

(** [x + y], [x - y], [x * y] and [x / y] on numbers. *)
Definition add (x y : Q) : Q := round (x + y).
Definition sub (x y : Q) : Q := round (x - y).
Definition mul (x y : Q) : Q := round (x * y).
Definition div (x y : Q) : Q := round (x / y).

End Binary64.

(** ** [services/shopify.ts]: the reconciliation in binary64 *)

(** The block of [executeRefund] that adjusts the transactions to a
    manual amount, as [Shopify.reconcile] has it, with the arithmetic of
    the code: [parseFloat] rounds the decimal of an amount string to a
    double and every operation rounds its result.  [Math.round],
    [Math.abs], [Math.max], the comparisons and [toFixed(2)] are exact
    functions of the value of their argument.  The literals [100] and [0]
    are doubles; [0.001] is rounded. *)

Module Refund64.

Import Shopify.

Local Open Scope Q_scope.

(** [parseFloat(t.amount)]. *)
Definition parseFloat (amount : Q) : Q := Binary64.round amount.

(** [ts.reduce((sum, t) => sum + parseFloat(t.amount), 0)]. *)
Definition total (ts : list Transaction) : Q :=
  fold_left (λ sum t, Binary64.add sum (parseFloat (amount t))) ts 0.

(** [manualRefundAmount / suggestedTotal]. *)
Definition scale (manualRefundAmount : Q) (transactions : list Transaction) : Q :=
  Binary64.div manualRefundAmount (total transactions).

(** [Math.round(amt * 100)] for [amt = parseFloat(t.amount) * scale]. *)
Definition scaled_cents (scale : Q) (t : Transaction) : Z :=
  let amt := Binary64.mul (parseFloat (amount t)) scale in
  JS.Math_round (Binary64.mul amt 100).

(** The callback of [transactions.map]: the cents over 100, printed with
    two decimals. *)
Definition scaled_one (scale : Q) (t : Transaction) : Transaction :=
  let rounded := Binary64.div (inject_Z (scaled_cents scale t)) 100 in
  with_amount t (JS.toFixed2 rounded).

Definition scaled (manualRefundAmount : Q) (transactions : list Transaction)
  : list Transaction :=
  map (scaled_one (scale manualRefundAmount transactions)) transactions.

(** [Math.round((manualRefundAmount - newTotal) * 100)]. *)
Definition diff_cents (manualRefundAmount : Q) (transactions : list Transaction) : Z :=
  let newTotal := total (scaled manualRefundAmount transactions) in
  JS.Math_round (Binary64.mul (Binary64.sub manualRefundAmount newTotal) 100).

(** The residual [diff]. *)
Definition diff (manualRefundAmount : Q) (transactions : list Transaction) : Q :=
  Binary64.div (inject_Z (diff_cents manualRefundAmount transactions)) 100.

(** [first = parseFloat(scaled[0].amount) + diff]. *)
Definition first (manualRefundAmount : Q) (transactions : list Transaction) : Q :=
  match scaled manualRefundAmount transactions with
  | s0 :: _ => Binary64.add (parseFloat (amount s0)) (diff manualRefundAmount transactions)
  | [] => 0
  end.

(** The transactions that are sent. *)
Definition reconcile (manualRefundAmount : option Q) (transactions : list Transaction)
  : list Transaction :=
  match manualRefundAmount with
  | Some m =>
      if JS.gt m 0 && (0 <? length transactions)%nat then
        let suggestedTotal := total transactions in
        if JS.gt suggestedTotal 0
           && JS.gt (JS.Math_abs (Binary64.sub m suggestedTotal)) (Binary64.round (1 # 1000))
        then
          let d := diff m transactions in
          match scaled m transactions with
          | s0 :: rest =>
              if negb (Qeq_bool d 0)
              then with_amount s0
                     (JS.toFixed2 (JS.Math_max 0 (first m transactions))) :: rest
              else s0 :: rest
          | [] => []
          end
        else transactions
      else transactions
  | None => transactions
  end.

End Refund64.

(** ** Identifiers *)

(** [id], [request_id] and [processed_by] are [UUID] columns, and the
    [userId] of a token is the [id] of an admin.  A text that is not a
    UUID makes a query throw, which the store of this model, keyed by
    strings, does not show; properties that depend on it are stated for
    identifiers in the canonical form, 8-4-4-4-12 hexadecimal digits. *)

Module Uuids.

Import Types Database Auth.






Definition request_id : string := "3f2b8c1e-5d4a-4b6f-9e7a-1c2d3e4f5a6b".
Definition unknown_id : string := "7c9e6679-7425-40de-944b-e07fc1f90ae7".
Definition admin_id : string := "0b0e7c52-6f1d-4c3a-8f2e-9d5a4b3c2d1e".

(** A verifier that accepts the single token ["t0k"], of the admin
    [admin_id]. *)
Definition verify : Verifier :=
  λ token,
    if bool_decide (token = "t0k"%string)
    then Some {| decoded_userId := admin_id; decoded_email := "ops@example.com";
                 decoded_type := Some "access"%string |}
    else None.

(** The store after one request for order ["#1001"] was created. *)
Definition opened : state :=
  Lifecycle.after (HelpRequestsRepo.create (Fixtures.createBody "#1001") request_id)
    Database.empty.

(** The row [create] writes at time 0 for the customer of [createBody]. *)
Definition row (k orderNumber : string) : HelpRequestRow :=
  {| id := k; type := refund; status := pending;
     customer_email := "ann@example.com"; customer_phone := None;
     customer_name := "Ann"; order_number := orderNumber; reason := None;
     shopify_order_id := None; shopify_shop := None; processed_at := None;
     processed_by := None; admin_notes := None;
     created_at := 0; updated_at := 0 |}.

(** The row of the request of [opened]. *)
Definition stored : HelpRequestRow := row request_id "1001".

(** A provider that refuses every refund calculation with status 422. *)
Definition refusing : Shopify.Provider :=
  {| Shopify.orders_by_name := λ _, Shopify.ResOk (Some [Fixtures.order1001]);
     Shopify.orders_get := λ _, Shopify.ResOk Fixtures.order1001;
     Shopify.orders_cancel := λ _ _, Shopify.ResFail 422 "cannot cancel";
     Shopify.refunds_calculate := λ _ _, Shopify.ResFail 422 "cannot refund";
     Shopify.refunds_create := λ _ _, Shopify.ResOk () |}.

End Uuids.

(** * Properties *)

(** ** Rounding to cents *)

Section Rounding.

Local Open Scope Q_scope.

Lemma Qfloor_unique (n : Z) (x : Q) :
  inject_Z n <= x → x < inject_Z (n + 1) → Qfloor x = n.
Proof.
  intros Hlo Hhi.
  pose proof (Qfloor_le x) as H1. pose proof (Qlt_floor x) as H2.
  assert (inject_Z (Qfloor x) < inject_Z (n + 1)) as H3 by (eapply Qle_lt_trans; eauto).
  assert (inject_Z n < inject_Z (Qfloor x + 1)) as H4 by (eapply Qle_lt_trans; eauto).
  rewrite <- Zlt_Qlt in H3, H4. lia.
Qed.

End Rounding.

(** ** Refund reconciliation *)

Section Reconciliation.

Import Shopify Spec.

Local Open Scope Q_scope.

Lemma total_from (ts : list Transaction) (a : Q) :
  fold_left (λ sum t, sum + amount t) ts a == a + total ts.
Proof.
  unfold total. revert a.
  induction ts as [|t ts IH]; intros a; simpl.
  - lra.
  - rewrite IH, (IH (0 + amount t)). lra.
Qed.

Lemma total_cons (t : Transaction) (ts : list Transaction) :
  total (t :: ts) == amount t + total ts.
Proof. unfold total at 1. simpl. rewrite total_from. lra. Qed.

Lemma total_cents (ts : list Transaction) :
  Forall (λ t, cents (amount t)) ts → cents (total ts).
Proof.
  induction 1 as [|t ts [k Hk] _ [K HK]].
  - exists 0%Z. unfold total. simpl. reflexivity.
  - exists (k + K)%Z. rewrite total_cons, Hk, HK, inject_Z_plus. field.
Qed.



End Reconciliation.

(** ** Partial refunds *)

Section PartialRefund.

Import Shopify Spec.

Implicit Types (lis : list ShopifyLineItem) (ids : gmap Z ShopifyLineItem).
Implicit Types (reqs : list RefundRequestItem) (items : list RefundLineItemInput).

Lemma byId_from_keeps lis ids (k : Z) :
  is_Some (ids !! k) →
  is_Some (fold_left (λ m li, <[li_id li := li]> m) lis ids !! k).
Proof.
  revert ids. induction lis as [|li lis IH]; intros ids Hk; simpl; [done|].
  apply IH. destruct (decide (li_id li = k)) as [->|Hne].
  - rewrite lookup_insert_eq. eauto.
  - by rewrite lookup_insert_ne.
Qed.

Lemma byId_from_None lis ids (k : Z) :
  fold_left (λ m li, <[li_id li := li]> m) lis ids !! k = None →
  ∀ li, li ∈ lis → li_id li ≠ k.
Proof.
  revert ids. induction lis as [|li0 lis IH]; intros ids Hnone li Hin.
  - by apply elem_of_nil in Hin.
  - simpl in Hnone. apply elem_of_cons in Hin as [->|Hin]; [|by eapply IH].
    intros Heq.
    destruct (byId_from_keeps lis (<[li_id li0 := li0]> ids) k) as [x Hx].
    + rewrite Heq, lookup_insert_eq. eauto.
    + congruence.
Qed.

Lemma byId_from_Some lis ids (k : Z) (li : ShopifyLineItem) :
  fold_left (λ m li, <[li_id li := li]> m) lis ids !! k = Some li →
  (li ∈ lis ∧ li_id li = k) ∨ ids !! k = Some li.
Proof.
  revert ids. induction lis as [|li0 lis IH]; intros ids Hsome; simpl in *.
  - by right.
  - destruct (IH _ Hsome) as [[Hin Hid]|Hins].
    + left. split; [by apply elem_of_cons; right | done].
    + destruct (decide (li_id li0 = k)) as [Heq|Hne].
      * rewrite <- Heq, lookup_insert_eq in Hins. injection Hins as <-.
        left. split; [apply elem_of_cons; by left | done].
      * rewrite lookup_insert_ne in Hins by done. by right.
Qed.

(** The map built by [refundPartialOrder] knows exactly the ids on the
    order. *)
Lemma byId_None (order : ShopifyOrder) (k : Z) :
  byId (line_items order) !! k = None ↔ ¬ on_order order k.
Proof.
  unfold byId, on_order. split.
  - intros Hnone [li [Hin Hid]]. by eapply byId_from_None.
  - intros Hnot.
    destruct (fold_left _ _ _ !! k) as [li|] eqn:Hk; [|done].
    apply byId_from_Some in Hk as [[Hin Hid]|Hempty]; [|by rewrite lookup_empty in Hempty].
    exfalso. apply Hnot. eauto.
Qed.

Lemma byId_Some (order : ShopifyOrder) (k : Z) (li : ShopifyLineItem) :
  byId (line_items order) !! k = Some li → li ∈ line_items order ∧ li_id li = k.
Proof.
  unfold byId. intros Hk.
  apply byId_from_Some in Hk as [?|Hempty]; [done|by rewrite lookup_empty in Hempty].
Qed.

(** The loop stops at the first entry with a positive quantity and an
    unknown id. *)
Lemma collect_unknown ids restock reqs items (r : RefundRequestItem) :
  r ∈ reqs → (0 < requested r)%Z → ids !! lineItemId r = None →
  ∃ k, collect ids restock reqs items = Throw (LineItemNotFound k) ∧ ids !! k = None.
Proof.
  revert items. induction reqs as [|r0 reqs IH]; intros items Hin Hpos Hnone.
  - by apply elem_of_nil in Hin.
  - simpl. destruct (requested r0 <=? 0)%Z eqn:Hr0.
    + apply elem_of_cons in Hin as [->|Hin]; [lia|]. by apply IH.
    + destruct (ids !! lineItemId r0) as [li|] eqn:Hli; [|eauto].
      apply elem_of_cons in Hin as [->|Hin]; [congruence|].
      destruct (0 <? _)%Z; by apply IH.
Qed.

(** Without such an entry the loop ends with the clamped entries. *)
Lemma collect_known ids restock reqs items :
  (∀ r, r ∈ reqs → (0 < requested r)%Z → is_Some (ids !! lineItemId r)) →
  collect ids restock reqs items = Ok (items ++ omap (clamp ids restock) reqs).
Proof.
  revert items. induction reqs as [|r0 reqs IH]; intros items Hknown; simpl.
  - by rewrite app_nil_r.
  - assert (∀ r, r ∈ reqs → (0 < requested r)%Z → is_Some (ids !! lineItemId r)) as Hrest.
    { intros r Hr. apply Hknown, elem_of_cons. by right. }
    unfold clamp at 1.
    destruct (requested r0 <=? 0)%Z eqn:Hr0.
    + rewrite IH by done.
      destruct (ids !! lineItemId r0) as [li|]; [|done].
      cbv zeta. assert ((0 <? Z.min (requested r0) (li_quantity li))%Z = false) as ->; [lia|done].
    + destruct (Hknown r0) as [li Hli]; [apply elem_of_cons; by left | lia |].
      rewrite Hli. cbv zeta.
      destruct (0 <? _)%Z; rewrite IH by done; [|done].
      by rewrite <- app_assoc.
Qed.

Lemma collect_Ok ids restock reqs items out :
  collect ids restock reqs items = Ok out →
  out = items ++ omap (clamp ids restock) reqs.
Proof.
  intros Hok.
  destruct (decide (Forall (λ r, (0 < requested r)%Z → is_Some (ids !! lineItemId r)) reqs))
    as [Hall|Hnot].
  - rewrite Forall_forall in Hall. rewrite collect_known in Hok by done. congruence.
  - apply not_Forall_Exists in Hnot; [|apply _].
    apply Exists_exists in Hnot as [r [Hin Hr]].
    destruct (decide (0 < requested r)%Z) as [Hpos|Hneg]; [|by destruct Hr].
    destruct (ids !! lineItemId r) as [li|] eqn:Hli; [destruct Hr; eauto|].
    destruct (collect_unknown ids restock reqs items r Hin Hpos Hli) as [k [Hk _]].
    congruence.
Qed.

Lemma partialItems_Ok (order : ShopifyOrder) reqs options items :
  partialItems order reqs options = Ok items →
  items = clamped order (restock_of options) reqs ∧ items ≠ [].
Proof.
  unfold partialItems. fold (restock_of options).
  destruct (collect _ _ _ _) as [out|e] eqn:Hc; [|done].
  apply collect_Ok in Hc. simpl in Hc. subst out.
  fold (clamped order (restock_of options) reqs).
  destruct (clamped _ _ _) eqn:Hcl; simpl; [done|].
  intros [= <-]. done.
Qed.

(** C7: the line items a partial refund forwards are the requested ones
    with each quantity clamped to the quantity on the order, the positive
    ones only; the refund is made with them whenever there is one and
    every id asked for with a positive quantity is on the order; and when
    no quantity is positive after clamping the operation fails. *)
Theorem partial_refund_clamping (p : Provider) (orderId : Z) (order : ShopifyOrder)
    reqs (options : option PartialOptions) :
  getOrder p orderId = Ok order →
  let items := clamped order (restock_of options) reqs in
  Forall (λ it, ∃ r li,
             r ∈ reqs ∧ li ∈ line_items order ∧ li_id li = lineItemId r
             ∧ line_item_id it = lineItemId r
             ∧ quantity it = Z.min (requested r) (li_quantity li)
             ∧ (0 < quantity it)%Z) items
  ∧ (∀ sent, partialItems order reqs options = Ok sent → sent = items ∧ sent ≠ [])
  ∧ ((∀ r, r ∈ reqs → (0 < requested r)%Z → on_order order (lineItemId r)) →
     items ≠ [] →
     partialItems order reqs options = Ok items
     ∧ refundPartialOrder p orderId reqs options
       = executeRefund p orderId order items (options ≫= note)
           (options ≫= manualRefundAmount))
  ∧ (items = [] → ∃ e, refundPartialOrder p orderId reqs options = Throw e).
Proof.
  intros Hget items. split; [|split; [|split]].
  - apply Forall_forall. intros it Hit.
    apply list_elem_of_omap in Hit as [r [Hr Hclamp]]. unfold clamp in Hclamp.
    destruct (byId (line_items order) !! lineItemId r) as [li|] eqn:Hli; [|done].
    apply byId_Some in Hli as [Hin Hid]. cbv zeta in Hclamp.
    destruct (0 <? _)%Z eqn:Hpos; [|done]. injection Hclamp as <-. simpl.
    exists r, li. repeat split; try done. lia.
  - intros sent Hsent. by apply partialItems_Ok.
  - intros Hknown Hne.
    assert (partialItems order reqs options = Ok items) as Hitems.
    { unfold partialItems. fold (restock_of options).
      rewrite collect_known.
      - simpl. fold (clamped order (restock_of options) reqs). fold items.
        destruct items; [done|reflexivity].
      - intros r Hr Hpos.
        destruct (byId (line_items order) !! lineItemId r) eqn:Hli; [eauto|].
        apply byId_None in Hli. destruct Hli. by apply Hknown. }
    split; [done|].
    unfold refundPartialOrder. rewrite Hget, Hitems.
    destruct reqs; [done|reflexivity].
  - intros Hempty. unfold refundPartialOrder.
    destruct (length reqs =? 0)%nat; [eauto|]. rewrite Hget.
    destruct (partialItems order reqs options) as [sent|e] eqn:Hsent; [|eauto].
    apply partialItems_Ok in Hsent as [-> Hne]. done.
Qed.

(** The theorem on an order with two collars, three being asked for:
    two are refunded. *)
Lemma partial_refund_clamping_witness :
  partialItems Fixtures.order1001
    [ {| lineItemId := 1; requested := 3 |} ] None
  = Ok [ {| line_item_id := 1; quantity := 2; restock_type := Some "no_restock" |} ].
Proof.
  assert (getOrder Fixtures.shop 5001 = Ok Fixtures.order1001) as Hget by reflexivity.
  destruct (partial_refund_clamping Fixtures.shop 5001 Fixtures.order1001
              [ {| lineItemId := 1; requested := 3 |} ] None Hget)
    as (_ & _ & Hsent & _).
  apply Hsent.
  - intros r Hr _. apply list_elem_of_singleton in Hr as ->.
    exists Fixtures.collar. split; [apply list_elem_of_singleton|]; reflexivity.
  - vm_compute. congruence.
Defined.

(** C3, as amended: when an entry of the request asks for a positive
    quantity of a line item that is not on the order, the partial refund
    fails with the line-item-not-found error for an id that is not on the
    order. *)
Theorem unknown_line_item_rejected (p : Provider) (orderId : Z) (order : ShopifyOrder)
    reqs (options : option PartialOptions) (r : RefundRequestItem) :
  getOrder p orderId = Ok order →
  r ∈ reqs → (0 < requested r)%Z → ¬ on_order order (lineItemId r) →
  ∃ k, refundPartialOrder p orderId reqs options = Throw (LineItemNotFound k)
       ∧ ¬ on_order order k.
Proof.
  intros Hget Hin Hpos Hunknown. apply byId_None in Hunknown.
  destruct (collect_unknown (byId (line_items order)) (restock_of options) reqs [] r
              Hin Hpos Hunknown) as [k [Hk Hnone]].
  exists k. split; [|by apply byId_None].
  unfold refundPartialOrder, partialItems. fold (restock_of options).
  rewrite Hget, Hk. by destruct reqs; [apply elem_of_nil in Hin|].
Qed.

Lemma unknown_line_item_rejected_witness :
  ∃ k, refundPartialOrder Fixtures.shop 5001
         [ {| lineItemId := 1; requested := 1 |};
           {| lineItemId := 999; requested := 1 |} ] None
       = Throw (LineItemNotFound k)
       ∧ ¬ on_order Fixtures.order1001 k.
Proof.
  apply (unknown_line_item_rejected Fixtures.shop 5001 Fixtures.order1001 _ None
           {| lineItemId := 999; requested := 1 |}).
  - reflexivity.
  - apply elem_of_cons. right. apply list_elem_of_singleton. reflexivity.
  - simpl. lia.
  - intros [li [Hli Hid]]. apply list_elem_of_singleton in Hli. subst li. discriminate.
Defined.

(** C3 as stated fails: an id that is not on the order, asked for with
    quantity 0, is skipped and the refund of the other entry is made. *)
Lemma unknown_line_item_skipped :
  ¬ on_order Fixtures.order1001 999
  ∧ refundPartialOrder Fixtures.shop 5001
      [ {| lineItemId := 999; requested := 0 |};
        {| lineItemId := 1; requested := 1 |} ] None
    = executeRefund Fixtures.shop 5001 Fixtures.order1001
        [ {| line_item_id := 1; quantity := 1; restock_type := Some "no_restock" |} ]
        None None
  ∧ ∃ created,
      refundPartialOrder Fixtures.shop 5001
        [ {| lineItemId := 999; requested := 0 |};
          {| lineItemId := 1; requested := 1 |} ] None
      = Ok created.
Proof.
  split; [|split].
  - intros [li [Hli Hid]]. apply list_elem_of_singleton in Hli. subst li. discriminate.
  - reflexivity.
  - eexists. reflexivity.
Qed.

End PartialRefund.

(** ** The request store *)

Section StoreInvariants.

Import Types Database Store.

Implicit Types (s : state) (r : HelpRequestRow) (k : string).

(** The rows the unique index covers are the rows with an open status. *)
Lemma open_status_indexed r :
  status r ∈ HelpRequestsRepo.OPEN_STATUSES ↔ in_open_index r = true.
Proof.
  unfold in_open_index, HelpRequestsRepo.OPEN_STATUSES.
  destruct (status r); split; intros H;
    first [ reflexivity
          | apply list_elem_of_In; simpl; tauto
          | by vm_compute in H
          | apply (bool_decide_pack _) in H; by vm_compute in H ].
Qed.

Lemma collides_open r r' :
  status r ∈ HelpRequestsRepo.OPEN_STATUSES →
  status r' ∈ HelpRequestsRepo.OPEN_STATUSES →
  order_number r' = order_number r →
  collides r r' = true.
Proof.
  intros Hr Hr' Ho. unfold collides.
  apply open_status_indexed in Hr, Hr'. rewrite Hr, Hr'. simpl.
  by apply bool_decide_eq_true.
Qed.

(** Writing an accepted row keeps the invariant, whether the key is new
    or not. *)
Lemma accepted_write_one_open s k r :
  one_open_per_order s →
  index_accepts (help_requests s) k r = true →
  one_open_per_order
    {| clock := clock s; help_requests := <[k := r]> (help_requests s);
       chat_messages := chat_messages s |}.
Proof.
  intros Hinv Hacc. apply bool_decide_eq_true in Hacc.
  intros k1 k2 r1 r2 H1 H2 Ho1 Ho2 Heq. simpl in H1, H2.
  destruct (decide (k1 = k)) as [->|Hk1], (decide (k2 = k)) as [->|Hk2]; [done|..].
  - rewrite lookup_insert_eq in H1. rewrite lookup_insert_ne in H2 by done.
    injection H1 as ->.
    destruct (Hacc k2 r2 H2) as [?|Hfree]; [done|].
    rewrite collides_open in Hfree; done.
  - rewrite lookup_insert_ne in H1 by done. rewrite lookup_insert_eq in H2.
    injection H2 as ->.
    destruct (Hacc k1 r1 H1) as [?|Hfree]; [done|].
    rewrite collides_open in Hfree; done.
  - rewrite lookup_insert_ne in H1, H2 by done. by eapply Hinv.
Qed.

Lemma insert_help_request_one_open s s' r :
  one_open_per_order s → insert_help_request r s = Some s' → one_open_per_order s'.
Proof.
  intros Hinv. unfold insert_help_request.
  destruct (help_requests s !! id r); [done|].
  destruct (index_accepts _ _ _) eqn:Hacc; [|done].
  intros [= <-]. by apply accepted_write_one_open.
Qed.

Lemma update_help_request_one_open s s' k set res :
  one_open_per_order s → update_help_request k set s = Some (res, s') →
  one_open_per_order s'.
Proof.
  intros Hinv. unfold update_help_request.
  destruct (help_requests s !! k); [|by intros [= <- <-]].
  destruct (index_accepts _ _ _) eqn:Hacc; [|done].
  intros [= <- <-]. by apply accepted_write_one_open.
Qed.

Lemma step_one_open s s' :
  step s s' → one_open_per_order s → one_open_per_order s'.
Proof.
  intros Hstep Hinv. destruct Hstep as [s t _|s body new_id row s' H|s k body by_ r s' H|s data new_id m s' H].
  - exact Hinv.
  - unfold HelpRequestsRepo.create in H.
    destruct (insert_help_request _ s) as [s1|] eqn:Hins; [|done].
    injection H as _ <-. by eapply insert_help_request_one_open.
  - unfold HelpRequestsRepo.update in H.
    destruct (HelpRequestsRepo.no_updates body).
    + by injection H as _ <-.
    + by eapply update_help_request_one_open.
  - unfold ChatRepo.createMessage in H.
    destruct (insert_chat_message _ s) as [s1|] eqn:Hins; [|done].
    injection H as _ <-. unfold insert_chat_message in Hins.
    destruct (existsb _ _); [done|].
    destruct (help_requests s !! _); [|done].
    by injection Hins as <-.
Qed.

(** An insert for an order number that an open request already carries
    is refused by the store. *)
Lemma create_refused s body new_id k r :
  help_requests s !! k = Some r →
  status r ∈ HelpRequestsRepo.OPEN_STATUSES →
  order_number r = HelpRequestsRepo.create_orderNumber (body_order_number body) →
  HelpRequestsRepo.create body new_id s = None.
Proof.
  intros Hk Hopen Horder. unfold HelpRequestsRepo.create, insert_help_request. simpl.
  destruct (help_requests s !! new_id) eqn:Hnew; [done|].
  destruct (index_accepts _ _ _) eqn:Hacc; [|done].
  apply bool_decide_eq_true in Hacc.
  destruct (Hacc k r Hk) as [->|Hfree]; [congruence|].
  rewrite collides_open in Hfree; try done.
  unfold HelpRequestsRepo.OPEN_STATUSES. apply elem_of_cons. by left.
Qed.

Lemma reachable_step s s' : reachable s → step s s' → reachable s'.
Proof. intros Hs Hstep. by eapply rtc_r. Qed.

Lemma reachable_opened : reachable Fixtures.opened.
Proof.
  eapply reachable_step; [apply rtc_refl|].
  eapply (step_create _ (Fixtures.createBody "#1001") "r1").
  vm_compute. reflexivity.
Qed.

(** The create route moves the store by a step, or not at all. *)
Lemma createRequest_reachable body (new_id : string) s reply s' :
  reachable s →
  HelpRequestsRoutes.createRequest body new_id s = (reply, s') →
  reachable s'.
Proof.
  intros Hs. unfold HelpRequestsRoutes.createRequest.
  repeat (match goal with |- context [if ?b then _ else _] => destruct b end;
          [by intros [= _ <-]|]).
  destruct (HelpRequestsRepo.create body new_id s) as [[row s1]|] eqn:Hc.
  - intros [= _ <-]. eapply reachable_step; [done|]. by econstructor.
  - by intros [= _ <-].
Qed.

(** C2: in every state the store can reach through the repository
    functions, whatever their interleaving and without the pre-check of
    the create route, at most one request per order number has a status
    among pending, in_progress and approved; and the store itself refuses
    the insert of a request for an order number that an open request
    carries. *)
Theorem one_open_request_per_order s :
  reachable s →
  one_open_per_order s
  ∧ ∀ body new_id k r,
      help_requests s !! k = Some r →
      status r ∈ HelpRequestsRepo.OPEN_STATUSES →
      order_number r = HelpRequestsRepo.create_orderNumber (body_order_number body) →
      HelpRequestsRepo.create body new_id s = None.
Proof.
  intros Hreach. split.
  - apply (rtc_ind_r (R := step) one_open_per_order Database.empty); [| |exact Hreach].
    + intros k1 k2 r1 r2 H1. simpl in H1. by rewrite lookup_empty in H1.
    + intros s1 s2 _ Hstep Hinv. by eapply step_one_open.
  - intros body new_id k r. apply create_refused.
Qed.

(** The theorem on the store that holds one pending request for order
    1001: a second request for [" 1001 "] is refused. *)
Lemma one_open_request_per_order_witness :
  one_open_per_order Fixtures.opened
  ∧ HelpRequestsRepo.create (Fixtures.createBody " 1001 ") "r2" Fixtures.opened = None.
Proof.
  destruct (one_open_request_per_order Fixtures.opened reachable_opened) as [Hinv Hrefuse].
  split; [exact Hinv|].
  apply (Hrefuse (Fixtures.createBody " 1001 ") "r2" "r1" Fixtures.stored).
  - vm_compute. reflexivity.
  - apply elem_of_cons. left. reflexivity.
  - reflexivity.
Defined.

End StoreInvariants.

(** ** Unread messages *)

Section Unread.

Import Types Database Store ChatRepo Spec.

Local Open Scope Z_scope.

Implicit Types (s : state) (r : HelpRequestRow) (m : ChatMessageRow).

Lemma created_at_apply_update body processedBy t r :
  created_at (with_updated_at (HelpRequestsRepo.apply_update body processedBy t r) t)
  = created_at r.
Proof. reflexivity. Qed.

Lemma step_timestamps s s' :
  step s s' → timestamps_ordered s → timestamps_ordered s'.
Proof.
  intros Hstep [Hrows Hmsgs].
  destruct Hstep as [s t Ht|s body new_id row s' H|s k body by_ res s' H|s data new_id m s' H].
  - split; simpl.
    + intros k r Hk. specialize (Hrows k r Hk). lia.
    + eapply Forall_impl; [exact Hmsgs|]. simpl. intros m [Hm Hr]. split; [lia|done].
  - unfold HelpRequestsRepo.create, insert_help_request in H. simpl in H.
    destruct (help_requests s !! new_id) eqn:Hnew; [done|].
    destruct (index_accepts _ _ _); [|done].
    injection H as <- <-. split; simpl.
    + intros k r Hk. destruct (decide (k = new_id)) as [->|Hne].
      * rewrite lookup_insert_eq in Hk. by injection Hk as <-.
      * rewrite lookup_insert_ne in Hk by done. by eapply Hrows.
    + eapply Forall_impl; [exact Hmsgs|]. simpl. intros m [Hm [r [Hr Hle]]].
      split; [done|]. exists r. split; [|done].
      rewrite lookup_insert_ne; [done|congruence].
  - unfold HelpRequestsRepo.update in H.
    destruct (HelpRequestsRepo.no_updates body); [by injection H as _ <-|].
    unfold update_help_request in H.
    destruct (help_requests s !! k) as [r0|] eqn:Hk0; [|by injection H as _ <-].
    destruct (index_accepts _ _ _); [|done].
    injection H as _ <-. split; simpl.
    + intros k' r Hk. destruct (decide (k' = k)) as [->|Hne].
      * rewrite lookup_insert_eq in Hk. injection Hk as <-.
        rewrite created_at_apply_update. by eapply Hrows.
      * rewrite lookup_insert_ne in Hk by done. by eapply Hrows.
    + eapply Forall_impl; [exact Hmsgs|]. simpl. intros m [Hm [r [Hr Hle]]].
      split; [done|].
      destruct (decide (request_id m = k)) as [Heq|Hne].
      * rewrite Heq in Hr |- *. rewrite lookup_insert_eq. eexists. split; [done|].
        rewrite created_at_apply_update. congruence.
      * exists r. by rewrite lookup_insert_ne.
  - unfold createMessage, insert_chat_message in H. simpl in H.
    destruct (existsb _ _); [done|].
    destruct (help_requests s !! new_request_id data) as [r|] eqn:Hr; [|done].
    injection H as <- <-. split; simpl; [done|].
    apply Forall_app. split; [done|].
    apply Forall_singleton. simpl. split; [done|].
    exists r. split; [done|]. by eapply Hrows.
Qed.

Lemma reachable_timestamps s : reachable s → timestamps_ordered s.
Proof.
  intros Hreach.
  apply (rtc_ind_r (R := step) timestamps_ordered Database.empty); [| |exact Hreach].
  - split; simpl; [|done]. intros k r Hk. by rewrite lookup_empty in Hk.
  - intros s1 s2 _ Hstep Hinv. by eapply step_timestamps.
Qed.

(** The [MAX] of the query is the most recent admin time. *)
Lemma last_admin_time_most_recent (requestId : string) s :
  last_admin_time requestId s = most_recent (admin_times requestId s).
Proof.
  unfold last_admin_time, admin_times.
  induction (chat_messages s) as [|m ms IH]; [done|].
  simpl. rewrite filter_cons.
  destruct (decide (request_id m = requestId ∧ sender m = admin)) as [Hm|Hm].
  - rewrite bool_decide_true by done. simpl. rewrite IH.
    by destruct (most_recent _).
  - by rewrite bool_decide_false.
Qed.

Lemma most_recent_elem (times : list Z) (t : Z) :
  most_recent times = Some t → t ∈ times.
Proof.
  revert t. induction times as [|t0 times IH]; intros t; simpl; [done|].
  destruct (most_recent times) as [u|]; intros [= <-].
  - destruct (Z.max_spec t0 u) as [[_ ->]|[_ ->]].
    + apply elem_of_cons. right. by apply IH.
    + apply elem_of_cons. by left.
  - apply elem_of_cons. by left.
Qed.

(** In a reachable store no admin message of a request is older than
    the request. *)
Lemma admin_time_after_request (requestId : string) s r (t : Z) :
  timestamps_ordered s →
  help_requests s !! requestId = Some r →
  t ∈ admin_times requestId s →
  created_at r ≤ t.
Proof.
  intros [_ Hmsgs] Hr Ht. unfold admin_times in Ht.
  apply list_elem_of_fmap in Ht as [m [-> Hm]].
  apply list_elem_of_filter in Hm as [[Hid _] Hin].
  rewrite Forall_forall in Hmsgs.
  destruct (Hmsgs m Hin) as [_ [r' [Hr' Hle]]].
  rewrite Hid, Hr in Hr'. by injection Hr' as <-.
Qed.

(** C5: in every reachable store the unread count of a request is the
    number of its customer messages created strictly after the later of
    the request's creation time and the most recent admin message's
    creation time; and for a request created at [t0] with an admin message
    at [t1] and customer messages at [t2 < t1] and [t3 > t1] the count
    is 1. *)
Theorem unread_count_for_admin :
  (∀ s (requestId : string) r,
      reachable s →
      HelpRequestsRepo.getById requestId s = Some r →
      getUnreadCountForAdmin requestId s
      = length (customer_messages_after requestId
                  (later_of (created_at r) (most_recent (admin_times requestId s))) s))
  ∧ (∀ t0 t1 t2 t3 : Z,
        t2 < t1 → t1 < t3 →
        getUnreadCountForAdmin "r1" (Fixtures.thread t0 t1 t2 t3) = 1%nat).
Proof.
  split.
  - intros s requestId r Hreach Hr. apply reachable_timestamps in Hreach.
    unfold HelpRequestsRepo.getById in Hr.
    unfold getUnreadCountForAdmin, customer_messages_after, request_time.
    rewrite Hr, last_admin_time_most_recent. simpl.
    f_equal. apply list_filter_iff. intros m.
    destruct (most_recent (admin_times requestId s)) as [t|] eqn:Hrecent; simpl.
    + apply most_recent_elem in Hrecent.
      pose proof (admin_time_after_request requestId s r t Hreach Hr Hrecent).
      rewrite Z.ltb_lt. replace (Z.max (created_at r) t) with t by lia. done.
    + by rewrite Z.ltb_lt.
  - intros t0 t1 t2 t3 H21 H13.
    unfold getUnreadCountForAdmin.
    assert (last_admin_time "r1" (Fixtures.thread t0 t1 t2 t3) = Some t1) as ->
      by reflexivity.
    cbn [COALESCE]. unfold Fixtures.thread. cbn [chat_messages].
    rewrite !filter_cons, filter_nil.
    repeat case_decide; simpl in *; unfold sql_gt in *; try reflexivity.
    all: exfalso; intuition (try discriminate; try lia).
Qed.

Lemma reachable_advance s (t : Z) :
  reachable s → clock s ≤ t → reachable (advance t s).
Proof. intros Hs Ht. eapply reachable_step; [done|]. by constructor. Qed.

Lemma reachable_post (who : Sender) (k : string) s :
  reachable s → reachable (Fixtures.post who k s).
Proof.
  intros Hs. unfold Fixtures.post.
  destruct (createMessage _ k s) as [[m s']|] eqn:Hpost; [|done].
  eapply reachable_step; [done|]. by econstructor.
Qed.

Lemma reachable_conversation : reachable Fixtures.conversation.
Proof.
  unfold Fixtures.conversation.
  repeat first [ apply reachable_post
               | apply reachable_advance; [|by vm_compute]
               | apply reachable_opened ].
Qed.

(** The theorem on a conversation: request at 0, customer at 10, admin
    at 20, customer at 30. *)
Lemma unread_count_for_admin_witness :
  getUnreadCountForAdmin "r1" Fixtures.conversation
  = length (customer_messages_after "r1" 20 Fixtures.conversation)
  ∧ getUnreadCountForAdmin "r1" (Fixtures.thread 0 20 10 30) = 1%nat.
Proof.
  destruct unread_count_for_admin as [Hcount Hexample].
  split.
  - assert (HelpRequestsRepo.getById "r1" Fixtures.conversation = Some Fixtures.stored)
      as Hstored by (vm_compute; reflexivity).
    exact (Hcount Fixtures.conversation "r1" Fixtures.stored
             reachable_conversation Hstored).
  - apply Hexample; lia.
Defined.

End Unread.

(** ** Access to the chat *)

Section ChatAccess.

Import Types Database ChatRepo Auth ChatRoutes Spec.

Implicit Types (verify : Verifier) (req : Request) (s : state) (request : HelpRequestRow).


Lemma same_email_true (e : string) request :
  same_email e request = true
  ↔ JS.toLowerCase e = JS.toLowerCase (customer_email request).
Proof. unfold same_email. apply bool_decide_eq_true. Qed.

Lemma truthy_true (e : string) : JS.truthy e = true ↔ e ≠ EmptyString.
Proof. destruct e; simpl; split; [done|done|done|done]. Qed.






(** C10: on the read path a supplied email that is not the request's
    customer email is answered 403 whatever the credential, a valid admin
    token included; on the post path the same caller is the admin. *)
Theorem getMessages_email_mismatch verify req s request (e : string) (u : AuthPayload) :
  HelpRequestsRepo.getById (requestId req) s = Some request →
  optional_auth verify req = Some u →
  query_email req = Some e → e ≠ EmptyString →
  JS.toLowerCase e ≠ JS.toLowerCase (customer_email request) →
  getMessages verify req s = Forbidden403
  ∧ determineSender (optional_auth verify req) (query_email req) request
    = Some (admin, Some (userId u)).
Proof.
  intros Hreq Hu He Hne Hmis. split.
  - unfold getMessages. rewrite Hreq, Hu, He. simpl.
    apply truthy_true in Hne. rewrite Hne. simpl.
    assert (same_email e request = false) as ->; [|done].
    apply not_true_is_false. by rewrite same_email_true.
  - by rewrite Hu.
Qed.

Lemma getMessages_email_mismatch_witness :
  getMessages Fixtures.verify
    (Fixtures.chatRequest GET (Some "Bearer t0k") (Some "bob@example.com"))
    Fixtures.opened
  = Forbidden403
  ∧ determineSender
      (optional_auth Fixtures.verify
         (Fixtures.chatRequest GET (Some "Bearer t0k") (Some "bob@example.com")))
      (Some "bob@example.com") Fixtures.stored
    = Some (admin, Some "admin-1").
Proof.
  apply (getMessages_email_mismatch Fixtures.verify
           (Fixtures.chatRequest GET (Some "Bearer t0k") (Some "bob@example.com"))
           Fixtures.opened Fixtures.stored "bob@example.com"
           {| userId := "admin-1"; email := "ops@example.com" |}).
  - vm_compute. reflexivity.
  - vm_compute. reflexivity.
  - reflexivity.
  - discriminate.
  - vm_compute. discriminate.
Defined.

End ChatAccess.

(** ** Order numbers *)

Section OrderNumbers.

Import Types Database Shopify Spec.

Local Open Scope string_scope.

(** C9: ["#1001"], ["1001"] and [" 1001 "] are normalised to ["1001"]:
    [create] stores that order number, [hasOpenRequestForOrder] asks for
    it (and for ["#1001"]), and [findOrderByName] asks the provider for
    ["#1001"], so that each function answers the three inputs alike. *)
Theorem order_number_normalization :
  Forall (λ x,
            normalize x = "1001"
            ∧ HelpRequestsRepo.create_orderNumber x = "1001"
            ∧ HelpRequestsRepo.open_request_keys x = ("1001", "#1001")
            ∧ findOrderByName_name x = "#1001"
            ∧ (∀ body new_id s,
                  HelpRequestsRepo.create (createBody body x) new_id s
                  = HelpRequestsRepo.create (createBody body "1001") new_id s)
            ∧ (∀ s, HelpRequestsRepo.hasOpenRequestForOrder x s
                    = HelpRequestsRepo.hasOpenRequestForOrder "1001" s)
            ∧ (∀ p, findOrderByName p x = findOrderByName p "1001"))
         ["#1001"; "1001"; " 1001 "].
Proof.
  repeat constructor.
Qed.

End OrderNumbers.

(** ** The manual amount of the refund endpoint *)

Section ManualAmount.

Import Types Database Auth Shopify HelpRequestsRoutes Spec.

Local Open Scope Q_scope.

Lemma manualAmount_non_positive (body : RefundBody) (q : Q) :
  q <= 0 → manualAmount (with_refundAmount body (AmountNumber q)) = None.
Proof.
  intros Hq. unfold manualAmount, JS.gt. simpl.
  apply Qle_bool_iff in Hq. by rewrite Hq.
Qed.

(** C4, as amended: a manual amount that is not positive is not
    rejected.  The endpoint passes no manual amount on and answers as it
    does for a body without [refundAmount]; the service, given such an
    amount, leaves the suggested transactions as they are. *)
Theorem non_positive_amount_ignored (q : Q) :
  q <= 0 →
  (∀ body, manualAmount (with_refundAmount body (AmountNumber q)) = None)
  ∧ (∀ verify p shopDomain authorization requestId body s,
        HelpRequestsRoutes.refund verify p shopDomain authorization requestId
          (with_refundAmount body (AmountNumber q)) s
        = HelpRequestsRoutes.refund verify p shopDomain authorization requestId
            (with_refundAmount body AmountAbsent) s)
  ∧ (∀ ts, reconcile (Some q) ts = ts).
Proof.
  intros Hq. split; [|split].
  - intros body. by apply manualAmount_non_positive.
  - intros verify p shopDomain authorization requestId body s.
    unfold HelpRequestsRoutes.refund, dispatch.
    rewrite manualAmount_non_positive by done. reflexivity.
  - intros ts. unfold reconcile, JS.gt.
    apply Qle_bool_iff in Hq. by rewrite Hq.
Qed.

Lemma non_positive_amount_ignored_witness :
  manualAmount (Fixtures.refundBody (AmountNumber (-5 # 1))) = None
  ∧ reconcile (Some (-5 # 1)) Fixtures.thirds = Fixtures.thirds.
Proof.
  assert (-5 # 1 <= 0) as Hq by (vm_compute; congruence).
  destruct (non_positive_amount_ignored (-5 # 1) Hq) as (Hroute & _ & Hservice).
  split.
  - exact (Hroute (Fixtures.refundBody AmountAbsent)).
  - exact (Hservice Fixtures.thirds).
Defined.

(** C4 as stated fails: a full refund asked for with [refundAmount] 0
    is answered 200, and the refund created carries the transaction the
    provider suggested, 20.00. *)
Lemma zero_amount_refunded :
  fst (HelpRequestsRoutes.refund Fixtures.verify Fixtures.shop "shop.example"
         (Some "Bearer t0k"%string) "r1" (Fixtures.refundBody (AmountNumber 0))
         Fixtures.opened)
  = {| code := 200;
       refund_created :=
         Some {| create_note := "Refund for help request r1";
                 create_transactions := Some [Fixtures.tx (20 # 1)];
                 create_rest := [("currency", "INR")%string] |} |}.
Proof. vm_compute. reflexivity. Qed.

End ManualAmount.

(** ** What the reconciliation keeps *)

Section ReconciliationShape.

Import Shopify Spec.

Local Open Scope Q_scope.

Lemma scaled_parent_id (m : Q) (ts : list Transaction) :
  map parent_id (scaled m ts) = map parent_id ts.
Proof. unfold scaled. rewrite map_map. reflexivity. Qed.

Lemma scaled_gateway (m : Q) (ts : list Transaction) :
  map gateway (scaled m ts) = map gateway ts.
Proof. unfold scaled. rewrite map_map. reflexivity. Qed.

Lemma reconcile_same_shape (manual : option Q) (ts : list Transaction) :
  map parent_id (reconcile manual ts) = map parent_id ts
  ∧ map gateway (reconcile manual ts) = map gateway ts.
Proof.
  unfold reconcile. destruct manual as [m|]; [|done].
  destruct (_ && _); [|done]. destruct (_ && _); [|done].
  pose proof (scaled_parent_id m ts) as Hp. pose proof (scaled_gateway m ts) as Hg.
  destruct (scaled m ts) as [|s0 rest]; [done|].
  by destruct (negb _).
Qed.

(** Whatever the manual amount, the transactions sent are the kept ones
    in number, order, parent reference and gateway: only amounts change. *)
Theorem reconcile_keeps_structure (manual : option Q) (ts : list Transaction) :
  map parent_id (reconcile manual ts) = map parent_id ts
  ∧ map gateway (reconcile manual ts) = map gateway ts
  ∧ length (reconcile manual ts) = length ts.
Proof.
  destruct (reconcile_same_shape manual ts) as [Hp Hg].
  split; [done|]. split; [done|].
  by rewrite <- (length_map parent_id), Hp, length_map.
Qed.

Lemma Math_round_nonneg (x : Q) : 0 <= x → (0 <= JS.Math_round x)%Z.
Proof.
  intros Hx. unfold JS.Math_round.
  change 0%Z with (Qfloor 0). apply Qfloor_resp_le. lra.
Qed.

Lemma cents_nonneg (n : Z) : (0 <= n)%Z → 0 <= inject_Z n / 100.
Proof.
  intros Hn. apply Qle_shift_div_l; [reflexivity|].
  rewrite Qmult_0_l. change 0 with (inject_Z 0). by rewrite <- Zle_Qle.
Qed.

Lemma toFixed2_nonneg (x : Q) : 0 <= x → 0 <= JS.toFixed2 x.
Proof.
  intros Hx. unfold JS.toFixed2, JS.gt.
  assert (Qle_bool 0 x = true) as -> by (by apply Qle_bool_iff).
  cbn [negb]. apply cents_nonneg.
  fold (JS.Math_round (x * 100)). apply Math_round_nonneg.
  apply Qmult_le_0_compat; [done|discriminate].
Qed.

Lemma Math_max_0_nonneg (x : Q) : 0 <= JS.Math_max 0 x.
Proof.
  unfold JS.Math_max. destruct (Qle_bool 0 x) eqn:H; [|apply Qle_refl].
  by apply Qle_bool_iff.
Qed.

Lemma scaled_nonneg (m : Q) (ts : list Transaction) :
  0 < m → 0 < total ts →
  Forall (λ t, 0 <= amount t) ts →
  Forall (λ t, 0 <= amount t) (scaled m ts).
Proof.
  intros Hm HS Hts. unfold scaled. apply Forall_map.
  eapply Forall_impl; [exact Hts|]. intros t Ht. simpl.
  apply toFixed2_nonneg, cents_nonneg, Math_round_nonneg.
  assert (0 <= m / total ts) as Hscale.
  { apply Qle_shift_div_l; [done|]. rewrite Qmult_0_l. by apply Qlt_le_weak. }
  apply Qmult_le_0_compat; [|discriminate].
  by apply Qmult_le_0_compat.
Qed.

(** The reconciliation never produces a negative amount from suggested
    amounts that are not negative. *)
Theorem reconcile_nonneg (manual : option Q) (ts : list Transaction) :
  Forall (λ t, 0 <= amount t) ts →
  Forall (λ t, 0 <= amount t) (reconcile manual ts).
Proof.
  intros Hts. unfold reconcile. destruct manual as [m|]; [|done].
  destruct (JS.gt m 0 && _) eqn:Hg1; [|done].
  destruct (JS.gt (total ts) 0 && _) eqn:Hg2; [|done].
  apply andb_true_iff in Hg1 as [Hm _]. apply andb_true_iff in Hg2 as [HS _].
  unfold JS.gt in Hm, HS.
  apply negb_true_iff in Hm, HS.
  assert (0 < m) as Hm'.
  { apply Qnot_le_lt. intros H. apply Qle_bool_iff in H. congruence. }
  assert (0 < total ts) as HS'.
  { apply Qnot_le_lt. intros H. apply Qle_bool_iff in H. congruence. }
  pose proof (scaled_nonneg m ts Hm' HS' Hts) as Hsc.
  destruct (scaled m ts) as [|s0 rest]; [done|].
  destruct (negb _); [|done].
  apply Forall_cons in Hsc as [_ Hrest]. apply Forall_cons. split; [|done].
  simpl. apply toFixed2_nonneg, Math_max_0_nonneg.
Qed.

Lemma reconcile_nonneg_witness :
  Forall (λ t, 0 <= amount t) (reconcile (Some (3 # 100)) Fixtures.five_cents).
Proof.
  apply (reconcile_nonneg (Some (3 # 100)) Fixtures.five_cents).
  repeat constructor; discriminate.
Defined.

End ReconciliationShape.

(** ** Rounding to binary64 *)

Section Rounding64.

Import Binary64.

Local Open Scope Q_scope.

Lemma pow2_pos (e : Z) : 0 < pow2 e.
Proof. unfold pow2. apply Qpower_0_lt. reflexivity. Qed.

Lemma pow2_plus (a b : Z) : pow2 (a + b) == pow2 a * pow2 b.
Proof. unfold pow2. apply Qpower_plus. discriminate. Qed.

Lemma pow2_Z (k : Z) : (0 <= k)%Z → inject_Z (2 ^ k) == pow2 k.
Proof. intros Hk. unfold pow2. by rewrite Zpower_Qpower. Qed.

Lemma Q_as_fraction (a : Q) : a == inject_Z (Qnum a) / inject_Z (Zpos (Qden a)).
Proof.
  destruct a as [n d]. unfold Qeq, Qdiv, Qmult, Qinv, inject_Z. simpl. lia.
Qed.

(** [ilog2] is the integer part of the binary logarithm. *)
Lemma ilog2_spec (a : Q) : 0 < a → pow2 (ilog2 a) <= a ∧ a < pow2 (ilog2 a + 1).
Proof.
  intros Ha. unfold ilog2.
  set (n := Qnum a). set (d := Zpos (Qden a)).
  assert (0 < n)%Z as Hn by (destruct a as [n' d']; unfold Qlt in Ha; simpl in *; lia).
  assert (0 < d)%Z as Hd by done.
  destruct (Z.log2_spec n Hn) as [Hn1 Hn2]. destruct (Z.log2_spec d Hd) as [Hd1 Hd2].
  pose proof (Z.log2_nonneg n) as Hln. pose proof (Z.log2_nonneg d) as Hld.
  assert (pow2 (Z.log2 n) <= inject_Z n) as Qn1 by (rewrite <- pow2_Z, <- Zle_Qle; lia).
  assert (inject_Z n < pow2 (Z.succ (Z.log2 n))) as Qn2 by (rewrite <- pow2_Z, <- Zlt_Qlt; lia).
  assert (pow2 (Z.log2 d) <= inject_Z d) as Qd1 by (rewrite <- pow2_Z, <- Zle_Qle; lia).
  assert (inject_Z d < pow2 (Z.succ (Z.log2 d))) as Qd2 by (rewrite <- pow2_Z, <- Zlt_Qlt; lia).
  assert (0 < inject_Z d) as Qd0 by (change 0 with (inject_Z 0); rewrite <- Zlt_Qlt; lia).
  pose proof (Q_as_fraction a) as Hfrac. fold n d in Hfrac.
  set (l := (Z.log2 n - Z.log2 d)%Z).
  pose proof (pow2_pos (Z.log2 d)) as Pd. pose proof (pow2_pos (Z.log2 n)) as Pn.
  pose proof (pow2_pos l) as Pl.
  assert (pow2 (Z.log2 n) == pow2 l * pow2 (Z.log2 d)) as Hl
    by (rewrite <- pow2_plus; unfold l; by replace (Z.log2 n - Z.log2 d + Z.log2 d)%Z
          with (Z.log2 n) by lia).
  assert (pow2 (Z.succ (Z.log2 n)) == 2 * pow2 (Z.log2 n)) as Sn
    by (unfold Z.succ; rewrite pow2_plus; change (pow2 1) with 2; ring).
  assert (pow2 (Z.succ (Z.log2 d)) == 2 * pow2 (Z.log2 d)) as Sd
    by (unfold Z.succ; rewrite pow2_plus; change (pow2 1) with 2; ring).
  assert (pow2 (l + 1) == 2 * pow2 l) as Sl
    by (rewrite pow2_plus; change (pow2 1) with 2; ring).
  assert (pow2 l == 2 * pow2 (l - 1)) as Sl'.
  { replace l with ((l - 1) + 1)%Z at 1 by lia.
    rewrite pow2_plus. change (pow2 1) with 2. ring. }
  assert (a * inject_Z d == inject_Z n) as Had by (rewrite Hfrac; field; lra).
  destruct (Qle_bool (pow2 l) a) eqn:Hle.
  - apply Qle_bool_iff in Hle. split; [exact Hle|].
    rewrite Sl.
    apply Qnot_le_lt. intros Hge. nra.
  - assert (a < pow2 l) as Hlt.
    { apply Qnot_le_lt. intros H. apply Qle_bool_iff in H. congruence. }
    replace (l - 1 + 1)%Z with l by lia. split; [|exact Hlt].
    apply Qnot_lt_le. intros Hlt'. nra.
Qed.

Lemma nearest_even_bounds (r : Q) :
  r - (1 # 2) <= inject_Z (nearest_even r) ∧ inject_Z (nearest_even r) <= r + (1 # 2).
Proof.
  unfold nearest_even.
  pose proof (Qfloor_le r) as Hlo. pose proof (Qlt_floor r) as Hhi.
  rewrite inject_Z_plus in Hhi. change (inject_Z 1) with 1 in Hhi.
  destruct (Qcompare (r - inject_Z (Qfloor r)) (1 # 2)) eqn:Hc.
  - apply Qeq_alt in Hc.
    destruct (Z.even (Qfloor r)); [|rewrite inject_Z_plus; change (inject_Z 1) with 1]; lra.
  - apply Qlt_alt in Hc. lra.
  - apply Qgt_alt in Hc. rewrite inject_Z_plus. change (inject_Z 1) with 1. lra.
Qed.

Lemma nearest_even_nonneg (r : Q) : 0 <= r → (0 <= nearest_even r)%Z.
Proof.
  intros Hr. unfold nearest_even.
  assert (0 <= Qfloor r)%Z as Hf by (change 0%Z with (Qfloor 0); by apply Qfloor_resp_le).
  destruct (Qcompare _ _); [destruct (Z.even _)| |]; lia.
Qed.

Lemma round_pos_bounds (a : Q) :
  0 < a →
  0 <= round_pos a
  ∧ a - (unit_roundoff * a + tiny) <= round_pos a
  ∧ round_pos a <= a + (unit_roundoff * a + tiny).
Proof.
  intros Ha. unfold round_pos. cbv zeta.
  set (e := ulp_exponent a). pose proof (pow2_pos e) as HP.
  destruct (nearest_even_bounds (a / pow2 e)) as [Hlo Hhi].
  assert (0 <= a / pow2 e) as Hr by (apply Qle_shift_div_l; [exact HP|lra]).
  pose proof (nearest_even_nonneg _ Hr) as Hnn.
  rewrite Zle_Qle in Hnn. change (inject_Z 0) with 0 in Hnn.
  set (ne := inject_Z (nearest_even (a / pow2 e))) in *.
  assert (a / pow2 e * pow2 e == a) as Hmul by (field; lra).
  assert (pow2 e <= 2 * (unit_roundoff * a + tiny)) as Hulp.
  { unfold e, ulp_exponent.
    destruct (Z.max_spec (ilog2 a - 52) (-1074)) as [[_ ->]|[_ ->]].
    - assert (pow2 (-1074) <= 2 * tiny) as H
        by (apply Qle_bool_imp_le; vm_compute; reflexivity).
      unfold unit_roundoff in *. lra.
    - destruct (ilog2_spec a Ha) as [Hl _].
      unfold Z.sub. rewrite pow2_plus.
      assert (pow2 (-52) == 2 * unit_roundoff) as -> by reflexivity.
      unfold unit_roundoff, tiny in *. lra. }
  split; [apply Qmult_le_0_compat; lra|].
  split; nra.
Qed.

Lemma round_comp (x y : Q) : x == y → round x = round y.
Proof. intros H. unfold round. by rewrite (Qred_complete x y H). Qed.

Lemma round_opp (x : Q) : round (- x) == - round x.
Proof.
  unfold round. cbv zeta. rewrite Qred_opp.
  destruct (Qred x) as [[|n|n] d]; simpl; try reflexivity.
  ring.
Qed.

(** One rounding of a number that is not negative. *)
Lemma round_nonneg_bounds (x : Q) :
  0 <= x →
  0 <= round x
  ∧ x - (unit_roundoff * x + tiny) <= round x
  ∧ round x <= x + (unit_roundoff * x + tiny).
Proof.
  intros Hx. unfold round. cbv zeta.
  pose proof (Qred_correct x) as Hred.
  destruct (Qred x) as [[|n|n] d] eqn:Hq; simpl.
  - assert (x == 0) as H0 by (rewrite <- Hred; reflexivity).
    unfold unit_roundoff, tiny. lra.
  - assert (0 < Z.pos n # d) as Hpos by reflexivity.
    destruct (round_pos_bounds _ Hpos) as (H1 & H2 & H3).
    unfold unit_roundoff, tiny in *. lra.
  - assert (Z.neg n # d < 0) as Hneg by reflexivity. lra.
Qed.

(** One rounding of a number that is not positive. *)
Lemma round_nonpos_bounds (x : Q) :
  x <= 0 →
  round x <= 0
  ∧ x - (unit_roundoff * (- x) + tiny) <= round x
  ∧ round x <= x + (unit_roundoff * (- x) + tiny).
Proof.
  intros Hx.
  assert (0 <= - x) as Hx' by lra.
  destruct (round_nonneg_bounds _ Hx') as (H1 & H2 & H3).
  rewrite round_opp in H1, H2, H3.
  unfold unit_roundoff, tiny in *. lra.
Qed.

Lemma round_0 (x : Q) : x == 0 → round x == 0.
Proof. intros H. by rewrite (round_comp x 0 H). Qed.

(** The rounding on numbers whose doubles are well known: [0.1], the sum
    [0.1 + 0.2], ties at the 53rd bit (to the even significand), the
    least subnormal and half of it. *)
Lemma round_examples :
  round (1 # 10) == 3602879701896397 # 36028797018963968
  ∧ add (round (1 # 10)) (round (2 # 10)) == 1351079888211149 # 4503599627370496
  ∧ round (inject_Z (2 ^ 53 + 1)) == inject_Z (2 ^ 53)
  ∧ round (inject_Z (2 ^ 53 + 3)) == inject_Z (2 ^ 53 + 4)
  ∧ round (pow2 (-1074)) == pow2 (-1074)
  ∧ round (pow2 (-1075)) == 0
  ∧ round (3 * pow2 (-1075)) == 2 * pow2 (-1074).
Proof. repeat split; vm_compute; reflexivity. Qed.

End Rounding64.

(** ** Sums of rounded amounts *)

Section Reconciliation64.

Import Shopify Binary64.

Local Open Scope Q_scope.

Lemma round_abs_bounds (x B : Q) :
  - B <= x → x <= B →
  x - (unit_roundoff * B + tiny) <= round x
  ∧ round x <= x + (unit_roundoff * B + tiny).
Proof.
  intros Hlo Hhi. destruct (Qlt_le_dec x 0) as [Hneg|Hpos].
  - destruct (round_nonpos_bounds x) as (_ & H1 & H2); [lra|].
    unfold unit_roundoff, tiny in *. lra.
  - destruct (round_nonneg_bounds x Hpos) as (_ & H1 & H2).
    unfold unit_roundoff, tiny in *. lra.
Qed.

Lemma Qmult_le_l_nonneg (a b c : Q) : 0 <= a → b <= c → a * b <= a * c.
Proof.
  intros Ha Hbc. assert (0 <= a * (c - b)) as H by (apply Qmult_le_0_compat; lra). lra.
Qed.

Lemma total_nonneg (ts : list Transaction) :
  Forall (λ t, 0 <= amount t) ts → 0 <= Shopify.total ts.
Proof.
  induction 1 as [|t ts Ht _ IH].
  - unfold Shopify.total. simpl. lra.
  - rewrite total_cons. lra.
Qed.

Lemma length_cons_Q {A} (x : A) (xs : list A) :
  inject_Z (Z.of_nat (length (x :: xs))) == 1 + inject_Z (Z.of_nat (length xs)).
Proof.
  cbn [length]. rewrite Nat2Z.inj_succ. unfold Z.succ. rewrite inject_Z_plus.
  change (inject_Z 1) with 1. ring.
Qed.

Lemma length_nonneg_Q {A} (xs : list A) : 0 <= inject_Z (Z.of_nat (length xs)).
Proof. change 0 with (inject_Z 0). rewrite <- Zle_Qle. lia. Qed.

(** The computed sum against the exact one: each of the [n] additions and
    conversions adds a relative error. *)
Lemma total_from64 (ts : list Transaction) (acc A k W : Q) :
  Forall (λ t, 0 <= amount t) ts →
  0 <= acc → 0 <= A → 0 <= k →
  A + Shopify.total ts <= W →
  2 * (k + inject_Z (Z.of_nat (length ts))) * unit_roundoff <= 1 →
  - (2 * k * (3 * (unit_roundoff * W + tiny))) <= acc - A →
  acc - A <= 2 * k * (3 * (unit_roundoff * W + tiny)) →
  let r := fold_left (λ sum t, add sum (Refund64.parseFloat (amount t))) ts acc in
  let n := k + inject_Z (Z.of_nat (length ts)) in
  0 <= r
  ∧ - (2 * n * (3 * (unit_roundoff * W + tiny))) <= r - (A + Shopify.total ts)
  ∧ r - (A + Shopify.total ts) <= 2 * n * (3 * (unit_roundoff * W + tiny)).
Proof.
  revert acc A k. induction ts as [|t ts IH]; intros acc A k Hts Hacc HA Hk HW Hn Hlo Hhi.
  - cbv zeta. unfold Shopify.total. cbn [fold_left length].
    change (inject_Z (Z.of_nat 0)) with 0.
    split; [done|]. unfold unit_roundoff, tiny in *. split; lra.
  - apply Forall_cons in Hts as [Ht Hts].
    pose proof (total_nonneg ts Hts) as HT.
    rewrite total_cons in HW. rewrite length_cons_Q in Hn.
    pose proof (length_nonneg_Q ts) as Hlen.
    cbn [fold_left]. cbv zeta.
    set (p := Refund64.parseFloat (amount t)).
    destruct (round_nonneg_bounds (amount t) Ht) as (Hp0 & Hp1 & Hp2).
    fold (Refund64.parseFloat (amount t)) in Hp0, Hp1, Hp2. fold p in Hp0, Hp1, Hp2.
    assert (0 <= acc + p) as Hsum by lra.
    destruct (round_nonneg_bounds (acc + p) Hsum) as (Ha0 & Ha1 & Ha2).
    fold (add acc p) in Ha0, Ha1, Ha2.
    set (w := 3 * (unit_roundoff * W + tiny)) in *.
    assert (0 <= w) as Hw by (unfold w, unit_roundoff, tiny; lra).
    assert (2 * k * unit_roundoff * w <= w) as Hkw.
    { assert (2 * k * unit_roundoff <= 1) by (unfold unit_roundoff in *; lra). nra. }
    assert (unit_roundoff * (2 * k * w) == 2 * k * unit_roundoff * w) as Hring by ring.
    destruct (IH (add acc p) (A + amount t) (k + 1)) as (Hr0 & Hr1 & Hr2); try done.
    + lra.
    + lra.
    + lra.
    + unfold unit_roundoff in *. lra.
    + fold w. unfold w, unit_roundoff, tiny in *. lra.
    + fold w. unfold w, unit_roundoff, tiny in *. lra.
    + cbv zeta in Hr0, Hr1, Hr2. fold w in Hr1, Hr2.
      split; [exact Hr0|].
      rewrite total_cons, length_cons_Q.
      split; lra.
Qed.

Lemma total64_bounds (ts : list Transaction) (W : Q) :
  Forall (λ t, 0 <= amount t) ts →
  (length ts <= 1000)%nat →
  Shopify.total ts <= W →
  0 <= Refund64.total ts
  ∧ - (6000 * (unit_roundoff * W + tiny)) <= Refund64.total ts - Shopify.total ts
  ∧ Refund64.total ts - Shopify.total ts <= 6000 * (unit_roundoff * W + tiny).
Proof.
  intros Hts Hlen HW.
  pose proof (total_nonneg ts Hts) as HT.
  pose proof (length_nonneg_Q ts) as Hn0.
  assert (inject_Z (Z.of_nat (length ts)) <= 1000) as Hn.
  { change 1000 with (inject_Z 1000). rewrite <- Zle_Qle. lia. }
  destruct (total_from64 ts 0 0 0 W) as (H0 & H1 & H2); try done; try lra.
  - unfold unit_roundoff. lra.
  - cbv zeta in H0, H1, H2. fold (Refund64.total ts) in H0, H1, H2.
    split; [exact H0|].
    set (w := 3 * (unit_roundoff * W + tiny)) in *.
    assert (0 <= w) as Hw by (unfold w, unit_roundoff, tiny; lra).
    assert (inject_Z (Z.of_nat (length ts)) * w <= 1000 * w) as Hnw by nra.
    unfold w, unit_roundoff, tiny in *. split; lra.
Qed.

Lemma amount_le_total (ts : list Transaction) (t : Transaction) :
  Forall (λ t, 0 <= amount t) ts → t ∈ ts → amount t <= Shopify.total ts.
Proof.
  induction 1 as [|t0 ts Ht0 Hts IH]; intros Hin.
  - by apply elem_of_nil in Hin.
  - rewrite total_cons. pose proof (total_nonneg ts Hts).
    apply elem_of_cons in Hin as [->|Hin]; [lra|]. specialize (IH Hin). lra.
Qed.

(** One scaled amount: its cents exceed the exact product by at most
    one, and the string printed is exactly those cents. *)
Lemma scaled_one_spec (c : Q) (t : Transaction) :
  0 <= c → c <= 300000000000 →
  0 <= amount t → amount t * c <= 2000000000 →
  let k := Refund64.scaled_cents c t in
  (0 <= k)%Z
  ∧ inject_Z k <= 100 * (amount t * c) + 1
  ∧ amount (Refund64.scaled_one c t) == inject_Z k / 100.
Proof.
  intros Hc0 Hc1 Ha Hac. cbv zeta.
  unfold Refund64.scaled_one, Refund64.scaled_cents, mul, div. cbv zeta. cbn [amount with_amount].
  destruct (round_nonneg_bounds (amount t) Ha) as (Hp0 & _ & Hp1).
  fold (Refund64.parseFloat (amount t)) in *.
  set (p := Refund64.parseFloat (amount t)) in *.
  assert (0 <= p * c) as Hpc0 by (by apply Qmult_le_0_compat).
  assert (c * p <= c * (amount t + (unit_roundoff * amount t + tiny))) as Hpc1
    by (by apply Qmult_le_l_nonneg).
  destruct (round_nonneg_bounds (p * c) Hpc0) as (Hm0 & _ & Hm1).
  set (amt := round (p * c)) in *.
  assert (0 <= amt * 100) as Hy0 by lra.
  destruct (round_nonneg_bounds (amt * 100) Hy0) as (Hy1 & _ & Hy2).
  set (y := round (amt * 100)) in *.
  pose proof (Math_round_nonneg y Hy1) as Hk0.
  assert (inject_Z (JS.Math_round y) <= y + (1 # 2)) as Hk1 by apply Qfloor_le.
  set (k := JS.Math_round y) in *.
  assert (inject_Z k <= 100 * (amount t * c) + 1) as Hk2.
  { clearbody k y amt p. unfold unit_roundoff, tiny in *. lra. }
  split; [exact Hk0|]. split; [exact Hk2|].
  assert (0 <= inject_Z k) as Hk0' by (change 0 with (inject_Z 0); by rewrite <- Zle_Qle).
  assert (0 <= inject_Z k / 100) as Hr0 by (by apply cents_nonneg).
  destruct (round_nonneg_bounds (inject_Z k / 100) Hr0) as (Hr1 & Hr2 & Hr3).
  set (r := round (inject_Z k / 100)) in *.
  assert (inject_Z k / 100 * 100 == inject_Z k) as Hx by field.
  set (x := inject_Z k / 100) in *.
  unfold JS.toFixed2, JS.gt.
  assert (Qle_bool 0 r = true) as -> by (by apply Qle_bool_iff).
  cbn [negb].
  assert (Qfloor (r * 100 + (1 # 2)) = k) as ->; [|reflexivity].
  apply Qfloor_unique.
  - clearbody r k x. unfold unit_roundoff, tiny in *. lra.
  - rewrite inject_Z_plus. change (inject_Z 1) with 1.
    clearbody r k x. unfold unit_roundoff, tiny in *. lra.
Qed.

Lemma scaled_list_spec (c : Q) (l : list Transaction) :
  0 <= c → c <= 300000000000 →
  Forall (λ t, 0 <= amount t ∧ amount t * c <= 2000000000) l →
  Forall (λ t', ∃ k : Z, (0 <= k)%Z ∧ amount t' == inject_Z k / 100)
         (map (Refund64.scaled_one c) l)
  ∧ 100 * Shopify.total (map (Refund64.scaled_one c) l)
    <= 100 * (c * Shopify.total l) + inject_Z (Z.of_nat (length l)).
Proof.
  intros Hc0 Hc1. induction 1 as [|t l [Ha Hac] Hl [IH1 IH2]].
  - split; [constructor|]. unfold Shopify.total. cbn [map fold_left length].
    change (inject_Z (Z.of_nat 0)) with 0. lra.
  - destruct (scaled_one_spec c t Hc0 Hc1 Ha Hac) as (Hk0 & Hk1 & Hk2).
    cbn [map]. split.
    + constructor; [eauto|exact IH1].
    + rewrite !total_cons, length_cons_Q, Hk2.
      assert (inject_Z (Refund64.scaled_cents c t) / 100 * 100
              == inject_Z (Refund64.scaled_cents c t)) as Hx by field.
      set (x := inject_Z (Refund64.scaled_cents c t) / 100) in *. clearbody x. lra.
Qed.

End Reconciliation64.

(** ** The scaling branch in binary64 *)

(** The manual amount [M] is positive and at most [10^9]; the suggested
    amounts are not negative, at most a thousand, and sum to at least one
    cent and at most [10^9]. *)

Section Scaling64.

Import Shopify Binary64.

Local Open Scope Q_scope.

Variables (M : Q) (ts : list Transaction).

Hypothesis HM0 : 0 < M.
Hypothesis HM1 : M <= 1000000000.
Hypothesis Hts : Forall (λ t, 0 <= amount t) ts.
Hypothesis HS0 : 1 # 100 <= Shopify.total ts.
Hypothesis HS1 : Shopify.total ts <= 1000000000.
Hypothesis Hlen : (length ts <= 1000)%nat.

(** The computed suggested total is the exact one up to a relative
    error of [10^-12]. *)
Lemma suggested_bounds :
  (1 - (1 # 1000000000000)) * Shopify.total ts <= Refund64.total ts
  ∧ Refund64.total ts <= (1 + (1 # 1000000000000)) * Shopify.total ts.
Proof.
  destruct (total64_bounds ts (Shopify.total ts) Hts Hlen) as (_ & H1 & H2); [lra|].
  unfold unit_roundoff, tiny in *. split; lra.
Qed.

(** The computed scale times the exact suggested total is the manual
    amount, nearly. *)
Lemma scale_bounds :
  0 <= Refund64.scale M ts
  ∧ Refund64.scale M ts <= 300000000000
  ∧ Refund64.scale M ts * Shopify.total ts <= (1 + (1 # 100000000000)) * M + tiny * 10000000000.
Proof.
  destruct suggested_bounds as [HS'0 HS'1].
  unfold Refund64.scale, div.
  set (S' := Refund64.total ts) in *. set (S := Shopify.total ts) in *.
  assert (0 < S') as HS'pos by lra.
  set (q := M / S').
  assert (q * S' == M) as Hq by (unfold q; field; lra).
  assert (0 <= q) as Hq0 by (apply Qle_shift_div_l; [exact HS'pos|lra]).
  destruct (round_nonneg_bounds q Hq0) as (Hc0 & Hc1 & Hc2).
  set (c := round q) in *. clearbody c q S S'.
  assert (1 # 200 <= S') as HS'lo by lra.
  assert (S <= (1 + (1 # 1000000000000)) * S' + (1 # 1000000000000) * S') as HSS' by lra.
  assert (q <= 200 * M) as Hq1.
  { pose proof (Qmult_le_l_nonneg q (1 # 200) S' Hq0 HS'lo). lra. }
  split; [exact Hc0|]. split.
  - unfold unit_roundoff, tiny in *. lra.
  - assert (c * S <= c * ((1 + (2 # 1000000000000)) * S')) as H1
      by (apply Qmult_le_l_nonneg; lra).
    assert (S' * c <= S' * (q + (unit_roundoff * q + tiny))) as H2
      by (apply Qmult_le_l_nonneg; lra).
    assert (S' <= 2000000000) as HS'hi by lra.
    unfold unit_roundoff, tiny in *. lra.
Qed.

(** Every scaled amount is a whole number of cents, and the scaled
    amounts sum to little more than the manual amount. *)
Lemma scaled_spec :
  Forall (λ t', ∃ k : Z, (0 <= k)%Z ∧ amount t' == inject_Z k / 100) (Refund64.scaled M ts)
  ∧ Shopify.total (Refund64.scaled M ts) <= M + 11.
Proof.
  destruct scale_bounds as (Hc0 & Hc1 & Hc2).
  unfold Refund64.scaled. set (c := Refund64.scale M ts) in *.
  pose proof (length_nonneg_Q ts) as Hn0.
  assert (inject_Z (Z.of_nat (length ts)) <= 1000) as Hn.
  { change 1000 with (inject_Z 1000). rewrite <- Zle_Qle. lia. }
  destruct (scaled_list_spec c ts Hc0 Hc1) as [H1 H2].
  - apply Forall_forall. intros t Ht.
    pose proof (proj1 (Forall_forall _ _) Hts t Ht) as Ha. simpl in Ha.
    pose proof (amount_le_total ts t Hts Ht) as Hle.
    split; [exact Ha|].
    pose proof (Qmult_le_l_nonneg c _ _ Hc0 Hle).
    clearbody c. unfold tiny in *. lra.
  - split; [exact H1|]. clearbody c. unfold tiny in *. lra.
Qed.

Lemma scaled_nonneg64 : Forall (λ t, 0 <= amount t) (Refund64.scaled M ts).
Proof.
  eapply Forall_impl; [exact (proj1 scaled_spec)|].
  intros t (k & Hk & ->). by apply cents_nonneg.
Qed.

(** The computed new total against the exact sum of the scaled amounts. *)
Lemma newTotal_bounds :
  0 <= Refund64.total (Refund64.scaled M ts)
  ∧ Shopify.total (Refund64.scaled M ts) - (7 # 10000)
    <= Refund64.total (Refund64.scaled M ts)
  ∧ Refund64.total (Refund64.scaled M ts)
    <= Shopify.total (Refund64.scaled M ts) + (7 # 10000).
Proof.
  destruct scaled_spec as [_ HT].
  destruct (total64_bounds (Refund64.scaled M ts) (M + 11) scaled_nonneg64)
    as (H0 & H1 & H2).
  - unfold Refund64.scaled. by rewrite length_map.
  - exact HT.
  - unfold unit_roundoff, tiny in *. split; [exact H0|]. split; lra.
Qed.

(** The number that [Math.round] sees when the residual is computed is
    the exact residual in cents, up to a tenth of a cent. *)
Lemma residual_bounds :
  let y := mul (sub M (Refund64.total (Refund64.scaled M ts))) 100 in
  100 * (M - Shopify.total (Refund64.scaled M ts)) - (1 # 10) <= y
  ∧ y <= 100 * (M - Shopify.total (Refund64.scaled M ts)) + (1 # 10).
Proof.
  destruct scaled_spec as [_ HT]. destruct newTotal_bounds as (HN0 & HN1 & HN2).
  pose proof (total_nonneg _ scaled_nonneg64) as HT0.
  cbv zeta. unfold mul, sub.
  set (T := Shopify.total (Refund64.scaled M ts)) in *.
  set (N := Refund64.total (Refund64.scaled M ts)) in *.
  destruct (round_abs_bounds (M - N) 3000000000) as [Hs1 Hs2]; [lra|lra|].
  set (x := round (M - N)) in *.
  destruct (round_abs_bounds (x * 100) 400000000000) as [Hy1 Hy2].
  - clearbody x. unfold unit_roundoff, tiny in *. lra.
  - clearbody x. unfold unit_roundoff, tiny in *. lra.
  - set (y := round (x * 100)) in *. clearbody y x T N.
    unfold unit_roundoff, tiny in *. split; lra.
Qed.

Lemma Math_round_bounds (y : Q) :
  y - (1 # 2) < inject_Z (JS.Math_round y) ∧ inject_Z (JS.Math_round y) <= y + (1 # 2).
Proof.
  unfold JS.Math_round. pose proof (Qfloor_le (y + (1 # 2))) as H1.
  pose proof (Qlt_floor (y + (1 # 2))) as H2.
  rewrite inject_Z_plus in H2. change (inject_Z 1) with 1 in H2. split; lra.
Qed.

(** The residual in cents. *)
Lemma diff_cents_bounds :
  100 * (M - Shopify.total (Refund64.scaled M ts)) - (6 # 10)
    < inject_Z (Refund64.diff_cents M ts)
  ∧ inject_Z (Refund64.diff_cents M ts)
    <= 100 * (M - Shopify.total (Refund64.scaled M ts)) + (6 # 10).
Proof.
  destruct residual_bounds as [H1 H2]. cbv zeta in H1, H2.
  unfold Refund64.diff_cents. cbv zeta.
  destruct (Math_round_bounds
              (mul (sub M (Refund64.total (Refund64.scaled M ts))) 100)) as [H3 H4].
  split; lra.
Qed.

(** When the manual amount is the double of a whole number of cents,
    the residual is exact. *)
Lemma diff_cents_exact (j K : Z) :
  M == round (inject_Z j / 100) →
  100 * Shopify.total (Refund64.scaled M ts) == inject_Z K →
  Refund64.diff_cents M ts = (j - K)%Z.
Proof.
  intros HMj HK.
  destruct residual_bounds as [H1 H2]. cbv zeta in H1, H2.
  unfold Refund64.diff_cents, JS.Math_round. cbv zeta.
  set (y := mul (sub M (Refund64.total (Refund64.scaled M ts))) 100) in *.
  assert (inject_Z j / 100 * 100 == inject_Z j) as Hx by field.
  set (x := inject_Z j / 100) in *.
  assert (0 <= x) as Hx0.
  { apply Qnot_lt_le. intros Hneg.
    destruct (round_nonpos_bounds x) as (H & _); [lra|]. lra. }
  destruct (round_nonneg_bounds x Hx0) as (_ & Hr1 & Hr2).
  rewrite <- HMj in Hr1, Hr2.
  apply Qfloor_unique.
  - unfold Z.sub. rewrite inject_Z_plus, inject_Z_opp.
    clearbody y x. unfold unit_roundoff, tiny in *. lra.
  - replace (j - K + 1)%Z with (j + - K + 1)%Z by lia.
    rewrite !inject_Z_plus, inject_Z_opp. change (inject_Z 1) with 1.
    clearbody y x. unfold unit_roundoff, tiny in *. lra.
Qed.

(** The residual is zero only when its cents are. *)
Lemma diff_zero : Refund64.diff M ts == 0 → Refund64.diff_cents M ts = 0%Z.
Proof.
  unfold Refund64.diff, div. intros Hz.
  set (d := Refund64.diff_cents M ts) in *.
  assert (inject_Z d / 100 * 100 == inject_Z d) as Hx by field.
  set (x := inject_Z d / 100) in *.
  destruct (Z.lt_trichotomy d 0) as [Hneg|[Hzero|Hpos]]; [|exact Hzero|].
  - exfalso. assert (inject_Z d <= -1) as Hd.
    { change (-1) with (inject_Z (-1)). rewrite <- Zle_Qle. lia. }
    destruct (round_nonpos_bounds x) as (_ & _ & H); [lra|].
    clearbody x d. unfold unit_roundoff, tiny in *. lra.
  - exfalso. assert (1 <= inject_Z d) as Hd.
    { change 1 with (inject_Z 1). rewrite <- Zle_Qle. lia. }
    destruct (round_nonneg_bounds x) as (_ & H & _); [lra|].
    clearbody x d. unfold unit_roundoff, tiny in *. lra.
Qed.

(** The corrected first amount, in cents, is the sum of the cents of the
    first scaled amount and of the residual, up to a tenth of a cent. *)
Lemma first_bounds (s0 : Transaction) (rest : list Transaction) :
  Refund64.scaled M ts = s0 :: rest →
  100 * amount s0 + inject_Z (Refund64.diff_cents M ts) - (1 # 10)
    <= 100 * Refund64.first M ts
  ∧ 100 * Refund64.first M ts
    <= 100 * amount s0 + inject_Z (Refund64.diff_cents M ts) + (1 # 10).
Proof.
  intros Hsc.
  destruct scaled_spec as [_ HT]. destruct diff_cents_bounds as [Hd1 Hd2].
  pose proof scaled_nonneg64 as Hnn. pose proof (total_nonneg _ Hnn) as HT0.
  unfold Refund64.first, Refund64.diff, add, div, Refund64.parseFloat.
  rewrite Hsc in *. rewrite total_cons in *.
  apply Forall_cons in Hnn as [Ha0 Hrest]. pose proof (total_nonneg _ Hrest) as HR0.
  set (d := Refund64.diff_cents M ts) in *.
  assert (inject_Z d / 100 * 100 == inject_Z d) as Hx by field.
  set (x := inject_Z d / 100) in *.
  destruct (round_nonneg_bounds (amount s0) Ha0) as (Hp0 & Hp1 & Hp2).
  set (p := round (amount s0)) in *.
  destruct (round_abs_bounds x 3000000000) as [Hr1 Hr2]; [lra|lra|].
  set (dd := round x) in *.
  destruct (round_abs_bounds (p + dd) 5000000000) as [Hf1 Hf2].
  - clearbody p dd x d. unfold unit_roundoff, tiny in *. lra.
  - clearbody p dd x d. unfold unit_roundoff, tiny in *. lra.
  - set (f := round (p + dd)) in *. clearbody f p dd x d.
    unfold unit_roundoff, tiny in *. split; lra.
Qed.

(** When the cents of the first scaled amount and of the residual cancel,
    so do the doubles: the corrected first amount is exactly zero. *)
Lemma first_cancel (s0 : Transaction) (rest : list Transaction) (k0 : Z) :
  Refund64.scaled M ts = s0 :: rest →
  amount s0 == inject_Z k0 / 100 →
  (k0 + Refund64.diff_cents M ts = 0)%Z →
  Refund64.first M ts == 0.
Proof.
  intros Hsc Hk0 Hsum.
  unfold Refund64.first, Refund64.diff, add, div, Refund64.parseFloat. rewrite Hsc.
  assert (inject_Z (Refund64.diff_cents M ts) / 100 == - amount s0) as Hopp.
  { replace (Refund64.diff_cents M ts) with (- k0)%Z by lia.
    rewrite inject_Z_opp, Hk0. field. }
  rewrite (round_comp _ _ Hopp).
  apply round_0. rewrite round_opp. ring.
Qed.

Hypothesis Hguard : round (1 # 1000) < Qabs (sub M (Refund64.total ts)).

(** Under the guards the scaling branch runs. *)
Lemma reconcile64_scales :
  Refund64.reconcile (Some M) ts =
    match Refund64.scaled M ts with
    | s0 :: rest =>
        if negb (Qeq_bool (Refund64.diff M ts) 0)
        then with_amount s0 (JS.toFixed2 (JS.Math_max 0 (Refund64.first M ts))) :: rest
        else s0 :: rest
    | [] => []
    end.
Proof.
  destruct suggested_bounds as [HS'0 _].
  unfold Refund64.reconcile, JS.gt, JS.Math_abs.
  assert (Qle_bool M 0 = false) as ->.
  { apply not_true_is_false. rewrite Qle_bool_iff. lra. }
  assert (Qle_bool (Refund64.total ts) 0 = false) as ->.
  { apply not_true_is_false. rewrite Qle_bool_iff. lra. }
  assert (Qle_bool (Qabs (sub M (Refund64.total ts))) (round (1 # 1000)) = false) as ->.
  { apply not_true_is_false. rewrite Qle_bool_iff. lra. }
  destruct ts as [|t l]; [|reflexivity].
  unfold Shopify.total in HS0. simpl in HS0. lra.
Qed.

(** The exact sum of the amounts sent, in cents: the scaled cents plus
    the residual when the clamp leaves the first amount alone, at least
    one cent more when it binds. *)
Lemma reconcile64_sum :
  (0 <= Refund64.first M ts →
   100 * Shopify.total (Refund64.reconcile (Some M) ts)
   == 100 * Shopify.total (Refund64.scaled M ts) + inject_Z (Refund64.diff_cents M ts))
  ∧ (Refund64.first M ts < 0 →
     100 * Shopify.total (Refund64.scaled M ts) + inject_Z (Refund64.diff_cents M ts) + 1
     <= 100 * Shopify.total (Refund64.reconcile (Some M) ts)).
Proof.
  rewrite reconcile64_scales.
  destruct scaled_spec as [Hcents _].
  destruct (Refund64.scaled M ts) as [|s0 rest] eqn:Hsc.
  { destruct ts; [unfold Shopify.total in HS0; simpl in HS0; lra | discriminate]. }
  destruct (first_bounds s0 rest Hsc) as [Hf1 Hf2].
  apply Forall_cons in Hcents as [(k0 & Hk0 & Ha0) _].
  assert (amount s0 * 100 == inject_Z k0) as Ha0' by (rewrite Ha0; field).
  destruct (Qeq_bool (Refund64.diff M ts) 0) eqn:Hz; cbn [negb].
  - apply Qeq_bool_eq in Hz. rewrite (diff_zero Hz) in *.
    change (inject_Z 0) with 0 in *. split; [intros _; ring|].
    intros Hneg. exfalso.
    unfold Refund64.first in Hneg. rewrite Hsc in Hneg. unfold add in Hneg.
    assert (0 <= amount s0) as Hs0 by (rewrite Ha0; by apply cents_nonneg).
    destruct (round_nonneg_bounds (amount s0) Hs0) as (Hp0 & _).
    fold (Refund64.parseFloat (amount s0)) in Hp0.
    destruct (round_nonneg_bounds (Refund64.parseFloat (amount s0) + Refund64.diff M ts))
      as (H & _); lra.
  - rewrite !total_cons. cbn [amount with_amount]. unfold JS.Math_max. split.
    + intros Hpos.
      assert (Qle_bool 0 (Refund64.first M ts) = true) as -> by (by apply Qle_bool_iff).
      unfold JS.toFixed2, JS.gt.
      assert (Qle_bool 0 (Refund64.first M ts) = true) as -> by (by apply Qle_bool_iff).
      cbn [negb].
      assert (Qfloor (Refund64.first M ts * 100 + (1 # 2))
              = (k0 + Refund64.diff_cents M ts)%Z) as ->.
      { apply Qfloor_unique.
        - rewrite inject_Z_plus. lra.
        - rewrite !inject_Z_plus. change (inject_Z 1) with 1. lra. }
      rewrite inject_Z_plus. field_simplify. lra.
    + intros Hneg.
      assert (Qle_bool 0 (Refund64.first M ts) = false) as ->.
      { apply not_true_is_false. rewrite Qle_bool_iff. lra. }
      assert (JS.toFixed2 0 == 0) as -> by reflexivity.
      assert (k0 + Refund64.diff_cents M ts <= -1)%Z as Hle.
      { assert (k0 + Refund64.diff_cents M ts < 1)%Z as Hlt.
        { rewrite Zlt_Qlt, inject_Z_plus. change (inject_Z 1) with 1. lra. }
        assert (k0 + Refund64.diff_cents M ts ≠ 0)%Z as Hne.
        { intros H0. pose proof (first_cancel s0 rest k0 Hsc Ha0 H0). lra. }
        lia. }
      rewrite Zle_Qle, inject_Z_plus in Hle. change (inject_Z (-1)) with (-1) in Hle.
      lra.
Qed.

End Scaling64.

(** ** What the adjusted transactions sum to *)

Section RefundSums.

Import Shopify Spec.

Local Open Scope Q_scope.

(** C1, as amended.  The kept suggested amounts are not negative, at
    most a thousand, and sum to [S] with [0.01 <= S <= 10^9]; the manual
    amount [M] has [0 < M <= 10^9]; the guard [|M - S| > 0.001] holds as
    the code computes it; and the corrected first amount is not negative,
    so that the clamp [Math.max(0, first)] leaves it alone.  Then the
    amounts sent are whole cents whose exact sum is within 0.006 of [M]:
    it is [M] rounded to cents, where a manual amount within a tenth of a
    cent of a half cent may go to either neighbour.  When [M] is the double
    of an amount with two decimals, the sum is that amount exactly.
    [Shopify.total] is the exact sum of the decimals of the amounts. *)
Theorem refund_scaling_sum (M : Q) (ts : list Transaction) :
  0 < M → M <= 1000000000 →
  Forall (λ t, 0 <= amount t) ts →
  1 # 100 <= Shopify.total ts → Shopify.total ts <= 1000000000 →
  (length ts <= 1000)%nat →
  Binary64.round (1 # 1000) < Qabs (Binary64.sub M (Refund64.total ts)) →
  0 <= Refund64.first M ts →
  cents (Shopify.total (Refund64.reconcile (Some M) ts))
  ∧ Qabs (Shopify.total (Refund64.reconcile (Some M) ts) - M) <= 6 # 1000
  ∧ ∀ j : Z, M == Binary64.round (inject_Z j / 100) →
      Shopify.total (Refund64.reconcile (Some M) ts) == inject_Z j / 100.
Proof.
  intros HM0 HM1 Hts HS0 HS1 Hlen Hguard Hfirst.
  destruct (reconcile64_sum M ts HM0 HM1 Hts HS0 HS1 Hlen Hguard) as [Hsum _].
  specialize (Hsum Hfirst).
  destruct (diff_cents_bounds M ts HM0 HM1 Hts HS0 HS1 Hlen) as [Hd1 Hd2].
  destruct (scaled_spec M ts HM0 HM1 Hts HS0 HS1 Hlen) as [Hcents _].
  assert (cents (Shopify.total (Refund64.scaled M ts))) as [K HK].
  { apply total_cents. eapply Forall_impl; [exact Hcents|].
    intros t (k & _ & Hk). by exists k. }
  assert (100 * Shopify.total (Refund64.scaled M ts) == inject_Z K) as HK'
    by (rewrite HK; field).
  set (sent := Shopify.total (Refund64.reconcile (Some M) ts)) in *.
  set (T := Shopify.total (Refund64.scaled M ts)) in *.
  split; [|split].
  - exists (K + Refund64.diff_cents M ts)%Z. rewrite inject_Z_plus, <- HK', <- Hsum. field.
  - apply Qabs_Qle_condition. clearbody sent T. split; lra.
  - intros j Hj.
    rewrite (diff_cents_exact M ts HM0 HM1 Hts HS0 HS1 Hlen j K Hj HK') in Hsum.
    unfold Z.sub in Hsum. rewrite inject_Z_plus, inject_Z_opp in Hsum.
    assert (100 * sent == inject_Z j) as H by lra.
    rewrite <- H. field.
Qed.

(** The theorem at 100.00 suggested in three transactions and a manual
    amount of 10.00. *)
Lemma refund_scaling_sum_witness :
  cents (Shopify.total (Refund64.reconcile (Some 10) Fixtures.thirds))
  ∧ Qabs (Shopify.total (Refund64.reconcile (Some 10) Fixtures.thirds) - 10) <= 6 # 1000
  ∧ Shopify.total (Refund64.reconcile (Some 10) Fixtures.thirds) == inject_Z 1000 / 100.
Proof.
  assert (0 < 10) as HM0 by reflexivity.
  assert (10 <= 1000000000) as HM1 by discriminate.
  assert (Forall (λ t, 0 <= amount t) Fixtures.thirds) as Hts
    by (repeat constructor; discriminate).
  assert (1 # 100 <= Shopify.total Fixtures.thirds) as HS0 by (vm_compute; congruence).
  assert (Shopify.total Fixtures.thirds <= 1000000000) as HS1 by (vm_compute; congruence).
  assert (length Fixtures.thirds <= 1000)%nat as Hlen by (simpl; lia).
  assert (Binary64.round (1 # 1000)
          < Qabs (Binary64.sub 10 (Refund64.total Fixtures.thirds))) as Hguard
    by (vm_compute; reflexivity).
  assert (0 <= Refund64.first 10 Fixtures.thirds) as Hfirst by (vm_compute; congruence).
  destruct (refund_scaling_sum 10 Fixtures.thirds HM0 HM1 Hts HS0 HS1 Hlen Hguard Hfirst)
    as (H1 & H2 & H3).
  split; [exact H1|]. split; [exact H2|].
  apply (H3 1000%Z). vm_compute. reflexivity.
Defined.

(** C1 as stated fails: five suggested transactions of 0.01 and a manual
    amount of 0.03.  Each amount scaled by 0.6 rounds back to 0.01, the
    scaled total is 0.05, the residual is -0.02, and the first amount,
    0.01 - 0.02, is clamped at 0.00: the sum is 0.04.  The guards hold
    both on the exact values and as the code computes them. *)
Lemma refund_scaling_sum_clamped :
  0 < Shopify.total Fixtures.five_cents
  ∧ 0 < Refund64.total Fixtures.five_cents
  ∧ 0 < Binary64.round (3 # 100)
  ∧ 1 # 1000 < Qabs ((3 # 100) - Shopify.total Fixtures.five_cents)
  ∧ Binary64.round (1 # 1000)
    < Qabs (Binary64.sub (Binary64.round (3 # 100)) (Refund64.total Fixtures.five_cents))
  ∧ map amount (Refund64.reconcile (Some (Binary64.round (3 # 100))) Fixtures.five_cents)
    = map JS.toFixed2 [0; 1 # 100; 1 # 100; 1 # 100; 1 # 100]
  ∧ Shopify.total (Refund64.reconcile (Some (Binary64.round (3 # 100))) Fixtures.five_cents)
    == 4 # 100
  ∧ ¬ Shopify.total (Refund64.reconcile (Some (Binary64.round (3 # 100))) Fixtures.five_cents)
      == round2 (3 # 100)
  ∧ ¬ Shopify.total (Refund64.reconcile (Some (Binary64.round (3 # 100))) Fixtures.five_cents)
      == 3 # 100.
Proof.
  repeat split; try (vm_compute; congruence).
Qed.

(** Why the sum is not always [M] rounded half up: a manual amount of
    0.125 on one suggested transaction of 1.00.  The scaled amount is
    0.13, and [(0.125 - 0.13) * 100] is just below -0.5 in binary64, so
    the residual is -0.01 and 0.12 is sent. *)
Lemma refund_scaling_tie :
  map amount (Refund64.reconcile (Some (Binary64.round (125 # 1000))) [Fixtures.tx 1])
  = map JS.toFixed2 [12 # 100]
  ∧ round2 (125 # 1000) == 13 # 100.
Proof. split; vm_compute; reflexivity. Qed.

Lemma scaled_one_nonneg (c : Q) (t : Transaction) :
  0 <= c → 0 <= amount t → 0 <= amount (Refund64.scaled_one c t).
Proof.
  intros Hc Ha. unfold Refund64.scaled_one, Refund64.scaled_cents. cbv zeta.
  cbn [amount with_amount].
  apply toFixed2_nonneg.
  apply (round_nonneg_bounds (inject_Z _ / 100)), cents_nonneg, Math_round_nonneg.
  apply (round_nonneg_bounds (_ * 100)).
  apply Qmult_le_0_compat; [|discriminate].
  apply (round_nonneg_bounds (_ * c)).
  apply Qmult_le_0_compat; [|exact Hc].
  by apply (round_nonneg_bounds (amount t)).
Qed.

(** X29.  What X1 and X2 say of the exact embedding holds of the block in
    binary64, for every manual amount and every list of transactions: the
    transactions sent are the kept ones in number, order, parent reference
    and gateway, and when no suggested amount is negative no amount sent
    is. *)
Theorem reconcile64_shape (manual : option Q) (ts : list Transaction) :
  map parent_id (Refund64.reconcile manual ts) = map parent_id ts
  ∧ map gateway (Refund64.reconcile manual ts) = map gateway ts
  ∧ length (Refund64.reconcile manual ts) = length ts
  ∧ (Forall (λ t, 0 <= amount t) ts →
     Forall (λ t, 0 <= amount t) (Refund64.reconcile manual ts)).
Proof.
  assert (map parent_id (Refund64.reconcile manual ts) = map parent_id ts
          ∧ map gateway (Refund64.reconcile manual ts) = map gateway ts
          ∧ (Forall (λ t, 0 <= amount t) ts →
             Forall (λ t, 0 <= amount t) (Refund64.reconcile manual ts)))
    as (Hp & Hg & Hnn).
  { unfold Refund64.reconcile. destruct manual as [m|]; [|done].
    destruct (JS.gt m 0 && _) eqn:Hg1; [|done].
    destruct (JS.gt (Refund64.total ts) 0 && _) eqn:Hg2; [|done].
    apply andb_true_iff in Hg1 as [Hm _]. apply andb_true_iff in Hg2 as [HS _].
    unfold JS.gt in Hm, HS. apply negb_true_iff in Hm, HS.
    assert (0 < m) as Hm'.
    { apply Qnot_le_lt. intros H. apply Qle_bool_iff in H. congruence. }
    assert (0 < Refund64.total ts) as HS'.
    { apply Qnot_le_lt. intros H. apply Qle_bool_iff in H. congruence. }
    assert (0 <= Refund64.scale m ts) as Hc.
    { unfold Refund64.scale, Binary64.div. apply (round_nonneg_bounds (m / _)).
      apply Qle_shift_div_l; [exact HS'|]. lra. }
    assert (map parent_id (Refund64.scaled m ts) = map parent_id ts) as Hp
      by (unfold Refund64.scaled; rewrite map_map; reflexivity).
    assert (map gateway (Refund64.scaled m ts) = map gateway ts) as Hg
      by (unfold Refund64.scaled; rewrite map_map; reflexivity).
    assert (Forall (λ t, 0 <= amount t) ts →
            Forall (λ t, 0 <= amount t) (Refund64.scaled m ts)) as Hnn.
    { intros Hts. unfold Refund64.scaled. apply Forall_map.
      eapply Forall_impl; [exact Hts|]. intros t Ht. by apply scaled_one_nonneg. }
    destruct (Refund64.scaled m ts) as [|s0 rest]; [done|].
    destruct (negb _); [|done].
    split; [done|]. split; [done|]. intros Hts.
    specialize (Hnn Hts). apply Forall_cons in Hnn as [_ Hrest].
    apply Forall_cons. split; [|done].
    simpl. apply toFixed2_nonneg, Math_max_0_nonneg. }
  split; [done|]. split; [done|]. split; [|done].
  by rewrite <- (length_map parent_id), Hp, length_map.
Qed.

Lemma reconcile64_shape_witness :
  Forall (λ t, 0 <= amount t)
    (Refund64.reconcile (Some (Binary64.round (3 # 100))) Fixtures.five_cents).
Proof.
  apply (reconcile64_shape (Some (Binary64.round (3 # 100))) Fixtures.five_cents).
  repeat constructor; discriminate.
Defined.

(** X3.  Under the same bounds and the guard of the scaling, clamped or
    not, the amounts sent never sum to a cent less than the manual
    amount; when the clamp binds (the corrected first amount is negative)
    they sum to more than the manual amount. *)
Theorem refund_never_short (M : Q) (ts : list Transaction) :
  0 < M → M <= 1000000000 →
  Forall (λ t, 0 <= amount t) ts →
  1 # 100 <= Shopify.total ts → Shopify.total ts <= 1000000000 →
  (length ts <= 1000)%nat →
  Binary64.round (1 # 1000) < Qabs (Binary64.sub M (Refund64.total ts)) →
  M - (1 # 100) < Shopify.total (Refund64.reconcile (Some M) ts)
  ∧ (Refund64.first M ts < 0 → M < Shopify.total (Refund64.reconcile (Some M) ts)).
Proof.
  intros HM0 HM1 Hts HS0 HS1 Hlen Hguard.
  destruct (reconcile64_sum M ts HM0 HM1 Hts HS0 HS1 Hlen Hguard) as [Hpos Hneg].
  destruct (diff_cents_bounds M ts HM0 HM1 Hts HS0 HS1 Hlen) as [Hd1 Hd2].
  set (sent := Shopify.total (Refund64.reconcile (Some M) ts)) in *.
  set (T := Shopify.total (Refund64.scaled M ts)) in *.
  destruct (Qlt_le_dec (Refund64.first M ts) 0) as [Hf|Hf].
  - specialize (Hneg Hf). clearbody sent T. split; [lra|]. intros _. lra.
  - specialize (Hpos Hf). clearbody sent T. split; [lra|]. intros Hf'. lra.
Qed.

(** The clamp binds on five transactions of 0.01 and a manual amount of
    0.03. *)
Lemma refund_never_short_witness :
  Binary64.round (3 # 100)
  < Shopify.total (Refund64.reconcile (Some (Binary64.round (3 # 100))) Fixtures.five_cents).
Proof.
  assert (0 < Binary64.round (3 # 100)) as HM0 by (vm_compute; reflexivity).
  assert (Binary64.round (3 # 100) <= 1000000000) as HM1 by (vm_compute; congruence).
  assert (Forall (λ t, 0 <= amount t) Fixtures.five_cents) as Hts
    by (repeat constructor; discriminate).
  assert (1 # 100 <= Shopify.total Fixtures.five_cents) as HS0 by (vm_compute; congruence).
  assert (Shopify.total Fixtures.five_cents <= 1000000000) as HS1
    by (vm_compute; congruence).
  assert (length Fixtures.five_cents <= 1000)%nat as Hlen by (simpl; lia).
  assert (Binary64.round (1 # 1000)
          < Qabs (Binary64.sub (Binary64.round (3 # 100))
                    (Refund64.total Fixtures.five_cents))) as Hguard
    by (vm_compute; reflexivity).
  apply (refund_never_short _ _ HM0 HM1 Hts HS0 HS1 Hlen Hguard).
  vm_compute. reflexivity.
Defined.

End RefundSums.

(** ** What [executeRefund] sends, and full refunds as partial ones *)

Section RefundRequests.

Import Shopify Spec.

Implicit Types (p : Provider) (order : ShopifyOrder).

(** A refund that went through was calculated by the provider; what was
    sent carries none of the identity and time fields of the calculated
    payload and nothing that was not in it; its transactions are left out
    exactly when no calculated transaction was complete, and otherwise
    are the complete ones, one for one. *)
Theorem executeRefund_sent p (orderId : Z) order
    (items : list RefundLineItemInput) (note : option string) (manual : option Q)
    (created : CreateRefund) :
  executeRefund p orderId order items note manual = Ok created →
  ∃ payload,
    refunds_calculate p orderId
      {| calc_currency := currency order; calc_refund_line_items := items;
         calc_note := default default_note note |} = ResOk (Some payload)
    ∧ refunds_create p orderId created = ResOk ()
    ∧ (∀ k v, (k, v) ∈ create_rest created →
              (k, v) ∈ payload_rest payload
              ∧ k ∉ ["id"; "order_id"; "created_at"; "processed_at"]%string)
    ∧ match create_transactions created with
      | Some ts =>
          ts ≠ []
          ∧ map parent_id ts = map parent_id (keep (payload_transactions payload))
          ∧ map gateway ts = map gateway (keep (payload_transactions payload))
      | None => keep (payload_transactions payload) = []
      end.
Proof.
  unfold executeRefund.
  destruct (refunds_calculate _ _ _) as [[payload|]|status text] eqn:Hcalc; try done.
  destruct (refunds_create _ _ _) as [[]|status text] eqn:Hcreate; [|done].
  intros [= <-]. exists payload. split; [done|]. split; [done|]. split.
  - intros k v Hkv. simpl in Hkv. apply list_elem_of_filter in Hkv as [Hkeep Hin].
    split; [done|]. simpl in Hkeep. intros Hk.
    apply negb_prop_elim in Hkeep. apply Hkeep. unfold removed_key.
    repeat (apply elem_of_cons in Hk as [->|Hk]; [done|]).
    by apply elem_of_nil in Hk.
  - simpl.
    destruct (reconcile_same_shape manual (keep (payload_transactions payload)))
      as (Hp & Hg).
    destruct (reconcile manual (keep (payload_transactions payload))) as [|t ts] eqn:Hrec.
    + simpl. destruct (keep _); [done|discriminate].
    + simpl. done.
Qed.

Lemma executeRefund_sent_witness :
  ∃ payload,
    refunds_calculate Fixtures.shop 5001
      {| calc_currency := currency Fixtures.order1001;
         calc_refund_line_items := [];
         calc_note := default default_note None |} = ResOk (Some payload)
    ∧ refunds_create Fixtures.shop 5001
        {| create_note := default_note;
           create_transactions := Some [Fixtures.tx (20 # 1)];
           create_rest := [("currency", "INR")%string] |} = ResOk ()
    ∧ (∀ k v, (k, v) ∈ [("currency", "INR")%string] →
              (k, v) ∈ payload_rest payload
              ∧ k ∉ ["id"; "order_id"; "created_at"; "processed_at"]%string)
    ∧ [Fixtures.tx (20 # 1)] ≠ []
      ∧ map parent_id [Fixtures.tx (20 # 1)]
        = map parent_id (keep (payload_transactions payload))
      ∧ map gateway [Fixtures.tx (20 # 1)]
        = map gateway (keep (payload_transactions payload)).
Proof.
  apply (executeRefund_sent Fixtures.shop 5001 Fixtures.order1001 [] None None
           {| create_note := default_note;
              create_transactions := Some [Fixtures.tx (20 # 1)];
              create_rest := [("currency", "INR")%string] |}).
  reflexivity.
Defined.

Lemma byId_from_other (lis : list ShopifyLineItem) (ids : gmap Z ShopifyLineItem) (k : Z) :
  (∀ li, li ∈ lis → li_id li ≠ k) →
  fold_left (λ m li, <[li_id li := li]> m) lis ids !! k = ids !! k.
Proof.
  revert ids. induction lis as [|li0 lis IH]; intros ids Hother; simpl; [done|].
  rewrite IH.
  - apply lookup_insert_ne, Hother, elem_of_cons. by left.
  - intros li Hli. apply Hother, elem_of_cons. by right.
Qed.

(** With distinct ids the map gives back each line item of the order. *)
Lemma byId_NoDup order (li : ShopifyLineItem) :
  NoDup (li_id <$> line_items order) → li ∈ line_items order →
  byId (line_items order) !! li_id li = Some li.
Proof.
  unfold byId. generalize (∅ : gmap Z ShopifyLineItem).
  induction (line_items order) as [|li0 lis IH]; intros ids Hnd Hin.
  - by apply elem_of_nil in Hin.
  - simpl. rewrite fmap_cons in Hnd. apply NoDup_cons in Hnd as [Hfresh Hnd].
    apply elem_of_cons in Hin as [->|Hin]; [|by apply IH].
    rewrite byId_from_other; [apply lookup_insert_eq|].
    intros li Hli Heq. apply Hfresh. rewrite <- Heq. by apply list_elem_of_fmap_2.
Qed.

Lemma clamp_full (ids : gmap Z ShopifyLineItem) (restock : string)
    (lis : list ShopifyLineItem) :
  Forall (λ li, (0 < li_quantity li)%Z) lis →
  (∀ li, li ∈ lis → ids !! li_id li = Some li) →
  omap (clamp ids restock)
       (map (λ li, {| lineItemId := li_id li; requested := li_quantity li |}) lis)
  = map (λ li, {| line_item_id := li_id li; quantity := li_quantity li;
                  restock_type := Some restock |}) lis.
Proof.
  induction lis as [|li lis IH]; intros Hpos Hlook; [done|].
  apply Forall_cons in Hpos as [Hli Hpos]. simpl. unfold clamp at 1. simpl.
  rewrite Hlook by (apply elem_of_cons; by left). cbv zeta.
  rewrite Z.min_id.
  assert ((0 <? li_quantity li)%Z = true) as -> by lia.
  f_equal. apply IH; [done|].
  intros li' Hli'. apply Hlook, elem_of_cons. by right.
Qed.

(** Asking a partial refund for every line item of the order at its full
    quantity is the full refund, provided the order has line items, their
    ids are distinct and their quantities positive. *)
Theorem full_refund_as_partial p (orderId : Z) order
    (note : option string) (manual : option Q) :
  getOrder p orderId = Ok order →
  line_items order ≠ [] →
  NoDup (li_id <$> line_items order) →
  Forall (λ li, (0 < li_quantity li)%Z) (line_items order) →
  refundPartialOrder p orderId
    (map (λ li, {| lineItemId := li_id li; requested := li_quantity li |})
         (line_items order))
    (Some {| restockType := None; note := note; manualRefundAmount := manual |})
  = refundFullOrder p orderId note manual.
Proof.
  intros Hget Hne Hnd Hpos.
  unfold refundPartialOrder, refundFullOrder, partialItems. rewrite Hget.
  rewrite length_map.
  assert ((length (line_items order) =? 0)%nat = false) as ->
    by (destruct (line_items order); [done|reflexivity]).
  rewrite collect_known.
  - cbn [app option_bind mbind restockType default].
    rewrite clamp_full; [|done|intros li; by apply byId_NoDup].
    rewrite length_map.
    assert ((length (line_items order) =? 0)%nat = false) as ->
      by (destruct (line_items order); [done|reflexivity]).
    reflexivity.
  - intros r Hr _. apply list_elem_of_fmap in Hr as [li [-> Hli]]. simpl.
    rewrite byId_NoDup; eauto.
Qed.

Lemma full_refund_as_partial_witness :
  refundPartialOrder Fixtures.shop 5001
    [ {| lineItemId := 1; requested := 2 |} ]
    (Some {| restockType := None; note := None; manualRefundAmount := None |})
  = refundFullOrder Fixtures.shop 5001 None None.
Proof.
  apply (full_refund_as_partial Fixtures.shop 5001 Fixtures.order1001 None None).
  - reflexivity.
  - discriminate.
  - apply NoDup_singleton.
  - repeat constructor.
Defined.

End RefundRequests.

(** ** Closing, re-opening and creating requests *)

Section RequestLifecycle.

Import Types Database Store Lifecycle.

Implicit Types (s : state) (r : HelpRequestRow) (k : string)
  (body : HelpRequestUpdateBody).

Lemma closed_never_collides r r' : in_open_index r = false → collides r r' = false.
Proof. intros H. unfold collides. by rewrite H. Qed.

Lemma closed_accepted (rows : gmap string HelpRequestRow) k r :
  in_open_index r = false → index_accepts rows k r = true.
Proof.
  intros Hclosed. apply bool_decide_eq_true. intros k' r' _. right.
  by apply closed_never_collides.
Qed.

Lemma closing_has_updates body : closing body → HelpRequestsRepo.no_updates body = false.
Proof.
  intros [H|H]; unfold HelpRequestsRepo.no_updates; rewrite H;
    by rewrite bool_decide_false.
Qed.

(** What a closing update does to a request that exists. *)
Lemma update_closing k body (processedBy : option string) s r :
  help_requests s !! k = Some r → closing body →
  let r' := with_updated_at
              (HelpRequestsRepo.apply_update body processedBy (clock s) r) (clock s) in
  HelpRequestsRepo.update k body processedBy s
  = Some (Some r',
          {| clock := clock s; help_requests := <[k := r']> (help_requests s);
             chat_messages := chat_messages s |})
  ∧ upd_status body = Some (status r')
  ∧ processed_at r' = Some (clock s).
Proof.
  intros Hk Hclosing r'. unfold HelpRequestsRepo.update.
  rewrite closing_has_updates by done.
  unfold update_help_request. rewrite Hk. fold r'.
  assert (upd_status body = Some (status r')) as Hst.
  { subst r'. simpl. by destruct Hclosing as [H|H]; rewrite H. }
  assert (processed_at r' = Some (clock s)) as Hat.
  { subst r'. simpl. rewrite bool_decide_true; done. }
  rewrite closed_accepted; [done|].
  unfold in_open_index. subst r'. simpl.
  by destruct Hclosing as [H|H]; rewrite H.
Qed.

(** The same, read from an update the store accepted. *)
Lemma closing_update_row k body (processedBy : option string) s r
    (res : option HelpRequestRow) s' :
  help_requests s !! k = Some r → closing body →
  HelpRequestsRepo.update k body processedBy s = Some (res, s') →
  let r' := with_updated_at
              (HelpRequestsRepo.apply_update body processedBy (clock s) r) (clock s) in
  res = Some r'
  ∧ s' = {| clock := clock s; help_requests := <[k := r']> (help_requests s);
            chat_messages := chat_messages s |}.
Proof.
  intros Hk Hclosing Hres.
  destruct (update_closing k body processedBy s r Hk Hclosing) as (Hupd & _).
  cbv zeta in Hupd. rewrite Hupd in Hres. by injection Hres as <- <-.
Qed.

(** X7.  A completing or rejecting update of a request that exists, once
    the store has accepted it: the row returned is the one stored, it
    carries the new status and so has left the unique index, it is stamped
    with the time of the update, and it names the acting admin when one
    is given and keeps its [processed_by] otherwise. *)
Theorem closing_update_stamps k body (processedBy : option string) s r
    (res : option HelpRequestRow) s' :
  help_requests s !! k = Some r → closing body →
  HelpRequestsRepo.update k body processedBy s = Some (res, s') →
  ∃ r',
    res = Some r'
    ∧ help_requests s' !! k = Some r'
    ∧ upd_status body = Some (status r')
    ∧ in_open_index r' = false
    ∧ processed_at r' = Some (clock s)
    ∧ (JS.truthy_opt processedBy = true → processed_by r' = processedBy)
    ∧ (JS.truthy_opt processedBy = false → processed_by r' = processed_by r).
Proof.
  intros Hk Hclosing Hres.
  destruct (update_closing k body processedBy s r Hk Hclosing) as (_ & Hst & Hat).
  destruct (closing_update_row k body processedBy s r res s' Hk Hclosing Hres)
    as [-> ->].
  cbv zeta in Hst, Hat.
  eexists. split; [reflexivity|]. simpl. rewrite lookup_insert_eq.
  split; [done|]. split; [done|]. split.
  { unfold in_open_index. simpl. by destruct Hclosing as [H|H]; rewrite H. }
  split; [done|].
  rewrite (bool_decide_true (closing body)) by done. simpl.
  split; intros ->; done.
Qed.

Lemma closing_update_stamps_witness :
  ∃ r',
    Some (with_updated_at
            (HelpRequestsRepo.apply_update (set_status rejected) (Some Uuids.admin_id) 0
               Uuids.stored) 0) = Some r'
    ∧ help_requests
        (after (HelpRequestsRepo.update Uuids.request_id (set_status rejected)
                  (Some Uuids.admin_id)) Uuids.opened) !! Uuids.request_id = Some r'
    ∧ Some rejected = Some (status r')
    ∧ in_open_index r' = false
    ∧ processed_at r' = Some (clock Uuids.opened)
    ∧ (JS.truthy_opt (Some Uuids.admin_id) = true → processed_by r' = Some Uuids.admin_id)
    ∧ (JS.truthy_opt (Some Uuids.admin_id) = false
       → processed_by r' = processed_by Uuids.stored).
Proof.
  apply (closing_update_stamps Uuids.request_id (set_status rejected)
           (Some Uuids.admin_id) Uuids.opened Uuids.stored).
  - vm_compute. reflexivity.
  - right. reflexivity.
  - vm_compute. reflexivity.
Defined.

(** Putting a request back to an open status is refused by the store
    when another open request carries its order number. *)
Theorem reopening_refused k k' body (processedBy : option string) s r r'
    (st : HelpRequestStatus) :
  help_requests s !! k = Some r →
  help_requests s !! k' = Some r' → k' ≠ k →
  status r' ∈ HelpRequestsRepo.OPEN_STATUSES →
  order_number r' = order_number r →
  upd_status body = Some st → st ∈ HelpRequestsRepo.OPEN_STATUSES →
  HelpRequestsRepo.update k body processedBy s = None.
Proof.
  intros Hk Hk' Hne Hopen' Horder Hst Hopen.
  unfold HelpRequestsRepo.update, HelpRequestsRepo.no_updates.
  rewrite Hst. rewrite (bool_decide_false (Some st = None)) by done. simpl.
  unfold update_help_request. rewrite Hk.
  destruct (index_accepts _ _ _) eqn:Hacc; [|done].
  apply bool_decide_eq_true in Hacc.
  destruct (Hacc k' r' Hk') as [?|Hfree]; [done|].
  rewrite collides_open in Hfree; try done.
  simpl. by rewrite Hst.
Qed.

Lemma reopening_refused_witness :
  HelpRequestsRepo.update "r1" (set_status pending) None second_request = None.
Proof.
  assert (∃ r, help_requests second_request !! "r1" = Some r
               ∧ order_number r = "1001"%string) as (r & Hr & Ho)
    by (eexists; split; vm_compute; reflexivity).
  assert (∃ r', help_requests second_request !! "r2" = Some r'
                ∧ order_number r' = "1001"%string ∧ status r' = pending)
    as (r' & Hr' & Ho' & Hs')
    by (eexists; split; [|split]; vm_compute; reflexivity).
  apply (reopening_refused "r1" "r2" (set_status pending) None second_request
           r r' pending Hr Hr').
  - discriminate.
  - rewrite Hs'. apply elem_of_cons. by left.
  - congruence.
  - reflexivity.
  - apply elem_of_cons. by left.
Defined.

End RequestLifecycle.

(** ** Creating requests and checking for open ones *)

Section CreateAndCheck.

Import Types Database Store Lifecycle.

Implicit Types (s : state) (r : HelpRequestRow) (k : string).

Lemma collides_inv r r' :
  collides r r' = true →
  status r ∈ HelpRequestsRepo.OPEN_STATUSES
  ∧ status r' ∈ HelpRequestsRepo.OPEN_STATUSES
  ∧ order_number r' = order_number r.
Proof.
  unfold collides. intros H.
  apply andb_true_iff in H as [H Ho]. apply andb_true_iff in H as [H1 H2].
  apply bool_decide_eq_true in Ho. by rewrite !open_status_indexed.
Qed.

(** The row [create] writes. *)
Lemma create_Some (body : HelpRequestCreateBody) (new_id : string) s row s' :
  HelpRequestsRepo.create body new_id s = Some (row, s') →
  help_requests s !! new_id = None
  ∧ help_requests s' = <[new_id := row]> (help_requests s)
  ∧ chat_messages s' = chat_messages s ∧ clock s' = clock s
  ∧ id row = new_id ∧ status row = pending ∧ created_at row = clock s
  ∧ order_number row = HelpRequestsRepo.create_orderNumber (body_order_number body).
Proof.
  unfold HelpRequestsRepo.create, insert_help_request. simpl.
  destruct (help_requests s !! new_id) eqn:Hnew; [done|].
  destruct (index_accepts _ _ _); [|done].
  intros [= <- <-]. done.
Qed.

(** X9.  In a reachable store, once the store has accepted the update
    that completes or rejects the open request of an order, no request
    with that order number is open any more, and the unique index admits
    a new row for it, whatever its status. *)
Theorem closing_frees_order k (upd : HelpRequestUpdateBody)
    (processedBy : option string) s r (res : option HelpRequestRow) s' :
  reachable s →
  help_requests s !! k = Some r →
  status r ∈ HelpRequestsRepo.OPEN_STATUSES →
  closing upd →
  HelpRequestsRepo.update k upd processedBy s = Some (res, s') →
  (∀ k' r', help_requests s' !! k' = Some r' →
            order_number r' = order_number r →
            status r' ∉ HelpRequestsRepo.OPEN_STATUSES)
  ∧ ∀ (new_id : string) (row : HelpRequestRow),
      order_number row = order_number r →
      index_accepts (help_requests s') new_id row = true.
Proof.
  intros Hreach Hk Hopen Hclosing Hres.
  assert (one_open_per_order s) as Hinv.
  { apply (rtc_ind_r (R := step) one_open_per_order Database.empty); [| |exact Hreach].
    - intros k1 k2 r1 r2 H1. simpl in H1. by rewrite lookup_empty in H1.
    - intros s1 s2 _ Hstep Hs1. by eapply step_one_open. }
  destruct (update_closing k upd processedBy s r Hk Hclosing) as (Hupd & Hst & _).
  cbv zeta in Hupd, Hst. rewrite Hupd in Hres. injection Hres as <- <-.
  set (r' := with_updated_at _ _) in *.
  assert (∀ k0 r0, <[k:=r']> (help_requests s) !! k0 = Some r0 →
                   order_number r0 = order_number r →
                   status r0 ∉ HelpRequestsRepo.OPEN_STATUSES) as Hnone.
  { intros k0 r0 Hk0 Ho Hopen0.
    destruct (decide (k0 = k)) as [->|Hne].
    - rewrite lookup_insert_eq in Hk0. injection Hk0 as <-.
      apply open_status_indexed in Hopen0. unfold in_open_index in Hopen0.
      destruct (status r'); destruct Hclosing as [H|H]; rewrite H in Hst; done.
    - rewrite lookup_insert_ne in Hk0 by done.
      apply Hne. by eapply (Hinv k0 k r0 r). }
  split; [exact Hnone|].
  intros new_id row Ho. simpl. apply bool_decide_eq_true. intros k0 r0 Hk0.
  destruct (collides row r0) eqn:Hc; [|by right].
  apply collides_inv in Hc as (_ & Hopen0 & Ho0).
  destruct (Hnone k0 r0 Hk0); [congruence|done].
Qed.

Lemma closing_frees_order_witness :
  index_accepts
    (help_requests
       (after (HelpRequestsRepo.update Uuids.request_id (set_status completed)
                 (Some Uuids.admin_id)) Uuids.opened))
    Uuids.unknown_id Uuids.stored = true.
Proof.
  assert (reachable Uuids.opened) as Hreach.
  { eapply reachable_step; [apply rtc_refl|].
    eapply (step_create _ (Fixtures.createBody "#1001") Uuids.request_id).
    vm_compute. reflexivity. }
  assert (∃ res, HelpRequestsRepo.update Uuids.request_id (set_status completed)
                   (Some Uuids.admin_id) Uuids.opened
                 = Some (res, after (HelpRequestsRepo.update Uuids.request_id
                                       (set_status completed) (Some Uuids.admin_id))
                                    Uuids.opened)) as [res Hupd]
    by (eexists; vm_compute; reflexivity).
  refine (proj2 (closing_frees_order Uuids.request_id (set_status completed)
                   (Some Uuids.admin_id) Uuids.opened Uuids.stored res _
                   Hreach _ _ _ Hupd) Uuids.unknown_id Uuids.stored _).
  - vm_compute. reflexivity.
  - apply elem_of_cons. by left.
  - by left.
  - reflexivity.
Defined.

(** After a request was created for an order number that is not empty
    once normalised, the check for an open request answers yes for every
    spelling of that order number. *)
Theorem created_then_open (body : HelpRequestCreateBody) (new_id : string) s row s'
    (x : string) :
  HelpRequestsRepo.create body new_id s = Some (row, s') →
  Shopify.normalize (body_order_number body) ≠ EmptyString →
  Shopify.normalize x = Shopify.normalize (body_order_number body) →
  HelpRequestsRepo.hasOpenRequestForOrder x s' = true.
Proof.
  intros Hcreate Hne Hx.
  apply create_Some in Hcreate as (_ & Hrows & _ & _ & _ & Hp & _ & Ho).
  unfold HelpRequestsRepo.hasOpenRequestForOrder, HelpRequestsRepo.open_request_keys.
  cbv zeta. apply bool_decide_eq_true. exists new_id, row. split.
  - rewrite Hrows. apply lookup_insert_eq.
  - split.
    + left. rewrite Ho, Hx. unfold HelpRequestsRepo.create_orderNumber, JS.or_else.
      destruct (Shopify.normalize (body_order_number body)); [done|reflexivity].
    + rewrite Hp. apply elem_of_cons. by left.
Qed.

Lemma created_then_open_witness :
  HelpRequestsRepo.hasOpenRequestForOrder " 1001 " Fixtures.opened = true.
Proof.
  assert (∃ s', HelpRequestsRepo.create (Fixtures.createBody "#1001") "r1" Database.empty
                = Some (Fixtures.stored, s') ∧ s' = Fixtures.opened) as (s' & Hc & ->)
    by (eexists; split; vm_compute; reflexivity).
  apply (created_then_open (Fixtures.createBody "#1001") "r1" Database.empty
           Fixtures.stored Fixtures.opened " 1001 " Hc).
  - discriminate.
  - reflexivity.
Defined.

(** X11.  On one state of the store, the pre-check of the create route
    covers the unique index: when [hasOpenRequestForOrder] finds no open
    request and the order number is not empty once normalised, the index
    admits the row [create] inserts, as it admits every row with the order
    number [create] stores.  (For an order number that is empty once
    normalised the pre-check asks for other strings than the one stored.) *)
Theorem precheck_covers_index (body : HelpRequestCreateBody) (new_id : string) s
    (row : HelpRequestRow) :
  HelpRequestsRepo.hasOpenRequestForOrder (body_order_number body) s = false →
  Shopify.normalize (body_order_number body) ≠ EmptyString →
  order_number row = HelpRequestsRepo.create_orderNumber (body_order_number body) →
  index_accepts (help_requests s) new_id row = true.
Proof.
  intros Hopen Hne Hrow. apply bool_decide_eq_true. intros k r Hk.
  destruct (collides row r) eqn:Hc; [|by right].
  apply collides_inv in Hc as (_ & Hst & Ho).
  apply not_true_iff_false in Hopen. destruct Hopen.
  unfold HelpRequestsRepo.hasOpenRequestForOrder, HelpRequestsRepo.open_request_keys.
  cbv zeta. apply bool_decide_eq_true. exists k, r. split; [done|]. split; [|done].
  left. rewrite Ho, Hrow. unfold HelpRequestsRepo.create_orderNumber, JS.or_else.
  destruct (Shopify.normalize (body_order_number body)); [done|reflexivity].
Qed.

Lemma precheck_covers_index_witness :
  index_accepts (help_requests Uuids.opened) Uuids.unknown_id
    (Uuids.row Uuids.unknown_id "1002") = true.
Proof.
  apply (precheck_covers_index (Fixtures.createBody "#1002") Uuids.unknown_id
           Uuids.opened (Uuids.row Uuids.unknown_id "1002")).
  - vm_compute. reflexivity.
  - discriminate.
  - reflexivity.
Defined.

End CreateAndCheck.

(** ** Updates and the admin endpoints *)

Section AdminEndpoints.

Import Types Database Store Lifecycle Auth Shopify.

Implicit Types (s : state) (r : HelpRequestRow) (k : string)
  (verify : Verifier) (p : Provider).

(** An update touches one request only, and of that request neither the
    identity, the customer, the order number, the reason nor the creation
    time; the status moves only when the update names one, and the
    processing stamps only when it completes or rejects. *)
Theorem update_frame k (body : HelpRequestUpdateBody) (processedBy : option string)
    s (res : option HelpRequestRow) s' :
  HelpRequestsRepo.update k body processedBy s = Some (res, s') →
  clock s' = clock s ∧ chat_messages s' = chat_messages s
  ∧ (∀ k', k' ≠ k → help_requests s' !! k' = help_requests s !! k')
  ∧ match help_requests s !! k with
    | None => res = None ∧ s' = s
    | Some r =>
        ∃ r', res = Some r' ∧ help_requests s' !! k = Some r'
              ∧ id r' = id r ∧ type r' = type r
              ∧ customer_email r' = customer_email r
              ∧ customer_phone r' = customer_phone r
              ∧ customer_name r' = customer_name r
              ∧ order_number r' = order_number r
              ∧ reason r' = reason r
              ∧ created_at r' = created_at r
              ∧ (upd_status body = None → status r' = status r)
              ∧ (¬ closing body →
                 processed_at r' = processed_at r ∧ processed_by r' = processed_by r)
    end.
Proof.
  unfold HelpRequestsRepo.update.
  destruct (HelpRequestsRepo.no_updates body) eqn:Hno.
  - intros [= <- <-]. split; [done|]. split; [done|]. split; [done|].
    unfold HelpRequestsRepo.getById.
    destruct (help_requests s !! k) as [r|] eqn:Hk; [|done].
    exists r. repeat split; done.
  - unfold update_help_request.
    destruct (help_requests s !! k) as [r|] eqn:Hk.
    + destruct (index_accepts _ _ _); [|done]. intros [= <- <-]. simpl.
      split; [done|]. split; [done|]. split.
      * intros k' Hne. by rewrite lookup_insert_ne.
      * eexists. split; [done|]. rewrite lookup_insert_eq. split; [done|]. simpl.
        repeat split; try done.
        -- by intros ->.
        -- rewrite bool_decide_false; done.
        -- rewrite bool_decide_false; done.
    + by intros [= <- <-].
Qed.

Lemma update_frame_witness :
  clock (after (HelpRequestsRepo.update "r1" (set_status in_progress) None)
           Fixtures.opened) = clock Fixtures.opened.
Proof.
  assert (∃ res s', HelpRequestsRepo.update "r1" (set_status in_progress) None Fixtures.opened
                    = Some (res, s')
                    ∧ s' = after (HelpRequestsRepo.update "r1" (set_status in_progress) None)
                             Fixtures.opened) as (res & s' & Hupd & <-)
    by (eexists _, _; split; vm_compute; reflexivity).
  exact (proj1 (update_frame "r1" (set_status in_progress) None Fixtures.opened res s' Hupd)).
Defined.



(** X14.  When the provider accepted the refund, the endpoint answers
    200 or 500.  With 200 the request is completed, whatever its status
    was: it carries the provider's order id and shop, the time and the
    acting admin.  With 500 the store refused the update and is left as it
    was: the refund is made and the request keeps its status. *)
Theorem refund_created_completes verify p (shopDomain : string)
    (authorization : option string) (requestId : string)
    (body : HelpRequestsRoutes.RefundBody) s (reply : HelpRequestsRoutes.reply) s'
    (created : CreateRefund) :
  HelpRequestsRoutes.refund verify p shopDomain authorization requestId body s
    = (reply, s') →
  HelpRequestsRoutes.refund_created reply = Some created →
  (HelpRequestsRoutes.code reply = 200%Z
   ∧ ∃ auth r', requireAuth verify authorization = Some auth
       ∧ help_requests s' !! requestId = Some r'
       ∧ status r' = completed
       ∧ is_Some (shopify_order_id r')
       ∧ shopify_shop r' = Some shopDomain
       ∧ processed_at r' = Some (clock s)
       ∧ (userId auth ≠ EmptyString → processed_by r' = Some (userId auth)))
  ∨ (HelpRequestsRoutes.code reply = 500%Z ∧ s' = s).
Proof.
  unfold HelpRequestsRoutes.refund.
  destruct (requireAuth verify authorization) as [auth|]; [|by intros [= <- <-]].
  destruct (HelpRequestsRepo.getById requestId s) as [r|] eqn:Hr;
    [|by intros [= <- <-]].
  destruct (HelpRequestsRoutes.resolveOrderId p r) as [[orderId|]|e];
    [|by intros [= <- <-]..].
  destruct (HelpRequestsRoutes.dispatch _ _ _ _) as [c|e]; [|by intros [= <- <-]].
  destruct (HelpRequestsRepo.update _ _ _ _) as [[res s0]|] eqn:Hupd.
  - intros [= <- <-] _. left. split; [done|].
    apply closing_update_row with (r := r) in Hupd as [_ ->]; [|done|by left].
    eexists auth, _. split; [done|]. simpl. rewrite lookup_insert_eq.
    split; [done|]. simpl. split; [done|]. split; [eauto|]. split; [done|].
    split; [done|].
    intros Hne. apply truthy_true in Hne. by rewrite Hne.
  - intros [= <- <-] _. right. done.
Qed.

Lemma refund_created_completes_witness :
  (HelpRequestsRoutes.code
     (HelpRequestsRoutes.refund Uuids.verify Fixtures.shop "shop.example"
        (Some "Bearer t0k") Uuids.request_id
        (Fixtures.refundBody HelpRequestsRoutes.AmountAbsent) Uuids.opened).1 = 200%Z
   ∧ ∃ auth r',
       requireAuth Uuids.verify (Some "Bearer t0k") = Some auth
       ∧ help_requests
           (HelpRequestsRoutes.refund Uuids.verify Fixtures.shop "shop.example"
              (Some "Bearer t0k") Uuids.request_id
              (Fixtures.refundBody HelpRequestsRoutes.AmountAbsent) Uuids.opened).2
         !! Uuids.request_id = Some r'
       ∧ status r' = completed
       ∧ is_Some (shopify_order_id r')
       ∧ shopify_shop r' = Some "shop.example"%string
       ∧ processed_at r' = Some (clock Uuids.opened)
       ∧ (userId auth ≠ EmptyString → processed_by r' = Some (userId auth)))
  ∨ (HelpRequestsRoutes.code
       (HelpRequestsRoutes.refund Uuids.verify Fixtures.shop "shop.example"
          (Some "Bearer t0k") Uuids.request_id
          (Fixtures.refundBody HelpRequestsRoutes.AmountAbsent) Uuids.opened).1 = 500%Z
     ∧ (HelpRequestsRoutes.refund Uuids.verify Fixtures.shop "shop.example"
          (Some "Bearer t0k") Uuids.request_id
          (Fixtures.refundBody HelpRequestsRoutes.AmountAbsent) Uuids.opened).2
       = Uuids.opened).
Proof.
  apply (refund_created_completes Uuids.verify Fixtures.shop "shop.example"
           (Some "Bearer t0k") Uuids.request_id
           (Fixtures.refundBody HelpRequestsRoutes.AmountAbsent) Uuids.opened _ _
           {| create_note := "Refund for help request " ++ Uuids.request_id;
              create_transactions := Some [Fixtures.tx (20 # 1)];
              create_rest := [("currency", "INR")%string] |}).
  - apply surjective_pairing.
  - vm_compute. reflexivity.
Defined.

(** X5.  The refund endpoint touches the store only after the provider
    accepted a refund: when none was created the store is left as it was
    and the answer is not 200. *)
Theorem refund_failed_keeps_store verify p (shopDomain : string)
    (authorization : option string) (requestId : string)
    (body : HelpRequestsRoutes.RefundBody) s (reply : HelpRequestsRoutes.reply) s' :
  HelpRequestsRoutes.refund verify p shopDomain authorization requestId body s
    = (reply, s') →
  HelpRequestsRoutes.refund_created reply = None →
  s' = s ∧ HelpRequestsRoutes.code reply ≠ 200%Z.
Proof.
  assert (∀ e, HelpRequestsRoutes.error_code e ≠ 200%Z) as Hcode.
  { intros e. unfold HelpRequestsRoutes.error_code.
    destruct (error_status e) as [st|]; [|done].
    destruct ((st =? 422)%Z || (st =? 400)%Z) eqn:H; [|done].
    apply orb_true_iff in H as [H|H]; apply Z.eqb_eq in H; by subst. }
  unfold HelpRequestsRoutes.refund.
  destruct (requireAuth verify authorization) as [auth|]; [|by intros [= <- <-]].
  destruct (HelpRequestsRepo.getById requestId s) as [r|]; [|by intros [= <- <-]].
  destruct (HelpRequestsRoutes.resolveOrderId p r) as [[orderId|]|e].
  - destruct (HelpRequestsRoutes.dispatch _ _ _ _) as [c|e].
    + destruct (HelpRequestsRepo.update _ _ _ _) as [[res s0]|]; by intros [= <- <-].
    + intros [= <- <-] _. split; [done|apply Hcode].
  - by intros [= <- <-].
  - intros [= <- <-] _. split; [done|apply Hcode].
Qed.

Lemma refund_failed_keeps_store_witness :
  (HelpRequestsRoutes.refund Uuids.verify Uuids.refusing "shop.example"
     (Some "Bearer t0k") Uuids.request_id
     (Fixtures.refundBody HelpRequestsRoutes.AmountAbsent) Uuids.opened).2 = Uuids.opened
  ∧ HelpRequestsRoutes.code
      (HelpRequestsRoutes.refund Uuids.verify Uuids.refusing "shop.example"
         (Some "Bearer t0k") Uuids.request_id
         (Fixtures.refundBody HelpRequestsRoutes.AmountAbsent) Uuids.opened).1 ≠ 200%Z.
Proof.
  apply (refund_failed_keeps_store Uuids.verify Uuids.refusing "shop.example"
           (Some "Bearer t0k") Uuids.request_id
           (Fixtures.refundBody HelpRequestsRoutes.AmountAbsent) Uuids.opened).
  - apply surjective_pairing.
  - vm_compute. reflexivity.
Defined.

(** X15.  The cancel endpoint, once the request and its provider order
    are found.  When the provider accepts, the answer is 200 or 500: with
    200 the request is completed, whatever its status was, with the order
    id and the time; with 500 the store refused the update and is left as
    it was.  When the provider refuses, the answer is 422 for a 422 and
    500 for anything else, and the store is left as it was. *)
Theorem cancel_outcome verify p (shopDomain : string) (authorization : option string)
    (requestId : string) s (auth : AuthPayload) r (orderId : Z) :
  requireAuth verify authorization = Some auth →
  HelpRequestsRepo.getById requestId s = Some r →
  HelpRequestsRoutes.resolveOrderId p r = Ok (Some orderId) →
  match orders_cancel p orderId "customer" with
  | ResOk _ =>
      (∃ r' s',
         AdminRoutes.cancel verify p shopDomain authorization requestId s
         = ({| AdminRoutes.code := 200; AdminRoutes.request := Some r' |}, s')
         ∧ help_requests s' !! requestId = Some r'
         ∧ status r' = completed
         ∧ shopify_order_id r' = Some orderId
         ∧ processed_at r' = Some (clock s)
         ∧ order_number r' = order_number r)
      ∨ AdminRoutes.cancel verify p shopDomain authorization requestId s
        = (AdminRoutes.failed 500, s)
  | ResFail st _ =>
      AdminRoutes.cancel verify p shopDomain authorization requestId s
      = (AdminRoutes.failed (if (st =? 422)%Z then 422 else 500), s)
  end.
Proof.
  intros Hauth Hr Hid. unfold AdminRoutes.cancel, cancelOrder.
  rewrite Hauth, Hr, Hid. simpl.
  destruct (orders_cancel p orderId "customer") as [[]|st text]; [|done].
  destruct (HelpRequestsRepo.update _ _ _ _) as [[res s0]|] eqn:Hupd; [|by right].
  left.
  apply closing_update_row with (r := r) in Hupd as [-> ->]; [|done|by left].
  eexists _, _. split; [reflexivity|]. simpl. rewrite lookup_insert_eq.
  repeat split; done.
Qed.

Lemma cancel_outcome_witness :
  (∃ r' s',
     AdminRoutes.cancel Uuids.verify Fixtures.shop "shop.example"
       (Some "Bearer t0k") Uuids.request_id Uuids.opened
     = ({| AdminRoutes.code := 200; AdminRoutes.request := Some r' |}, s')
     ∧ help_requests s' !! Uuids.request_id = Some r'
     ∧ status r' = completed
     ∧ shopify_order_id r' = Some 5001%Z
     ∧ processed_at r' = Some (clock Uuids.opened)
     ∧ order_number r' = order_number Uuids.stored)
  ∨ AdminRoutes.cancel Uuids.verify Fixtures.shop "shop.example"
      (Some "Bearer t0k") Uuids.request_id Uuids.opened
    = (AdminRoutes.failed 500, Uuids.opened).
Proof.
  refine (cancel_outcome Uuids.verify Fixtures.shop "shop.example"
            (Some "Bearer t0k") Uuids.request_id Uuids.opened
            {| userId := Uuids.admin_id; email := "ops@example.com" |}
            Uuids.stored 5001 _ _ _); vm_compute; reflexivity.
Defined.

End AdminEndpoints.

(** ** The history and the live feed of a request *)

Section ChatFeed.

Import Types Database Store ChatRepo Auth ChatRoutes ChatStream Spec.

Local Open Scope Z_scope.

Implicit Types (s : state) (m : ChatMessageRow) (verify : Verifier) (req : Request).

#[local] Instance created_before_total : Total created_before.
Proof. intros a b. unfold created_before. lia. Qed.

(** The history of a request is its messages and no others, each as
    often as it is stored, oldest first. *)
Theorem history_sorted (requestId : string) s :
  Sorted created_before (getMessagesByRequestId requestId s)
  ∧ getMessagesByRequestId requestId s
    ≡ₚ filter (λ m, request_id m = requestId) (chat_messages s)
  ∧ ∀ m, m ∈ getMessagesByRequestId requestId s
         ↔ m ∈ chat_messages s ∧ request_id m = requestId.
Proof.
  unfold getMessagesByRequestId. split; [apply Sorted_merge_sort, _|].
  split; [apply merge_sort_Permutation|].
  intros m. rewrite merge_sort_Permutation, list_elem_of_filter. tauto.
Qed.

(** The stream of a request that exists opens when the caller is an
    admin or supplies the customer's email, and is refused with 401
    otherwise.  Unlike the history, it opens for an admin who supplies
    somebody else's email. *)
Theorem openStream_access verify req s (request : HelpRequestRow) :
  HelpRequestsRepo.getById (requestId req) s = Some request →
  (is_Some (optional_auth verify req) ∨ email_matches (query_email req) request →
   openStream verify req s = Opened)
  ∧ (optional_auth verify req = None →
     ¬ email_matches (query_email req) request →
     openStream verify req s = Refused 401).
Proof.
  intros Hreq. unfold openStream. rewrite Hreq. cbv zeta. split.
  - intros [Hu|(e & He & Hne & Hsame)].
    + by rewrite bool_decide_true.
    + rewrite He. apply truthy_true in Hne. apply same_email_true in Hsame.
      rewrite Hne, Hsame. simpl. by rewrite andb_false_r.
  - intros Hnone Hmis. rewrite Hnone.
    rewrite bool_decide_false by (by intros [? ?]). simpl.
    destruct (query_email req) as [e|] eqn:He; [|done].
    destruct (JS.truthy e) eqn:Ht; [|done].
    destruct (same_email e request) eqn:Hs; [|done].
    destruct Hmis. exists e. split; [done|]. split.
    + by apply truthy_true.
    + by apply same_email_true.
Qed.

Lemma openStream_access_witness :
  openStream Fixtures.verify
    (Fixtures.chatRequest GET (Some "Bearer t0k") (Some "bob@example.com"))
    Fixtures.opened = Opened.
Proof.
  refine (proj1 (openStream_access Fixtures.verify
                   (Fixtures.chatRequest GET (Some "Bearer t0k") (Some "bob@example.com"))
                   Fixtures.opened Fixtures.stored _) _).
  - vm_compute. reflexivity.
  - left. vm_compute. eauto.
Defined.

Lemma poll_silent (l : string) (now : Z) (messages : list ChatMessageRow) :
  l ≠ EmptyString →
  Forall (λ m, msg_created_at m ≤ now) messages →
  poll (Some l) now messages = ([], Some l).
Proof.
  intros Hl Hpast. unfold poll, newMessages.
  apply truthy_true in Hl. rewrite Hl.
  assert (filter (λ m, msg_id m ≠ l ∧ now < msg_created_at m) messages = []) as ->;
    [|done].
  induction Hpast as [|m ms Hm _ IH]; [done|].
  rewrite filter_cons, IH. destruct (decide _) as [[_ Hlt]|_]; [lia|done].
Qed.

(** The messages a poll reads are never stamped after the time of a
    reachable store. *)
Lemma history_past (requestId : string) s :
  timestamps_ordered s →
  Forall (λ m, msg_created_at m ≤ clock s) (getMessagesByRequestId requestId s).
Proof.
  intros [_ Hmsgs]. apply Forall_forall. intros m Hm.
  unfold getMessagesByRequestId in Hm.
  rewrite merge_sort_Permutation in Hm. apply list_elem_of_filter in Hm as [_ Hin].
  rewrite Forall_forall in Hmsgs. by destruct (Hmsgs m Hin).
Qed.

Lemma history_named (requestId : string) s :
  Forall (λ m, msg_id m ≠ EmptyString) (chat_messages s) →
  Forall (λ m, msg_id m ≠ EmptyString) (getMessagesByRequestId requestId s).
Proof.
  intros Hids. apply Forall_forall. intros m Hm.
  unfold getMessagesByRequestId in Hm.
  rewrite merge_sort_Permutation in Hm. apply list_elem_of_filter in Hm as [_ Hin].
  rewrite Forall_forall in Hids. by apply Hids.
Qed.

Lemma run_cons (requestId : string) (lastMessageId : option string) s
    (ss : list state) :
  run requestId lastMessageId (s :: ss)
  = (poll lastMessageId (clock s) (getMessagesByRequestId requestId s)).1
    ++ run requestId
         (poll lastMessageId (clock s) (getMessagesByRequestId requestId s)).2 ss.
Proof. cbn [run]. by destruct (poll _ _ _). Qed.

Lemma run_silent (requestId l : string) (ss : list state) :
  l ≠ EmptyString →
  Forall reachable ss →
  run requestId (Some l) ss = [].
Proof.
  intros Hl Hss. induction Hss as [|s ss Hs _ IH]; [done|].
  rewrite run_cons, poll_silent; [done|done|].
  by apply history_past, reachable_timestamps.
Qed.

(** Over any sequence of reachable stores a stream writes at most one
    message, the latest of the first non-empty history it reads: once a
    message was written no later poll writes another, because no stored
    message is stamped after the time of the poll. *)
Theorem stream_writes_at_most_one (requestId : string) (ss : list state) :
  Forall reachable ss →
  Forall (λ s, Forall (λ m, msg_id m ≠ EmptyString) (chat_messages s)) ss →
  (length (run requestId None ss) ≤ 1)%nat
  ∧ ∀ (l : string), l ≠ EmptyString → run requestId (Some l) ss = [].
Proof.
  intros Hss Hids. split; [|intros l Hl; by apply run_silent].
  induction Hss as [|s ss Hs Hss IH]; [simpl; lia|].
  apply Forall_cons in Hids as [Hid Hids]. rewrite run_cons.
  unfold poll, newMessages, slice_last.
  destruct (last (getMessagesByRequestId requestId s)) as [m|] eqn:Hlast.
  - simpl. rewrite run_silent; [simpl; lia| |done].
    pose proof (history_named requestId s Hid) as Hnamed.
    rewrite Forall_forall in Hnamed. apply Hnamed.
    by eapply last_Some_elem_of.
  - simpl. by apply IH.
Qed.

Lemma stream_writes_at_most_one_witness :
  (length (run "r1" None [Fixtures.opened; Fixtures.conversation; Fixtures.conversation])
   ≤ 1)%nat.
Proof.
  refine (proj1 (stream_writes_at_most_one "r1"
                   [Fixtures.opened; Fixtures.conversation; Fixtures.conversation] _ _)).
  - repeat constructor;
      first [ exact reachable_opened | exact reachable_conversation ].
  - repeat constructor; vm_compute; discriminate.
Defined.

End ChatFeed.

(** ** The unread counter after a post *)

Section UnreadAfterPost.

Import Types Database Store ChatRepo Spec.

Local Open Scope Z_scope.

Implicit Types (s : state) (m : ChatMessageRow) (r : HelpRequestRow).

(** The message [createMessage] stores. *)
Lemma createMessage_Some (data : ChatMessageCreate) (new_id : string) s m s' :
  createMessage data new_id s = Some (m, s') →
  chat_messages s' = chat_messages s ++ [m]
  ∧ help_requests s' = help_requests s ∧ clock s' = clock s
  ∧ msg_created_at m = clock s
  ∧ request_id m = new_request_id data ∧ sender m = new_sender data
  ∧ is_Some (help_requests s !! new_request_id data).
Proof.
  unfold createMessage, insert_chat_message. simpl.
  destruct (existsb _ _); [done|].
  destruct (help_requests s !! new_request_id data) eqn:Hr; [|done].
  intros [= <- <-]. simpl. repeat split; eauto.
Qed.

(** In a reachable store the threshold of the query is the later of the
    request's creation and the most recent admin message. *)
Lemma threshold_later_of (requestId : string) s r :
  timestamps_ordered s →
  help_requests s !! requestId = Some r →
  COALESCE (last_admin_time requestId s) (request_time requestId s)
  = Some (later_of (created_at r) (most_recent (admin_times requestId s))).
Proof.
  intros Hts Hr. unfold request_time. rewrite Hr, last_admin_time_most_recent. simpl.
  destruct (most_recent (admin_times requestId s)) as [t|] eqn:Hrecent; simpl; [|done].
  apply most_recent_elem in Hrecent.
  pose proof (admin_time_after_request requestId s r t Hts Hr Hrecent).
  f_equal. lia.
Qed.

Lemma most_recent_snoc (times : list Z) (t : Z) :
  ∃ u, most_recent (times ++ [t]) = Some u ∧ t ≤ u.
Proof.
  induction times as [|t0 times [u [Hu Hle]]]; simpl.
  - exists t. split; [done|lia].
  - rewrite Hu. exists (Z.max t0 u). split; [done|lia].
Qed.

Lemma filter_none {A} (P : A → Prop) `{∀ x, Decision (P x)} (l : list A) :
  Forall (λ x, ¬ P x) l → filter P l = [].
Proof.
  induction 1 as [|x l Hx _ IH]; [done|]. by rewrite filter_cons_False.
Qed.

(** Once an admin message is stored, nothing of its request is unread. *)
Theorem admin_reply_reads_all (data : ChatMessageCreate) (new_id : string) s m s' :
  reachable s →
  createMessage data new_id s = Some (m, s') →
  new_sender data = admin →
  getUnreadCountForAdmin (new_request_id data) s' = 0%nat.
Proof.
  intros Hreach Hpost Hadmin.
  pose proof (reachable_timestamps s Hreach) as [_ Hpast].
  apply createMessage_Some in Hpost as (Hmsgs & _ & _ & Hat & Hrid & Hsender & _).
  assert (∃ u, last_admin_time (new_request_id data) s' = Some u ∧ clock s ≤ u)
    as (u & Hu & Hle).
  { rewrite last_admin_time_most_recent. unfold admin_times.
    rewrite Hmsgs, filter_app, fmap_app.
    rewrite filter_cons_True by (by rewrite Hrid, Hsender, Hadmin).
    rewrite filter_nil. simpl. rewrite Hat. apply most_recent_snoc. }
  unfold getUnreadCountForAdmin. rewrite Hu. simpl. rewrite Hmsgs.
  rewrite filter_none; [done|].
  apply Forall_app. split.
  - eapply Forall_impl; [exact Hpast|]. simpl. intros m0 [Hm0 _] (_ & _ & Hgt).
    apply Z.ltb_lt in Hgt. lia.
  - apply Forall_singleton. intros (_ & _ & Hgt).
    apply Z.ltb_lt in Hgt. lia.
Qed.

Lemma admin_reply_reads_all_witness :
  getUnreadCountForAdmin "r1"
    (Fixtures.post admin "m4" (advance 40 Fixtures.conversation)) = 0%nat.
Proof.
  assert (reachable (advance 40 Fixtures.conversation)) as Hreach.
  { apply reachable_advance; [exact reachable_conversation|]. by vm_compute. }
  assert (∃ m,
            createMessage
              {| new_request_id := "r1"; new_sender := admin; new_sender_id := None;
                 new_body := Some "hello"%string; new_attachment_blob_url := None;
                 new_attachment_blob_path := None; new_attachment_file_name := None;
                 new_attachment_content_type := None |}
              "m4" (advance 40 Fixtures.conversation)
            = Some (m, Fixtures.post admin "m4" (advance 40 Fixtures.conversation)))
    as [m Hpost] by (eexists; vm_compute; reflexivity).
  exact (admin_reply_reads_all _ "m4" _ m _ Hreach Hpost eq_refl).
Defined.

(** A customer message adds one to the unread count of its request when
    it is stored after the later of the request's creation and the last
    admin message; stored at that very time, it is not counted. *)
Theorem customer_post_unread (data : ChatMessageCreate) (new_id : string) s m s' :
  reachable s →
  createMessage data new_id s = Some (m, s') →
  new_sender data = customer →
  ∃ r, HelpRequestsRepo.getById (new_request_id data) s = Some r
       ∧ let t := later_of (created_at r)
                    (most_recent (admin_times (new_request_id data) s)) in
         (t < clock s →
          getUnreadCountForAdmin (new_request_id data) s'
          = S (getUnreadCountForAdmin (new_request_id data) s))
         ∧ (t = clock s →
            getUnreadCountForAdmin (new_request_id data) s'
            = getUnreadCountForAdmin (new_request_id data) s).
Proof.
  intros Hreach Hpost Hcustomer.
  pose proof (reachable_timestamps s Hreach) as Hts.
  apply createMessage_Some in Hpost as (Hmsgs & Hrows & _ & Hat & Hrid & Hsender & [r Hr]).
  exists r. split; [done|]. cbv zeta.
  pose proof (threshold_later_of _ s r Hts Hr) as Hthr.
  assert (COALESCE (last_admin_time (new_request_id data) s')
                   (request_time (new_request_id data) s')
          = COALESCE (last_admin_time (new_request_id data) s)
                     (request_time (new_request_id data) s)) as Hthr'.
  { unfold request_time. rewrite Hrows. f_equal.
    rewrite !last_admin_time_most_recent. unfold admin_times.
    rewrite Hmsgs, filter_app.
    rewrite (filter_cons_False _ m); [by rewrite filter_nil, app_nil_r|].
    rewrite Hsender, Hcustomer. by intros [_ ?]. }
  unfold getUnreadCountForAdmin. rewrite Hthr', Hthr, Hmsgs, filter_app, length_app.
  simpl. split; intros Ht.
  - rewrite filter_cons_True; [simpl; lia|].
    rewrite Hrid, Hsender, Hcustomer. repeat split. apply Z.ltb_lt. lia.
  - rewrite filter_cons_False; [simpl; lia|].
    intros (_ & _ & Hgt). apply Z.ltb_lt in Hgt. lia.
Qed.

Lemma customer_post_unread_witness :
  ∃ r, HelpRequestsRepo.getById "r1" (advance 40 Fixtures.conversation) = Some r
       ∧ let t := later_of (created_at r)
                    (most_recent (admin_times "r1" (advance 40 Fixtures.conversation))) in
         (t < 40 →
          getUnreadCountForAdmin "r1"
            (Fixtures.post customer "m4" (advance 40 Fixtures.conversation))
          = S (getUnreadCountForAdmin "r1" (advance 40 Fixtures.conversation)))
         ∧ (t = 40 →
            getUnreadCountForAdmin "r1"
              (Fixtures.post customer "m4" (advance 40 Fixtures.conversation))
            = getUnreadCountForAdmin "r1" (advance 40 Fixtures.conversation)).
Proof.
  assert (reachable (advance 40 Fixtures.conversation)) as Hreach.
  { apply reachable_advance; [exact reachable_conversation|]. by vm_compute. }
  assert (∃ m,
            createMessage
              {| new_request_id := "r1"; new_sender := customer; new_sender_id := None;
                 new_body := Some "hello"%string; new_attachment_blob_url := None;
                 new_attachment_blob_path := None; new_attachment_file_name := None;
                 new_attachment_content_type := None |}
              "m4" (advance 40 Fixtures.conversation)
            = Some (m, Fixtures.post customer "m4" (advance 40 Fixtures.conversation)))
    as [m Hpost] by (eexists; vm_compute; reflexivity).
  exact (customer_post_unread _ "m4" _ m _ Hreach Hpost eq_refl).
Defined.

End UnreadAfterPost.

(** ** Blob paths *)

Section BlobPaths.

Import AzureBlob Text.

Local Open Scope string_scope.

(** The sanitised file name has the length of the file name and only
    letters, digits, dots, underscores and dashes; sanitising it again
    changes nothing, and a file name of such characters is kept as it
    is. *)
Theorem sanitize_spec (fileName : string) :
  String.length (sanitize fileName) = String.length fileName
  ∧ all allowed (sanitize fileName) = true
  ∧ sanitize (sanitize fileName) = sanitize fileName
  ∧ (all allowed fileName = true ↔ sanitize fileName = fileName).
Proof.
  induction fileName as [|c rest (Hlen & Hall & Hidem & Hfix)]; [done|].
  simpl. split; [by rewrite Hlen|].
  destruct (allowed c) eqn:Hc; simpl.
  - rewrite Hc. simpl. split; [done|]. split; [by rewrite Hidem|].
    rewrite Hfix. split; [by intros ->|by intros [= ?]].
  - split; [done|]. split; [by rewrite Hidem|].
    split; [done|]. intros [= Heq _]. subst c. discriminate.
Qed.

Lemma append_length (s t : string) :
  String.length (s ++ t) = (String.length s + String.length t)%nat.
Proof. induction s as [|c s IH]; simpl; [done|by rewrite IH]. Qed.

Lemma append_cancel_r (s1 s2 t : string) : s1 ++ t = s2 ++ t → s1 = s2.
Proof.
  intros Heq.
  assert (String.length s1 = String.length s2) as Hlen.
  { apply (f_equal String.length) in Heq. rewrite !append_length in Heq. lia. }
  revert s2 Heq Hlen. induction s1 as [|c s1 IH]; intros [|c2 s2] Heq Hlen;
    try done.
  simpl in Heq, Hlen. injection Heq as -> Heq. f_equal. apply IH; [done|lia].
Qed.

(** Two paths built for the same request and file name at different
    times differ. *)
Theorem buildBlobPath_time (now now' : N) (prefix requestId fileName : string) :
  now ≠ now' →
  buildBlobPath now prefix requestId fileName
  ≠ buildBlobPath now' prefix requestId fileName.
Proof.
  unfold buildBlobPath. intros Hne Heq. apply Hne.
  repeat apply String.app_inj in Heq.
  apply append_cancel_r in Heq. by apply (inj pretty).
Qed.

Lemma buildBlobPath_time_witness :
  buildBlobPath 1700000000000 "help-requests" "r1" "photo 1.png"
  ≠ buildBlobPath 1700000000001 "help-requests" "r1" "photo 1.png".
Proof.
  apply (buildBlobPath_time 1700000000000 1700000000001
           "help-requests" "r1" "photo 1.png").
  discriminate.
Defined.

End BlobPaths.

(** ** Durations *)

Section Durations.

Import AuthRoutes Text.

Local Open Scope N_scope.

Lemma number_and_unit_cons (c : ascii) (rest : string) (num : option N) :
  rest ≠ EmptyString →
  number_and_unit (String c rest) num
  = if is_digit c
    then number_and_unit rest (Some (10 * default 0 num + digit c))
    else None.
Proof. by destruct rest. Qed.

Lemma number_and_unit_digits (digits : string) (unit : ascii) (num : option N) :
  all is_digit digits = true →
  digits ≠ EmptyString ∨ is_Some num →
  number_and_unit (digits ++ String unit EmptyString) num
  = if is_unit unit then Some (decimal (default 0 num) digits, unit) else None.
Proof.
  revert num. induction digits as [|c rest IH]; intros num Hall Hsome.
  - destruct Hsome as [?|[n ->]]; [done|]. simpl. unfold is_unit.
    by destruct (bool_decide _).
  - simpl in Hall. apply andb_true_iff in Hall as [Hc Hrest].
    change (String c rest ++ String unit EmptyString)%string
      with (String c (rest ++ String unit EmptyString)%string).
    rewrite number_and_unit_cons by (by destruct rest).
    rewrite Hc, IH; [done|done|]. right. eauto.
Qed.

Lemma number_and_unit_Some (s : string) (num : option N) (n : N) (unit : ascii) :
  number_and_unit s num = Some (n, unit) →
  ∃ digits, s = (digits ++ String unit EmptyString)%string
            ∧ all is_digit digits = true ∧ is_unit unit = true
            ∧ (digits ≠ EmptyString ∨ is_Some num)
            ∧ n = decimal (default 0 num) digits.
Proof.
  revert num. induction s as [|c rest IH]; intros num; [done|].
  cbn [number_and_unit]. destruct rest as [|c' rest'].
  - destruct num as [n0|]; [|done].
    destruct (bool_decide _) eqn:Hu; [|done]. intros [= <- <-].
    exists EmptyString. repeat split; eauto.
  - destruct (is_digit c) eqn:Hc; [|done]. intros Hrec.
    apply IH in Hrec as (digits & Hs & Hall & Hu & _ & Hn).
    exists (String c digits). simpl. rewrite Hs, Hc, Hall.
    repeat split; eauto.
Qed.

Lemma unit_cases (unit : ascii) (num : N) :
  is_unit unit = true →
  (if bool_decide (unit = "d"%char) then num * 24 * 60 * 60 * 1000
   else if bool_decide (unit = "h"%char) then num * 60 * 60 * 1000
   else if bool_decide (unit = "m"%char) then num * 60 * 1000
   else num * 24 * 60 * 60 * 1000) = num * unit_ms unit.
Proof.
  unfold is_unit, unit_ms. intros Hu. apply bool_decide_eq_true in Hu.
  destruct Hu as [Hu | [Hu | Hu]]; subst unit;
    repeat first [ rewrite bool_decide_true by done
                 | rewrite bool_decide_false by done ];
    lia.
Qed.

(** X25.  A string of one or more digits and a unit letter gives the
    number times the unit, as long as that is at most [2^53] milliseconds
    (up to there the doubles of the code are the exact integers of the
    embedding); a string of any other form gives 30 days. *)
Theorem parseExpiresIn_spec (s : string) :
  (∀ digits unit,
      s = (digits ++ String unit EmptyString)%string → digits ≠ EmptyString →
      all is_digit digits = true → is_unit unit = true →
      decimal 0 digits * unit_ms unit <= 9007199254740992 →
      parseExpiresIn s = decimal 0 digits * unit_ms unit)
  ∧ (¬ duration s → parseExpiresIn s = thirty_days).
Proof.
  split.
  - intros digits unit -> Hne Hall Hu _. unfold parseExpiresIn.
    rewrite number_and_unit_digits, Hu by eauto. simpl. by apply unit_cases.
  - intros Hnot. unfold parseExpiresIn.
    destruct (number_and_unit s None) as [[n unit]|] eqn:Hm; [|done].
    apply number_and_unit_Some in Hm as (digits & Hs & Hall & Hu & Hne & _).
    destruct Hne as [Hne|[? ?]]; [|done].
    destruct Hnot. by exists digits, unit.
Qed.

End Durations.

(** ** Sessions *)

Section Sessions.

Import Auth AuthRoutes.

Local Open Scope Z_scope.

Implicit Types (c : Crypto) (s : state) (t : RefreshTokenRow) (u : AdminUserRow).

Lemma filter_empty {A} (P : A → Prop) `{∀ x, Decision (P x)} (l : list A) :
  Forall (λ x, ¬ P x) l → filter P l = [].
Proof.
  induction 1 as [|x l Hx _ IH]; [done|]. by rewrite filter_cons_False.
Qed.

Lemma filter_unique {A B} `{EqDecision B} (f : A → B) (l : list A) (x : A) :
  NoDup (f <$> l) → x ∈ l → filter (λ y, f y = f x) l = [x].
Proof.
  induction l as [|a l IH]; intros Hnd Hin; [by apply elem_of_nil in Hin|].
  rewrite fmap_cons in Hnd. apply NoDup_cons in Hnd as [Hfresh Hnd].
  apply elem_of_cons in Hin as [->|Hin].
  - rewrite filter_cons_True by done. f_equal. apply filter_empty.
    apply Forall_forall. intros y Hy Heq. apply Hfresh. rewrite <- Heq.
    by apply list_elem_of_fmap_2.
  - rewrite filter_cons_False; [by apply IH|].
    intros Heq. apply Hfresh. rewrite Heq. by apply list_elem_of_fmap_2.
Qed.

(** The tokens of a hash after that hash was revoked. *)
Lemma revoked_gone (h : string) s (now : Z) :
  filter (λ t, token_hash t = h ∧ revoked_at t = None ∧ now < expires_at t)
         (refresh_tokens (revokeRefreshToken h s)) = [].
Proof.
  apply filter_empty, Forall_forall. intros t Ht (Hh & Hlive & _).
  simpl in Ht. apply list_elem_of_fmap in Ht as [t0 [-> _]].
  destruct (bool_decide (token_hash t0 = h)) eqn:Hd; [done|].
  by apply bool_decide_eq_false in Hd.
Qed.

Lemma revoked_others (h h' : string) s (now : Z) :
  h' ≠ h →
  filter (λ t, token_hash t = h' ∧ revoked_at t = None ∧ now < expires_at t)
         (refresh_tokens (revokeRefreshToken h s))
  = filter (λ t, token_hash t = h' ∧ revoked_at t = None ∧ now < expires_at t)
           (refresh_tokens s).
Proof.
  intros Hne. simpl. induction (refresh_tokens s) as [|t ts IH]; [done|].
  cbn [map]. rewrite !filter_cons, IH.
  case_bool_decide as Hh; [|done].
  rewrite decide_False by (simpl; intros [? _]; congruence).
  by rewrite decide_False by (intros [? _]; congruence).
Qed.

(** After a logout the token no longer refreshes, at any time; tokens of
    other hashes refresh as before, and no admin is touched. *)
Theorem logout_revokes c (token : string) s :
  token ≠ EmptyString →
  (∀ now, refresh c (Some token) (advance now (logout c (Some token) s).2)
          = Unauthorized)
  ∧ (∀ other now,
        sha256 c other ≠ sha256 c token →
        refresh c (Some other) (advance now (logout c (Some token) s).2)
        = refresh c (Some other) (advance now s))
  ∧ admin_users (logout c (Some token) s).2 = admin_users s.
Proof.
  intros Hne. apply truthy_true in Hne. unfold logout. rewrite Hne. simpl.
  split; [|split; [|done]].
  - intros now. unfold refresh. rewrite Hne. simpl.
    unfold findRefreshToken. cbn [clock advance refresh_tokens admin_users].
    by rewrite (revoked_gone (sha256 c token) s now).
  - intros other now Hother. unfold refresh, findRefreshToken.
    cbn [clock advance refresh_tokens admin_users].
    by rewrite (revoked_others (sha256 c token) (sha256 c other) s now Hother).
Qed.

Lemma logout_revokes_witness :
  refresh toy (Some "abc")
    (advance 5 (logout toy (Some "abc")
                  (login toy 1000 (Some "ops@example.com") (Some "secret")
                     "abc" "t1" one_admin).2).2)
  = Unauthorized.
Proof.
  refine (proj1 (logout_revokes toy "abc" _ _) 5). discriminate.
Defined.

(** What a login that succeeded did. *)
Lemma login_LoggedIn c (ms : Z) (mail password : option string) (random new_id : string)
    s (access token : string) u s' :
  login c ms mail password random new_id s = (LoggedIn access token u, s') →
  token = random ∧ u ∈ admin_users s
  ∧ access = sign c (clock s) {| userId := admin_id u; email := admin_email u |}
  ∧ clock s' = clock s ∧ admin_users s' = admin_users s
  ∧ refresh_tokens s'
    = refresh_tokens s
      ++ [ {| token_id := new_id; user_id := admin_id u;
              token_hash := sha256 c random; expires_at := clock s + ms;
              revoked_at := None |} ]
  ∧ ¬ Exists (λ t, token_hash t = sha256 c random ∧ revoked_at t = None)
             (refresh_tokens s).
Proof.
  unfold login. destruct mail as [mail|], password as [password|]; try done.
  destruct (_ || _); [done|].
  destruct (findAdminByEmail mail s) as [user|] eqn:Huser; [|done].
  destruct (negb _); [done|].
  unfold createRefreshToken.
  destruct (bool_decide (Exists _ _)); [done|].
  destruct (negb _); [done|].
  case_bool_decide as Hfree; [done|].
  intros [= <- <- <- <-]. simpl. repeat split; try done.
  unfold findAdminByEmail in Huser. apply head_Some_elem_of in Huser.
  by apply list_elem_of_filter in Huser as [_ ?].
Qed.

(** The refresh token a login hands out refreshes for the admin who
    logged in until it expires, and no longer from then on. *)
Theorem login_then_refresh c (ms : Z) (mail password : option string)
    (random new_id : string) s (access token : string) u s' (now : Z) :
  NoDup (admin_id <$> admin_users s) →
  random ≠ EmptyString →
  login c ms mail password random new_id s = (LoggedIn access token u, s') →
  (now < clock s + ms →
   refresh c (Some token) (advance now s')
   = Refreshed (sign c now {| userId := admin_id u; email := admin_email u |}))
  ∧ (clock s + ms ≤ now →
     refresh c (Some token) (advance now s') = Unauthorized).
Proof.
  intros Hnd Hrandom Hlogin.
  apply login_LoggedIn in Hlogin as (-> & Hu & _ & _ & Husers & Htokens & Hfree).
  apply truthy_true in Hrandom. unfold refresh. rewrite Hrandom. simpl.
  unfold findRefreshToken. cbn [clock advance refresh_tokens admin_users].
  rewrite Htokens, Husers, filter_app.
  rewrite (filter_empty _ (refresh_tokens s)).
  2:{ apply Forall_forall. intros t Ht (Hh & Hlive & _). apply Hfree.
      apply Exists_exists. eauto. }
  simpl. split; intros Hnow.
  - rewrite filter_cons_True by done. rewrite filter_nil. simpl.
    rewrite (filter_unique admin_id (admin_users s) u) by done. done.
  - rewrite filter_cons_False; [done|]. simpl. intros (_ & _ & ?). lia.
Qed.

Lemma login_then_refresh_witness :
  refresh toy (Some "abc")
    (advance 999 (login toy 1000 (Some " Ops@Example.com") (Some "secret")
                    "abc" "t1" one_admin).2)
  = Refreshed "jwt:admin-1".
Proof.
  assert (∃ access s',
            login toy 1000 (Some " Ops@Example.com") (Some "secret") "abc" "t1" one_admin
            = (LoggedIn access "abc" ops, s')) as (access & s' & Hlogin)
    by (eexists _, _; vm_compute; reflexivity).
  rewrite Hlogin.
  refine (proj1 (login_then_refresh toy 1000 _ _ "abc" "t1" one_admin access "abc"
                   ops s' 999 _ _ Hlogin) _).
  - apply NoDup_singleton.
  - discriminate.
  - simpl. lia.
Defined.

Lemma revoke_live_sublist (h : string) s :
  token_hash <$> filter (λ t, revoked_at t = None)
                        (refresh_tokens (revokeRefreshToken h s))
  `sublist_of` token_hash <$> filter (λ t, revoked_at t = None) (refresh_tokens s).
Proof.
  simpl. induction (refresh_tokens s) as [|t ts IH]; [done|].
  cbn [map]. rewrite !filter_cons.
  case_bool_decide as Hh.
  - rewrite decide_False by done.
    destruct (decide (revoked_at t = None)); [|done].
    rewrite fmap_cons. by apply sublist_cons.
  - destruct (decide (revoked_at t = None)); [|done].
    rewrite !fmap_cons. by apply sublist_skip.
Qed.

(** Logins and logouts keep admin identifiers distinct and the hashes of
    the tokens that are not revoked distinct. *)
Theorem sessions_keys_unique c (ms : Z) (mail password token : option string)
    (random new_id : string) s :
  keys_unique s →
  keys_unique (login c ms mail password random new_id s).2
  ∧ keys_unique (logout c token s).2.
Proof.
  intros [Hadmins Hlive]. split.
  - destruct (login c ms mail password random new_id s) as [r s'] eqn:Hlogin.
    assert (s' = s ∨ ∃ access tok u, r = LoggedIn access tok u) as [->|Hin].
    { unfold login in Hlogin.
      destruct mail as [mail'|], password as [password'|];
        try (injection Hlogin as _ <-; by left).
      destruct (_ || _); [injection Hlogin as _ <-; by left|].
      destruct (findAdminByEmail mail' s); [|injection Hlogin as _ <-; by left].
      destruct (negb _); [injection Hlogin as _ <-; by left|].
      destruct (createRefreshToken _ _ _ _ _);
        injection Hlogin as <- <-; [right; eauto|by left]. }
    { done. }
    destruct Hin as (access & tok & u & ->).
    apply login_LoggedIn in Hlogin as (_ & _ & _ & _ & Husers & Htokens & Hfree).
    split; simpl; [by rewrite Husers|].
    rewrite Htokens, filter_app, fmap_app.
    rewrite filter_cons_True by done. rewrite filter_nil. simpl.
    apply NoDup_app. split; [done|]. split; [|apply NoDup_singleton].
    intros h Hh Hnew. apply list_elem_of_singleton in Hnew. subst h.
    apply list_elem_of_fmap in Hh as [t [Ht Hin]].
    apply list_elem_of_filter in Hin as [Hl Hin].
    apply Hfree, Exists_exists. eauto.
  - unfold logout. destruct token as [tok|]; [|done].
    destruct (JS.truthy tok); [|done]. split; [done|].
    eapply sublist_NoDup; [exact Hlive|apply revoke_live_sublist].
Qed.

Lemma sessions_keys_unique_witness :
  keys_unique (login toy 1000 (Some "ops@example.com") (Some "secret")
                 "abc" "t1" one_admin).2.
Proof.
  refine (proj1 (sessions_keys_unique toy 1000 (Some "ops@example.com")
                   (Some "secret") None "abc" "t1" one_admin _)).
  split; [apply NoDup_singleton|apply NoDup_nil_2].
Defined.

End Sessions.

(** ** Looking an order up, and reading the history *)

Section LookupAndHistory.

Import Types Database Store Auth Shopify ChatRepo ChatRoutes Spec.

Implicit Types (s : state) (r : HelpRequestRow) (verify : Verifier) (p : Provider).

Lemma reachable_one_open s : reachable s → one_open_per_order s.
Proof.
  intros Hreach.
  apply (rtc_ind_r (R := step) one_open_per_order Database.empty); [| |exact Hreach].
  - intros k1 k2 r1 r2 H1. simpl in H1. by rewrite lookup_empty in H1.
  - intros s1 s2 _ Hstep Hs1. by eapply step_one_open.
Qed.

(** An update that leaves status and order number alone is accepted by
    a store in which open requests are unique per order. *)
Lemma same_key_accepted s (k : string) r r' :
  one_open_per_order s →
  help_requests s !! k = Some r →
  status r' = status r → order_number r' = order_number r →
  index_accepts (help_requests s) k r' = true.
Proof.
  intros Hinv Hk Hst Ho. apply bool_decide_eq_true. intros k0 r0 Hk0.
  destruct (decide (k0 = k)) as [|Hne]; [by left|]. right.
  destruct (collides r' r0) eqn:Hc; [|done].
  apply collides_inv in Hc as (Hopen' & Hopen0 & Heq).
  destruct Hne. eapply (Hinv k0 k r0 r); try done; congruence.
Qed.

(** Looking the order of a request up in a reachable store: a provider
    failure is answered 500 and an unknown order 404, both without a
    change; an order found is recorded on the request with the shop,
    while status, processing stamps and order number stay. *)
Theorem lookup_outcome verify p (shopDomain : string) (authorization : option string)
    (requestId : string) s (auth : AuthPayload) r :
  reachable s →
  requireAuth verify authorization = Some auth →
  HelpRequestsRepo.getById requestId s = Some r →
  match findOrderByName p (order_number r) with
  | Throw _ =>
      AdminRoutes.lookup verify p shopDomain authorization requestId s
      = (AdminRoutes.failed 500, s)
  | Ok None =>
      AdminRoutes.lookup verify p shopDomain authorization requestId s
      = (AdminRoutes.failed 404, s)
  | Ok (Some order) =>
      ∃ r' s',
        AdminRoutes.lookup verify p shopDomain authorization requestId s
        = ({| AdminRoutes.code := 200; AdminRoutes.request := Some r' |}, s')
        ∧ help_requests s' !! requestId = Some r'
        ∧ shopify_order_id r' = Some (order_id order)
        ∧ shopify_shop r' = Some shopDomain
        ∧ status r' = status r
        ∧ processed_at r' = processed_at r ∧ processed_by r' = processed_by r
        ∧ order_number r' = order_number r
  end.
Proof.
  intros Hreach Hauth Hr. unfold AdminRoutes.lookup. rewrite Hauth, Hr.
  destruct (findOrderByName p (order_number r)) as [[order|]|e]; [|done..].
  unfold HelpRequestsRepo.update. simpl.
  unfold update_help_request. unfold HelpRequestsRepo.getById in Hr. rewrite Hr.
  rewrite (same_key_accepted s requestId r); [|by apply reachable_one_open|done..].
  eexists _, _. split; [reflexivity|]. simpl. rewrite lookup_insert_eq.
  repeat split; done.
Qed.

Lemma lookup_outcome_witness :
  ∃ r' s',
    AdminRoutes.lookup Fixtures.verify Fixtures.shop "shop.example"
      (Some "Bearer t0k") "r1" Fixtures.opened
    = ({| AdminRoutes.code := 200; AdminRoutes.request := Some r' |}, s')
    ∧ help_requests s' !! "r1" = Some r'
    ∧ shopify_order_id r' = Some (order_id Fixtures.order1001)
    ∧ shopify_shop r' = Some "shop.example"%string
    ∧ status r' = status Fixtures.stored
    ∧ processed_at r' = processed_at Fixtures.stored
    ∧ processed_by r' = processed_by Fixtures.stored
    ∧ order_number r' = order_number Fixtures.stored.
Proof.
  refine (lookup_outcome Fixtures.verify Fixtures.shop "shop.example"
            (Some "Bearer t0k") "r1" Fixtures.opened
            {| userId := "admin-1"; email := "ops@example.com" |}
            Fixtures.stored reachable_opened _ _); vm_compute; reflexivity.
Defined.

(** Who reads the history of a request that exists: a caller who
    supplies the customer's email, with or without a credential, and an
    admin who supplies no email; a caller with neither is answered 401. *)
Theorem getMessages_readers verify req s r :
  HelpRequestsRepo.getById (requestId req) s = Some r →
  (email_matches (query_email req) r →
   getMessages verify req s = Ok200 (getMessagesByRequestId (requestId req) s))
  ∧ (JS.truthy_opt (query_email req) = false →
     is_Some (optional_auth verify req) →
     getMessages verify req s = Ok200 (getMessagesByRequestId (requestId req) s))
  ∧ (JS.truthy_opt (query_email req) = false →
     optional_auth verify req = None →
     getMessages verify req s = Unauthorized401).
Proof.
  intros Hr. unfold getMessages. rewrite Hr. cbv zeta. split; [|split].
  - intros (e & He & Hne & Hsame). rewrite He. simpl.
    apply truthy_true in Hne. apply same_email_true in Hsame.
    by rewrite Hne, Hsame.
  - intros Hno Hu. rewrite Hno, (bool_decide_true _ Hu). simpl.
    destruct (query_email req) as [e|]; [|done]. simpl in Hno. by rewrite Hno.
  - intros Hno Hnone. rewrite Hno, Hnone.
    by rewrite bool_decide_false by (by intros [? ?]).
Qed.

Lemma getMessages_readers_witness :
  getMessages Fixtures.verify
    (Fixtures.chatRequest GET None (Some "ANN@example.com")) Fixtures.conversation
  = Ok200 (getMessagesByRequestId "r1" Fixtures.conversation).
Proof.
  refine (proj1 (getMessages_readers Fixtures.verify
                   (Fixtures.chatRequest GET None (Some "ANN@example.com"))
                   Fixtures.conversation Fixtures.stored _) _).
  - vm_compute. reflexivity.
  - exists "ANN@example.com"%string.
    split; [reflexivity|]. split; [discriminate|]. vm_compute. reflexivity.
Defined.

End LookupAndHistory.

(** ** A duration, parsed *)

Section DurationExample.

Import AuthRoutes Text.

Lemma parseExpiresIn_spec_witness :
  parseExpiresIn "30d" = (decimal 0 "30" * unit_ms "d")%N.
Proof.
  refine (proj1 (parseExpiresIn_spec "30d") "30"%string "d"%char _ _ _ _ _);
    first [ reflexivity | discriminate ].
Defined.

End DurationExample.
